(** * opentargets.conn: the connection and the paginating cursor

    A shallow embedding of [opentargets/conn.py]: the [Response] envelope,
    the [Connection] request engine with its retry loop and token
    handling, the parameter validator, and the [IterableResult] cursor.

    Python objects are modelled by the values they hold.  Methods that
    perform I/O, write to the log, or mutate the connection are functions
    from a [world] to an [outcome] and a new [world]; methods of the cursor
    additionally thread the cursor's attributes.  Recursion and the retry
    loop of the request engine are bounded by a fuel argument; running out
    of it is the outcome [OutOfFuel], distinct from every Python
    exception. *)

From Stdlib Require Import ZArith List String Ascii Bool Lia QArith.
From Stdlib Require Import Permutation Sorted OrdersEx DecimalString RelationClasses.
Import ListNotations.

Local Open Scope string_scope.
Local Open Scope Z_scope.

#[local] Set Warnings "-register-all".

(** ** Python values *)

(** A Python [float]: a finite double is a rational, and the two
    infinities and NaN are kept apart. *)
Inductive pyfloat : Type :=
| FFinite (q : Q)
| FInf (negative : bool)
| FNaN.

(** The values that flow through the client: parsed JSON documents, query
    parameters and filter values.  A [dict] keeps its insertion order, so
    it is an association list whose keys are pairwise distinct. *)
Inductive pyval : Type :=
| PNone
| PBool (b : bool)
| PInt (z : Z)
| PFloat (f : pyfloat)
| PStr (s : string)
| PList (l : list pyval)
| PTuple (l : list pyval)
| PDict (d : list (string * pyval)).

Definition dict : Type := list (string * pyval).

(** Exceptions raised by the modelled code.  [AttributeError] carries what
    the message of the source is formatted from. *)
Inductive attr_detail : Type :=
| NotValidParameter (filter_type : string) (value : pyval) (endpoint : string)
| MethodNotSupported (method : string)
| ContentTypeNotSupported
| NoAttribute (name : string).

Inductive exn : Type :=
| StopIteration
| KeyError (key : string)
| IndexError
| TypeError
| ValueError
| AttributeError (d : attr_detail)
| HTTPError (status : Z)
| ConnectionError.

Inductive outcome (A : Type) : Type :=
| Ok (a : A)
| Raise (e : exn)
| OutOfFuel.
Arguments Ok {A} a.
Arguments Raise {A} e.
Arguments OutOfFuel {A}.

(** ** Dictionaries *)

Module Dict.

Fixpoint get (k : string) (d : dict) : option pyval :=
  match d with
  | [] => None
  | (k', v) :: d' => if String.eqb k k' then Some v else get k d'
  end.

Definition mem (k : string) (d : dict) : bool :=
  match get k d with Some _ => true | None => false end.

(** [d[k] = v]: an existing key keeps its place, a new one goes last. *)
Fixpoint set (k : string) (v : pyval) (d : dict) : dict :=
  match d with
  | [] => [(k, v)]
  | (k', v') :: d' =>
      if String.eqb k k' then (k, v) :: d' else (k', v') :: set k v d'
  end.

(** [del d[k]] for a key known to be present. *)
Fixpoint del (k : string) (d : dict) : dict :=
  match d with
  | [] => []
  | (k', v') :: d' => if String.eqb k k' then d' else (k', v') :: del k d'
  end.

Definition keys (d : dict) : list string := map fst d.

End Dict.

(** ** Builtins on values *)

(** Truth value of an object, as tested by [if x:] and [not x]. *)
Definition truthy (v : pyval) : bool :=
  match v with
  | PNone => false
  | PBool b => b
  | PInt z => negb (z =? 0)
  | PFloat (FFinite q) => negb (Qeq_bool q 0)
  | PFloat _ => true
  | PStr s => negb (String.eqb s "")
  | PList l | PTuple l => match l with [] => false | _ => true end
  | PDict d => match d with [] => false | _ => true end
  end.

Definition is_None (v : pyval) : bool :=
  match v with PNone => true | _ => false end.

(** [len(x)] for the builtin containers. *)
Definition py_len (v : pyval) : outcome Z :=
  match v with
  | PStr s => Ok (Z.of_nat (String.length s))
  | PList l | PTuple l => Ok (Z.of_nat (List.length l))
  | PDict d => Ok (Z.of_nat (List.length d))
  | _ => Raise TypeError
  end.

(** [isinstance]: [bool] is a subclass of [int]. *)
Definition isinstance_str (v : pyval) : bool :=
  match v with PStr _ => true | _ => false end.
Definition isinstance_bool (v : pyval) : bool :=
  match v with PBool _ => true | _ => false end.
Definition isinstance_int (v : pyval) : bool :=
  match v with PInt _ | PBool _ => true | _ => false end.
Definition isinstance_float (v : pyval) : bool :=
  match v with PFloat _ => true | _ => false end.

(** [x.pop(0)]: the first element of a list and the list that is left.
    A [dict] has no integer key (its keys are strings), and the other
    values have no [pop]. *)
Definition pop0 (v : pyval) : outcome (pyval * pyval) :=
  match v with
  | PList (x :: l) => Ok (x, PList l)
  | PList [] => Raise IndexError
  | PDict _ => Raise (KeyError "0")
  | _ => Raise (AttributeError (NoAttribute "pop"))
  end.

(** [x[k] = v] with a string key. *)
Definition setitem_str (k : string) (v : pyval) (x : pyval) : outcome pyval :=
  match x with
  | PDict d => Ok (PDict (Dict.set k v d))
  | _ => Raise TypeError
  end.

(** [x[k]] with a string key. *)
Definition getitem_str (k : string) (x : pyval) : outcome pyval :=
  match x with
  | PDict d => match Dict.get k d with Some v => Ok v | None => Raise (KeyError k) end
  | _ => Raise TypeError
  end.

(** Truncation of a finite float towards zero. *)
Definition int_of_float (f : pyfloat) : option Z :=
  match f with
  | FFinite q => Some (Z.quot (Qnum q) (Zpos (Qden q)))
  | _ => None
  end.

(** ** HTTP messages and the world *)

(** A header name is a [str] or, with the HTTP/2 adapter, a [bytes]
    object.  The header mapping of a response compares names without
    regard to case. *)
Inductive hkey : Type :=
| KStr (s : string)
| KBytes (s : string).

Definition ascii_lower (c : ascii) : ascii :=
  let n := nat_of_ascii c in
  if (Nat.leb 65 n && Nat.leb n 90)%bool then ascii_of_nat (n + 32) else c.

Fixpoint lower (s : string) : string :=
  match s with
  | EmptyString => EmptyString
  | String c s' => String (ascii_lower c) (lower s')
  end.

Definition hkey_eqb (a b : hkey) : bool :=
  match a, b with
  | KStr x, KStr y => String.eqb (lower x) (lower y)
  | KBytes x, KBytes y => String.eqb (lower x) (lower y)
  | _, _ => false
  end.

Definition headers : Type := list (hkey * string).

Fixpoint header_get (k : hkey) (h : headers) : option string :=
  match h with
  | [] => None
  | (k', v) :: h' => if hkey_eqb k k' then Some v else header_get k h'
  end.

(** [k in headers] *)
Definition header_mem (k : hkey) (h : headers) : bool :=
  match header_get k h with Some _ => true | None => false end.

(** [headers[k]]; the headers look a key up, and report it when it is
    missing, in lower case. *)
Definition header_item (k : hkey) (h : headers) : outcome string :=
  match header_get k h with
  | Some v => Ok v
  | None => Raise (KeyError (lower match k with KStr s | KBytes s => s end))
  end.

(** What the transport hands back: the status, the headers and the body
    as [response.json()] decodes it ([None] when the body is not JSON). *)
Record raw_response : Type := {
  status_code : Z;
  resp_headers : headers;
  resp_json : option pyval
}.

(** The arguments of [session.request]. *)
Record request : Type := {
  req_method : string;
  req_url : string;
  req_params : option pyval;
  req_data : option pyval;
  req_headers : dict
}.

Inductive warning : Type :=
| FairUsageExceeded
| MaximumUsageHit (retry_after : pyval).

Inductive event : Type :=
| EvRequest (r : request)
| EvSleep (seconds : pyval)
| EvWarning (m : warning).

(** The mutable state outside the cursor: the cached token of the
    connection, the dictionary that is the default value of the [headers]
    argument of [_make_request] (one object shared by all calls), the
    number of requests sent so far, and the trace of what happened, most
    recent first. *)
Record world : Type := {
  token : pyval;
  default_headers : dict;
  calls : nat;
  trace : list event
}.

Definition M (A : Type) : Type := world -> outcome A * world.

Definition ret {A} (a : A) : M A := fun w => (Ok a, w).
Definition raise {A} (e : exn) : M A := fun w => (Raise e, w).
Definition bind {A B} (m : M A) (f : A -> M B) : M B :=
  fun w =>
    match m w with
    | (Ok a, w') => f a w'
    | (Raise e, w') => (Raise e, w')
    | (OutOfFuel, w') => (OutOfFuel, w')
    end.
Definition lift {A} (o : outcome A) : M A := fun w => (o, w).

Notation "x <- m ;; k" := (bind m (fun x => k))
  (at level 61, m at next level, right associativity).
Notation "m ;;; k" := (bind m (fun _ => k))
  (at level 61, right associativity).

Definition log (e : event) : M unit :=
  fun w => (Ok tt, {| token := token w; default_headers := default_headers w;
                      calls := calls w; trace := e :: trace w |}).

Definition set_token (t : pyval) : M unit :=
  fun w => (Ok tt, {| token := t; default_headers := default_headers w;
                      calls := calls w; trace := trace w |}).

Definition set_default_headers (h : dict) : M unit :=
  fun w => (Ok tt, {| token := token w; default_headers := h;
                      calls := calls w; trace := trace w |}).

Definition get_token_attr : M pyval := fun w => (Ok (token w), w).

(** ** What the program takes from outside

    The builtins [int] and [float] applied to a string, the comparison of
    two arbitrary objects, [time.sleep], and the HTTP session are not part
    of this module; they are fields of one environment.  [transport n r]
    is the answer of the session to the [n]-th request it is sent when
    that request is [r]; [None] stands for a failure of the connection. *)
Record environment : Type := {
  int_of_str : string -> option Z;
  float_of_str : string -> option pyfloat;
  py_eq : pyval -> pyval -> bool;
  py_lt : pyval -> pyval -> option bool;
  time_sleep_ok : pyval -> bool;
  transport : nat -> request -> option raw_response
}.

(** [int(x)]; [None] when it raises. *)
Definition py_int (env : environment) (v : pyval) : option Z :=
  match v with
  | PInt z => Some z
  | PBool b => Some (if b then 1 else 0)
  | PFloat f => int_of_float f
  | PStr s => int_of_str env s
  | _ => None
  end.

(** ** class Response *)

(** [info] is the [ResultInfo] named tuple built from what is left of the
    body, or the empty [dict] when the body is not a mapping.  The tuple
    is kept as the mapping it was made from; the names under which
    [namedtuple] exposes its entries are those of
    [ResponseFields._dict_to_namedtuple] below, which leaves [total] and
    every other accepted name as it is. *)
Inductive info_t : Type :=
| InfoTuple (fields : dict)
| InfoEmpty.

Record UsageInfo : Type := {
  limit_hour : Z;
  limit_seconds_10 : Z;
  remaining_hour : Z;
  remaining_seconds_10 : Z;
  remaining_minimum : Z;
  exceeded : bool
}.

(** [info.total] *)
Definition info_total (i : info_t) : outcome pyval :=
  match i with
  | InfoTuple d =>
      match Dict.get "total" d with
      | Some v => Ok v
      | None => Raise (AttributeError (NoAttribute "total"))
      end
  | InfoEmpty => Raise (AttributeError (NoAttribute "total"))
  end.

Module Response.

(** The attributes of a [Response]. *)
Record obj : Type := {
  data : pyval;
  info : info_t;
  _headers : headers;
  usage : option UsageInfo
}.

Section WithEnv.
Variable env : environment.

(** [int(self._headers[name])] *)
Definition header_int (name : hkey) (h : headers) : outcome Z :=
  match header_item name h with
  | Ok s => match int_of_str env s with Some z => Ok z | None => Raise ValueError end
  | Raise e => Raise e
  | OutOfFuel => OutOfFuel
  end.

Definition usage_from (K : string -> hkey) (h : headers) : M (option UsageInfo) :=
  lh <- lift (header_int (K "X-Usage-Limit-1h") h) ;;
  ls <- lift (header_int (K "X-Usage-Limit-10s") h) ;;
  rh <- lift (header_int (K "X-Usage-Remaining-1h") h) ;;
  rs <- lift (header_int (K "X-Usage-Remaining-10s") h) ;;
  let minimum := Z.min rh rs in
  let u := {| limit_hour := lh; limit_seconds_10 := ls;
              remaining_hour := rh; remaining_seconds_10 := rs;
              remaining_minimum := minimum; exceeded := minimum <? 0 |} in
  (if exceeded u then log (EvWarning FairUsageExceeded) else ret tt) ;;;
  ret (Some u).

Definition _parse_usage_data (h : headers) : M (option UsageInfo) :=
  if header_mem (KStr "X-Usage-Limit-1h") h then usage_from KStr h
  else if header_mem (KBytes "X-Usage-Limit-1h") h then usage_from KBytes h
  else ret None.

(** The [data] and [info] taken from the decoded body. *)
Definition split_body (parsed_response : pyval) : pyval * info_t :=
  match parsed_response with
  | PDict d =>
      let '(dat, d1) :=
        match Dict.get "data" d with
        | Some v => (v, Dict.del "data" d)
        | None => (PList [], d)
        end in
      let d2 :=
        match Dict.get "from" d1 with
        | Some v => Dict.del "from" (Dict.set "from_" v d1)
        | None => d1
        end in
      (dat, InfoTuple d2)
  | _ => (parsed_response, InfoEmpty)
  end.

Definition __init__ (response : raw_response) (content_type : string) : M obj :=
  if String.eqb content_type "json" then
    parsed_response <-
      lift (match resp_json response with Some v => Ok v | None => Raise ValueError end) ;;
    let '(dat, inf) := split_body parsed_response in
    u <- _parse_usage_data (resp_headers response) ;;
    ret {| data := dat; info := inf; _headers := resp_headers response; usage := u |}
  else raise (AttributeError ContentTypeNotSupported).

(** The method [__len__]: what it returns, before the builtin [len]
    checks that it is a size. *)
Definition __len__ (self : obj) : outcome pyval :=
  match info_total (info self) with
  | Ok v => Ok v
  | _ =>
      match py_len (data self) with
      | Ok n => Ok (PInt n)
      | Raise e => Raise e
      | OutOfFuel => OutOfFuel
      end
  end.

End WithEnv.
End Response.

(** The builtin [len(obj)] on an object whose [__len__] returned [v]:
    the result has to be an integer, and not a negative one.  The upper
    bound [sys.maxsize], beyond which [len] raises [OverflowError], is
    left to the statements that need it. *)
Definition len_of_result (v : pyval) : outcome Z :=
  match v with
  | PInt z => if z <? 0 then Raise ValueError else Ok z
  | PBool b => Ok (if b then 1 else 0)
  | _ => Raise TypeError
  end.

(** ** Sorting

    [sorted] uses only [<] and is stable.  On elements that [<] orders
    totally there is one ordered arrangement, which is what this insertion
    sort returns; a comparison that raises [TypeError] is [None]. *)
Section Sorted.
Context {A : Type}.
Variable lt : A -> A -> option bool.

Fixpoint insert_sorted (x : A) (l : list A) : option (list A) :=
  match l with
  | [] => Some [x]
  | y :: r =>
      match lt y x with
      | None => None
      | Some true =>
          match insert_sorted x r with
          | Some r' => Some (y :: r')
          | None => None
          end
      | Some false => Some (x :: y :: r)
      end
  end.

Fixpoint sorted (l : list A) : option (list A) :=
  match l with
  | [] => Some []
  | x :: r =>
      match sorted r with
      | Some r' => insert_sorted x r'
      | None => None
      end
  end.

End Sorted.

Definition str_ltb (a b : string) : bool :=
  match String_as_OT.compare a b with Lt => true | _ => false end.

(** [needle in haystack] for two strings. *)
Definition str_contains (needle haystack : string) : bool :=
  match String.index 0 needle haystack with Some _ => true | None => false end.

Fixpoint assoc {A : Type} (k : string) (l : list (string * A)) : option A :=
  match l with
  | [] => None
  | (k', v) :: l' => if String.eqb k k' then Some v else assoc k l'
  end.

(** ** class Connection *)

(** The attributes fixed by [__init__].  The schema index maps an endpoint
    to an HTTP method to a parameter name to its declared type. *)
Record Connection_obj : Type := {
  host : string;
  port : Z;
  api_version : string;
  auth_app_name : pyval;
  auth_secret : pyval;
  endpoint_validation_data : list (string * list (string * list (string * string)))
}.

(** The [headers] argument of [_make_request]: the shared default
    dictionary, or a dictionary of the caller's. *)
Inductive headers_arg : Type :=
| DefaultHeaders
| GivenHeaders (h : dict).

Definition request_fn : Type :=
  string -> option pyval -> option pyval -> string -> headers_arg -> bool -> M raw_response.

Module Connection.
Section WithEnv.
Variable env : environment.
Variable self : Connection_obj.

Definition use_auth : bool := truthy (auth_app_name self) && truthy (auth_secret self).

Definition _build_url (endpoint : string) : string :=
  host self ++ ":" ++ NilZero.string_of_int (Z.to_int (port self))
    ++ "/api/" ++ api_version self ++ endpoint.

(** Comparison of two items [(k1, v1)] and [(k2, v2)] of a [dict]: tuples
    are compared at the first position where they differ. *)
Definition item_lt (a b : string * pyval) : option bool :=
  if String.eqb (fst a) (fst b) then
    if py_eq env (snd a) (snd b) then Some false else py_lt env (snd a) (snd b)
  else Some (str_ltb (fst a) (fst b)).

Definition item_tuple (kv : string * pyval) : pyval := PTuple [PStr (fst kv); snd kv].

Fixpoint chars (s : string) : list pyval :=
  match s with
  | EmptyString => []
  | String c s' => PStr (String c EmptyString) :: chars s'
  end.

(** The reordering of [params] at the head of [_make_request]. *)
Definition order_params (params : option pyval) : outcome (option pyval) :=
  match params with
  | None => Ok None
  | Some (PDict d) =>
      match sorted item_lt d with
      | Some l => Ok (Some (PList (map item_tuple l)))
      | None => Raise TypeError
      end
  | Some (PList l) | Some (PTuple l) =>
      match sorted (py_lt env) l with
      | Some l' => Ok (Some (PList l'))
      | None => Raise TypeError
      end
  | Some (PStr s) =>
      match sorted (py_lt env) (chars s) with
      | Some l' => Ok (Some (PList l'))
      | None => Raise TypeError
      end
  | Some _ => Raise TypeError
  end.

(** [headers['Auth-Token'] = self.token] *)
Definition attach_token (h : headers_arg) (t : pyval) : M headers_arg :=
  match h with
  | DefaultHeaders =>
      fun w =>
        match set_default_headers (Dict.set "Auth-Token" t (default_headers w)) w with
        | (_, w') => (Ok DefaultHeaders, w')
        end
  | GivenHeaders d => ret (GivenHeaders (Dict.set "Auth-Token" t d))
  end.

(** The local function [call] of [_make_request]. *)
Definition call (method url : string) (params data : option pyval) (h : headers_arg)
  : M raw_response :=
  fun w =>
    let req := {| req_method := method; req_url := url; req_params := params;
                  req_data := data;
                  req_headers := match h with
                                 | DefaultHeaders => default_headers w
                                 | GivenHeaders d => d
                                 end |} in
    let w' := {| token := token w; default_headers := default_headers w;
                 calls := S (calls w); trace := EvRequest req :: trace w |} in
    match transport env (calls w) req with
    | Some r => (Ok r, w')
    | None => (Raise ConnectionError, w')
    end.

Definition raise_for_status (r : raw_response) : outcome unit :=
  if (400 <=? status_code r) && (status_code r <? 600)
  then Raise (HTTPError (status_code r)) else Ok tt.

(** The value of [retry_after] after a 429. *)
Definition retry_after_of (r : raw_response) : outcome pyval :=
  if header_mem (KStr "Retry-After") (resp_headers r) then
    match header_item (KStr "Retry-After") (resp_headers r) with
    | Ok s =>
        match float_of_str env s with
        | Some f => Ok (PFloat f)
        | None => Raise ValueError
        end
    | Raise e => Raise e
    | OutOfFuel => OutOfFuel
    end
  else Ok (PInt 1).

(** [time.sleep(seconds)].  A value that the interpreter does not accept
    ends the request with an error; its class ([ValueError] for a
    negative number, [OverflowError] for one too large) is not told apart
    and is kept as [ValueError]. *)
Definition time_sleep (seconds : pyval) : M unit :=
  if time_sleep_ok env seconds then log (EvSleep seconds) else raise ValueError.

(** The [while status_code in [429,419]] loop: [do_call] is [call()] and
    [update_token] is [self._update_token()]. *)
Fixpoint retry_loop (n : nat) (do_call : M raw_response) (update_token : M unit)
  : M raw_response :=
  match n with
  | O => fun w => (OutOfFuel, w)
  | S n' =>
      response <- do_call ;;
      if status_code response =? 429 then
        retry_after <- lift (retry_after_of response) ;;
        log (EvWarning (MaximumUsageHit retry_after)) ;;;
        time_sleep retry_after ;;;
        retry_loop n' do_call update_token
      else if status_code response =? 419 then
        update_token ;;;
        retry_loop n' do_call update_token
      else ret response
  end.

Section Methods.
(** [_make_request] as the methods below call it on [self]. *)
Variable make_request : request_fn.

Definition _make_token_request_ (expire : Z) : M raw_response :=
  make_request "/public/auth/request_token" None
    (Some (PDict [("app_name", auth_app_name self);
                  ("secret", auth_secret self);
                  ("expiry", PInt expire)]))
    "GET" DefaultHeaders false.

Definition get_token_ (expire : Z) : M pyval :=
  response <- _make_token_request_ expire ;;
  body <- lift (match resp_json response with Some v => Ok v | None => Raise ValueError end) ;;
  lift (getitem_str "token" body).

Definition _update_token_ : M unit :=
  t <- get_token_attr ;;
  reissue <-
    (if truthy t then
       token_valid_response <-
         make_request "/public/auth/validate_token" None None "GET"
           (GivenHeaders [("Auth-Token", t)]) false ;;
       if status_code token_valid_response =? 200 then ret false
       else if status_code token_valid_response =? 419 then ret true
       else lift (raise_for_status token_valid_response) ;;; ret true
     else ret true) ;;
  if reissue : bool then t' <- get_token_ (10 * 60) ;; set_token t' else ret tt.

(** The head of [_make_request]: the parameters are put in order and,
    with authentication, the token is fetched if there is none and
    attached to the headers. *)
Definition prepare_ (endpoint : string) (params : option pyval) (h : headers_arg)
  : M (option pyval * headers_arg) :=
  params' <- lift (order_params params) ;;
  h' <-
    (if use_auth && negb (str_contains "request_token" endpoint) then
       t <- get_token_attr ;;
       (if is_None t then _update_token_ else ret tt) ;;;
       t' <- get_token_attr ;;
       if negb (is_None t') then attach_token h t' else ret h
     else ret h) ;;
  ret (params', h').

(** The body of [_make_request]; [n] bounds the iterations of its loop. *)
Definition _make_request_ (n : nat) (endpoint : string) (params data : option pyval)
  (method : string) (h : headers_arg) (rate_limit_fail : bool) : M raw_response :=
  ph <- prepare_ endpoint params h ;;
  let do_call := call method (_build_url endpoint) (fst ph) data (snd ph) in
  response <-
    (if negb rate_limit_fail then retry_loop n do_call _update_token_ else do_call) ;;
  lift (raise_for_status response) ;;;
  ret response.

End Methods.

Fixpoint _make_request (fuel : nat) : request_fn :=
  match fuel with
  | O => fun _ _ _ _ _ _ w => (OutOfFuel, w)
  | S fuel' => _make_request_ (_make_request fuel') fuel'
  end.

Definition _update_token (fuel : nat) : M unit := _update_token_ (_make_request fuel).
Definition get_token (fuel : nat) (expire : Z) : M pyval := get_token_ (_make_request fuel) expire.
Definition _make_token_request (fuel : nat) (expire : Z) : M raw_response :=
  _make_token_request_ (_make_request fuel) expire.
Definition prepare (fuel : nat) : string -> option pyval -> headers_arg
  -> M (option pyval * headers_arg) :=
  prepare_ (_make_request fuel).

Definition get (fuel : nat) (endpoint : string) (params : option pyval) : M Response.obj :=
  response <- _make_request fuel endpoint params None "GET" DefaultHeaders false ;;
  Response.__init__ env response "json".

Definition post (fuel : nat) (endpoint : string) (dat : option pyval) : M Response.obj :=
  response <- _make_request fuel endpoint None dat "POST" DefaultHeaders false ;;
  Response.__init__ env response "json".

Definition validate_parameter (endpoint filter_type : string) (value : pyval)
  (method : string) : M unit :=
  by_method <-
    lift (match assoc endpoint (endpoint_validation_data self) with
          | Some m => Ok m
          | None => Raise (KeyError endpoint)
          end) ;;
  endpoint_data <-
    lift (match assoc method by_method with
          | Some d => Ok d
          | None => Raise (KeyError method)
          end) ;;
  match assoc filter_type endpoint_data with
  | Some declared =>
      if String.eqb declared "string" && isinstance_str value then ret tt
      else if String.eqb declared "boolean" && isinstance_bool value then ret tt
      else if String.eqb declared "number" && (isinstance_int value || isinstance_float value)
      then ret tt
      else raise (AttributeError (NotValidParameter filter_type value endpoint))
  | None => raise (AttributeError (NotValidParameter filter_type value endpoint))
  end.

End WithEnv.
End Connection.

(** ** class IterableResult *)

(** [sys.maxsize] of a 64-bit interpreter. *)
Definition sys_maxsize : Z := 2 ^ 63 - 1.

(** [None] as an argument is the same as the argument left out. *)
Definition optional (v : pyval) : option pyval :=
  if is_None v then None else Some v.

(** Binding of [*args, **kwargs] to the two parameters [first] and
    [second=None] of [Connection.get] and [Connection.post].  The first
    one is the endpoint, which the model takes to be a string. *)
Definition bind_arguments (first second : string) (args : list pyval) (kwargs : dict)
  : outcome (string * option pyval) :=
  if existsb (fun k => negb (String.eqb k first || String.eqb k second)) (Dict.keys kwargs)
  then Raise TypeError
  else
    match
      match args with
      | [] =>
          match Dict.get first kwargs with
          | Some e => Ok (e, Dict.get second kwargs)
          | None => Raise TypeError
          end
      | [e] =>
          if Dict.mem first kwargs then Raise TypeError
          else Ok (e, Dict.get second kwargs)
      | [e; p] =>
          if Dict.mem first kwargs || Dict.mem second kwargs then Raise TypeError
          else Ok (e, Some p)
      | _ => Raise TypeError
      end
    with
    | Ok (PStr e, p) => Ok (e, match p with Some v => optional v | None => None end)
    | Ok _ => Raise TypeError
    | Raise e => Raise e
    | OutOfFuel => OutOfFuel
    end.

Module IterableResult.

(** The attributes of the cursor; one that has not been assigned yet is
    [None].  [self.conn] is fixed and is a variable of the section. *)
Record obj : Type := {
  method : string;
  _args : option (list pyval);
  _kwargs : option dict;
  info : option info_t;
  _data : option pyval;
  current : option Z;
  total : option Z
}.

(** [IterableResult(conn, method)] *)
Definition __init__ (m : string) : obj :=
  {| method := m; _args := None; _kwargs := None; info := None;
     _data := None; current := None; total := None |}.

(** Methods of the cursor thread its attributes and the world. *)
Definition CM (A : Type) : Type := obj -> world -> outcome A * obj * world.

Definition retC {A} (a : A) : CM A := fun c w => (Ok a, c, w).
Definition raiseC {A} (e : exn) : CM A := fun c w => (Raise e, c, w).
Definition bindC {A B} (m : CM A) (f : A -> CM B) : CM B :=
  fun c w =>
    match m c w with
    | (Ok a, c', w') => f a c' w'
    | (Raise e, c', w') => (Raise e, c', w')
    | (OutOfFuel, c', w') => (OutOfFuel, c', w')
    end.
Definition liftO {A} (o : outcome A) : CM A := fun c w => (o, c, w).
Definition liftM {A} (m : M A) : CM A :=
  fun c w => match m w with (o, w') => (o, c, w') end.

Notation "x <~ m ;; k" := (bindC m (fun x => k))
  (at level 61, m at next level, right associativity).
Notation "m ;;~ k" := (bindC m (fun _ => k))
  (at level 61, right associativity).

(** [self.name], which raises [AttributeError] before the first assignment. *)
Definition attr {A} (f : obj -> option A) (name : string) : CM A :=
  fun c w =>
    match f c with
    | Some a => (Ok a, c, w)
    | None => (Raise (AttributeError (NoAttribute name)), c, w)
    end.

(** Assignment to one attribute. *)
Definition assign_args (a : list pyval) (c : obj) : obj :=
  {| method := method c; _args := Some a; _kwargs := _kwargs c; info := info c;
     _data := _data c; current := current c; total := total c |}.
Definition assign_kwargs (k : dict) (c : obj) : obj :=
  {| method := method c; _args := _args c; _kwargs := Some k; info := info c;
     _data := _data c; current := current c; total := total c |}.
Definition assign_info (i : info_t) (c : obj) : obj :=
  {| method := method c; _args := _args c; _kwargs := _kwargs c; info := Some i;
     _data := _data c; current := current c; total := total c |}.
Definition assign_data (d : pyval) (c : obj) : obj :=
  {| method := method c; _args := _args c; _kwargs := _kwargs c; info := info c;
     _data := Some d; current := current c; total := total c |}.
Definition assign_current (n : Z) (c : obj) : obj :=
  {| method := method c; _args := _args c; _kwargs := _kwargs c; info := info c;
     _data := _data c; current := Some n; total := total c |}.
Definition assign_total (n : Z) (c : obj) : obj :=
  {| method := method c; _args := _args c; _kwargs := _kwargs c; info := info c;
     _data := _data c; current := current c; total := Some n |}.

Definition set_args (a : list pyval) : CM unit := fun c w => (Ok tt, assign_args a c, w).
Definition set_kwargs (k : dict) : CM unit := fun c w => (Ok tt, assign_kwargs k c, w).
Definition set_info (i : info_t) : CM unit := fun c w => (Ok tt, assign_info i c, w).
Definition set_data (d : pyval) : CM unit := fun c w => (Ok tt, assign_data d c, w).
Definition set_current (n : Z) : CM unit := fun c w => (Ok tt, assign_current n c, w).
Definition set_total (n : Z) : CM unit := fun c w => (Ok tt, assign_total n c, w).

(** [return self] *)
Definition return_self : CM obj := fun c w => (Ok c, c, w).

Section WithEnv.
Variable env : environment.
Variable conn : Connection_obj.

Definition _make_call (fuel : nat) : CM Response.obj :=
  fun c w =>
    if String.eqb (method c) "get" then
      (args <~ attr _args "_args" ;;
       kwargs <~ attr _kwargs "_kwargs" ;;
       a <~ liftO (bind_arguments "endpoint" "params" args kwargs) ;;
       liftM (Connection.get env conn fuel (fst a) (snd a))) c w
    else if String.eqb (method c) "post" then
      (args <~ attr _args "_args" ;;
       kwargs <~ attr _kwargs "_kwargs" ;;
       a <~ liftO (bind_arguments "endpoint" "data" args kwargs) ;;
       liftM (Connection.post env conn fuel (fst a) (snd a))) c w
    else (Raise (AttributeError (MethodNotSupported (method c))), c, w).

(** [int(self.info.total)], or [len(self._data)] when that raises. *)
Definition total_of (i : info_t) (d : pyval) : outcome Z :=
  match info_total i with
  | Ok v =>
      match py_int env v with
      | Some z => Ok z
      | None => py_len d
      end
  | _ => py_len d
  end.

Definition __call__ (fuel : nat) (args : list pyval) (kwargs : dict) : CM obj :=
  set_args args ;;~
  set_kwargs kwargs ;;~
  response <~ _make_call fuel ;;
  set_info (Response.info response) ;;~
  set_data (Response.data response) ;;~
  set_current 0 ;;~
  i <~ attr info "info" ;;
  d <~ attr _data "_data" ;;
  t <~ liftO (total_of i d) ;;
  set_total t ;;~
  return_self.

Definition _validate_filter (filter_type : string) (value : pyval) : CM unit :=
  args <~ attr _args "_args" ;;
  match args with
  | [] => raiseC IndexError
  | PStr endpoint :: _ =>
      liftM (Connection.validate_parameter conn endpoint filter_type value "get")
  | _ :: _ => raiseC TypeError
  end.

(** The body of the [for] loop of [filter]. *)
Definition filter_one (kv : string * pyval) : CM unit :=
  _validate_filter (fst kv) (snd kv) ;;~
  kw <~ attr _kwargs "_kwargs" ;;
  params <~ liftO (getitem_str "params" (PDict kw)) ;;
  params' <~ liftO (setitem_str (fst kv) (snd kv) params) ;;
  set_kwargs (Dict.set "params" params' kw).

Fixpoint filter_each (kwargs : dict) : CM unit :=
  match kwargs with
  | [] => retC tt
  | kv :: rest => filter_one kv ;;~ filter_each rest
  end.

Definition filter (fuel : nat) (kwargs : dict) : CM obj :=
  (if truthy (PDict kwargs) then
     filter_each kwargs ;;~
     args <~ attr _args "_args" ;;
     kw <~ attr _kwargs "_kwargs" ;;
     __call__ fuel args kw ;;~
     retC tt
   else retC tt) ;;~
  return_self.

Definition __next__ (fuel : nat) : CM pyval :=
  cur <~ attr current "current" ;;
  tot <~ attr total "total" ;;
  if cur <? tot then
    d0 <~ attr _data "_data" ;;
    (if negb (truthy d0) then
       kw <~ attr _kwargs "_kwargs" ;;
       params <~ liftO (getitem_str "params" (PDict kw)) ;;
       params' <~ liftO (setitem_str "from" (PInt cur) params) ;;
       set_kwargs (Dict.set "params" params' kw) ;;~
       response <~ _make_call fuel ;;
       set_data (Response.data response)
     else retC tt) ;;~
    d1 <~ attr _data "_data" ;;
    p <~ liftO (pop0 d1) ;;
    set_data (snd p) ;;~
    set_current (cur + 1) ;;~
    retC (fst p)
  else raiseC StopIteration.

Definition __len__ : CM Z :=
  fun c w => (Ok match total c with Some t => t | None => 0 end, c, w).

Definition __bool__ : CM bool :=
  n <~ __len__ ;; retC (0 <? n).

(** [next(islice(self, x, None), None)] once [x] has been accepted:
    [skip] elements are drawn and dropped, then one is returned; the end
    of the iteration at any point gives the default [None]. *)
Fixpoint islice_next (fuel : nat) (skip : nat) : CM pyval :=
  fun c w =>
    match __next__ fuel c w with
    | (Ok d, c', w') =>
        match skip with
        | O => (Ok d, c', w')
        | S k => islice_next fuel k c' w'
        end
    | (Raise StopIteration, c', w') => (Ok PNone, c', w')
    | r => r
    end.

(** [self[x]] for an integer [x]. *)
Definition __getitem__ (fuel : nat) (x : Z) : CM pyval :=
  if (x <? 0) || (sys_maxsize <? x) then raiseC ValueError
  else islice_next fuel (Z.to_nat x).

(** [[d for d in self]]: the records produced until [StopIteration];
    [n] bounds the number of steps. *)
Fixpoint iterate (n : nat) (fuel : nat) : CM (list pyval) :=
  match n with
  | O => fun c w => (OutOfFuel, c, w)
  | S n' =>
      fun c w =>
        match __next__ fuel c w with
        | (Ok d, c', w') =>
            match iterate n' fuel c' w' with
            | (Ok l, c'', w'') => (Ok (d :: l), c'', w'')
            | r => r
            end
        | (Raise StopIteration, c', w') => (Ok [], c', w')
        | (Raise e, c', w') => (Raise e, c', w')
        | (OutOfFuel, c', w') => (OutOfFuel, c', w')
        end
  end.

End WithEnv.
End IterableResult.

(** * Data for the examples *)

(** ** A concrete environment

    Used to run the definitions on examples: [int] and [float] read
    unsigned decimal numerals, strings are the only comparable objects,
    every sleep is accepted, and the session is given. *)

Definition digit_of (c : ascii) : option Z :=
  let n := nat_of_ascii c in
  if (Nat.leb 48 n && Nat.leb n 57)%bool then Some (Z.of_nat (n - 48)) else None.

Fixpoint decimal_from (acc : Z) (s : string) : option Z :=
  match s with
  | EmptyString => Some acc
  | String c s' =>
      match digit_of c with
      | Some d => decimal_from (10 * acc + d) s'
      | None => None
      end
  end.

Definition decimal_of_string (s : string) : option Z :=
  match s with
  | EmptyString => None
  | String "-" s' =>
      match s' with
      | EmptyString => None
      | _ => option_map Z.opp (decimal_from 0 s')
      end
  | _ => decimal_from 0 s
  end.

Definition example_env (t : nat -> request -> option raw_response) : environment :=
  {| int_of_str := decimal_of_string;
     float_of_str := fun s => option_map (fun z => FFinite (inject_Z z)) (decimal_of_string s);
     py_eq := fun a b =>
       match a, b with PStr x, PStr y => String.eqb x y | _, _ => false end;
     py_lt := fun a b =>
       match a, b with PStr x, PStr y => Some (str_ltb x y) | _, _ => None end;
     time_sleep_ok := fun _ => true;
     transport := t |}.

Definition no_transport : nat -> request -> option raw_response := fun _ _ => None.

Definition empty_world : world :=
  {| token := PNone; default_headers := []; calls := 0%nat; trace := [] |}.

Definition json_response (status : Z) (h : headers) (body : pyval) : raw_response :=
  {| status_code := status; resp_headers := h; resp_json := Some body |}.


Definition variant (bytes : bool) : string -> hkey :=
  if bytes then KBytes else KStr.

(** [len(response)]: the method [__len__], then the check of the builtin. *)
Definition len_Response (r : Response.obj) : outcome Z :=
  match Response.__len__ r with
  | Ok v => len_of_result v
  | Raise e => Raise e
  | OutOfFuel => OutOfFuel
  end.

Definition usage_headers_example : headers :=
  [(KStr "Content-Type", "application/json");
   (KStr "X-Usage-Limit-1h", "1000");
   (KStr "X-Usage-Limit-10s", "10");
   (KStr "X-Usage-Remaining-1h", "990");
   (KStr "X-Usage-Remaining-10s", "-1")].

Definition page_example : pyval :=
  PDict [("from", PInt 0); ("total", PInt 3);
         ("data", PList [PStr "r0"; PStr "r1"])].

(** A body whose [total] is the string ["5"]. *)
Definition total_as_string_example : raw_response :=
  json_response 200 []
    (PDict [("total", PStr "5"); ("data", PList [PStr "r0"; PStr "r1"])]).

(** ** Orders

    [lt] is a strict total order on the objects that satisfy [P]: it is
    defined on them, asymmetric and transitive, and two of them that it
    does not separate are the same object. *)
Record strict_total_on {A : Type} (P : A -> Prop) (lt : A -> A -> option bool) : Prop := {
  sto_defined : forall a b, P a -> P b -> lt a b <> None;
  sto_asym : forall a b, P a -> P b -> lt a b = Some true -> lt b a = Some false;
  sto_trans : forall a b c, P a -> P b -> P c ->
      lt a b = Some true -> lt b c = Some true -> lt a c = Some true;
  sto_tri : forall a b, P a -> P b -> lt a b = Some false -> lt b a = Some false -> a = b
}.

(** [a] does not come after [b]. *)
Definition not_after {A : Type} (lt : A -> A -> option bool) (a b : A) : Prop :=
  lt b a = Some false.

(** Order of two items of a [dict] by their keys alone. *)
Definition key_lt (a b : string * pyval) : option bool :=
  Some (str_ltb (fst a) (fst b)).

(** Items in increasing order of their keys. *)
Definition sorted_by_key (l : dict) : Prop :=
  StronglySorted (fun a b => String_as_OT.lt (fst a) (fst b)) l.

Definition params_example_1 : dict :=
  [("size", PInt 10); ("q", PStr "braf"); ("from", PInt 0)].
Definition params_example_2 : dict :=
  [("q", PStr "braf"); ("from", PInt 0); ("size", PInt 10)].

(** ** The validator, as specified *)

(** The type that the schema index declares for a parameter of an
    endpoint and method, if any. *)
Definition declared_type (conn : Connection_obj) (endpoint method name : string)
  : option string :=
  match assoc endpoint (endpoint_validation_data conn) with
  | Some by_method =>
      match assoc method by_method with
      | Some endpoint_data => assoc name endpoint_data
      | None => None
      end
  | None => None
  end.

(** The runtime type of a value matches a declared type: [string] with
    strings, [boolean] with booleans, [number] with instances of [int] or
    [float] (to which Python's booleans belong). *)
Definition type_matches (declared : string) (value : pyval) : bool :=
  (String.eqb declared "string" && isinstance_str value)
  || (String.eqb declared "boolean" && isinstance_bool value)
  || (String.eqb declared "number" && (isinstance_int value || isinstance_float value)).

Definition accepted (conn : Connection_obj) (endpoint method name : string) (value : pyval)
  : Prop :=
  exists declared,
    declared_type conn endpoint method name = Some declared
    /\ type_matches declared value = true.

(** The contract of [validate_parameter]: silent exactly on an accepted
    value, and the invalid-parameter error in every other case, with no
    effect on the world either way. *)
Definition validate_parameter_contract (conn : Connection_obj)
  (endpoint name : string) (value : pyval) (method : string) (w : world) : Prop :=
  snd (Connection.validate_parameter conn endpoint name value method w) = w
  /\ (fst (Connection.validate_parameter conn endpoint name value method w) = Ok tt
      <-> accepted conn endpoint method name value)
  /\ (~ accepted conn endpoint method name value ->
      fst (Connection.validate_parameter conn endpoint name value method w)
      = Raise (AttributeError (NotValidParameter name value endpoint))).

(** A connection whose schema declares three parameters for the search
    endpoint and none for the statistics endpoint. *)
Definition connection_example : Connection_obj :=
  {| host := "https://www.targetvalidation.org";
     port := 443;
     api_version := "latest";
     auth_app_name := PNone;
     auth_secret := PNone;
     endpoint_validation_data :=
       [("/public/search",
         [("get", [("q", "string"); ("size", "number"); ("direct", "boolean")])]);
        ("/public/utils/stats", [])] |}.

(** ** The retry loop, turn by turn *)

(** One turn of the loop that ends in another attempt: the answer was 429
    and the engine logged, then slept for [retry_after]; or the answer was
    419 and [_update_token] returned. *)
Inductive retry_turn (env : environment) (do_call : M raw_response)
  (update_token : M unit) : world -> world -> Prop :=
| turn_429 (w w1 : world) (r : raw_response) (retry_after : pyval) :
    do_call w = (Ok r, w1) ->
    status_code r = 429 ->
    Connection.retry_after_of env r = Ok retry_after ->
    time_sleep_ok env retry_after = true ->
    retry_turn env do_call update_token w
      (snd (log (EvSleep retry_after)
              (snd (log (EvWarning (MaximumUsageHit retry_after)) w1))))
| turn_419 (w w1 w2 : world) (r : raw_response) :
    do_call w = (Ok r, w1) ->
    status_code r = 419 ->
    update_token w1 = (Ok tt, w2) ->
    retry_turn env do_call update_token w w2.

Inductive retry_turns (env : environment) (do_call : M raw_response)
  (update_token : M unit) : nat -> world -> world -> Prop :=
| turns_O (w : world) : retry_turns env do_call update_token 0 w w
| turns_S (k : nat) (w w1 w2 : world) :
    retry_turn env do_call update_token w w1 ->
    retry_turns env do_call update_token k w1 w2 ->
    retry_turns env do_call update_token (S k) w w2.

(** Neither 429 nor 419 reaches the caller, as a response or as the
    status of an [HTTPError]. *)
Definition quiet_exn (e : exn) : Prop :=
  match e with
  | HTTPError s => s <> 429 /\ s <> 419
  | _ => True
  end.

Definition not_surfaced (o : outcome raw_response) : Prop :=
  match o with
  | Ok r => status_code r <> 429 /\ status_code r <> 419
  | Raise e => quiet_exn e
  | OutOfFuel => True
  end.

Definition quiet {A : Type} (o : outcome A) : Prop :=
  match o with
  | Raise e => quiet_exn e
  | _ => True
  end.

(** A request function that, with retry enabled, lets no 429 or 419
    through. *)
Definition retrying (f : request_fn) : Prop :=
  forall endpoint params dat method h w,
    not_surfaced (fst (f endpoint params dat method h false w)).

(** A session that answers 429 with [Retry-After: 2], then 419, then
    hands out a token, then serves a page. *)
Definition retry_transport_example : nat -> request -> option raw_response :=
  fun n _ =>
    match n with
    | 0%nat => Some {| status_code := 429;
                       resp_headers := [(KStr "Retry-After", "2")];
                       resp_json := None |}
    | 1%nat => Some {| status_code := 419; resp_headers := []; resp_json := None |}
    | 2%nat => Some (json_response 200 [] (PDict [("token", PStr "t1")]))
    | _ => Some (json_response 200 [] page_example)
    end.

(** What [_make_request] returns once the loop has ended on [r]. *)
Definition after_loop (r : raw_response) : outcome raw_response :=
  match Connection.raise_for_status r with
  | Ok _ => Ok r
  | Raise e => Raise e
  | OutOfFuel => OutOfFuel
  end.

(** A connection with credentials, a world in which it holds a token, and
    a session that answers 419 to everything. *)
Definition auth_connection_example : Connection_obj :=
  {| host := "https://www.targetvalidation.org";
     port := 443;
     api_version := "latest";
     auth_app_name := PStr "test";
     auth_secret := PStr "test";
     endpoint_validation_data := endpoint_validation_data connection_example |}.

Definition token_expired : raw_response :=
  {| status_code := 419; resp_headers := []; resp_json := None |}.

Definition expired_transport : nat -> request -> option raw_response :=
  fun _ _ => Some token_expired.

Definition world_with_token : world :=
  {| token := PStr "t0"; default_headers := []; calls := 0%nat; trace := [] |}.

(** ** Operations on a cursor *)

Inductive operation : Type :=
| OpCall (args : list pyval) (kwargs : dict)
| OpFilter (kwargs : dict)
| OpNext
| OpGetitem (x : Z).

(** The cursor and the world that an operation leaves behind, whether it
    returned or raised. *)
Definition after {A : Type} (r : outcome A * IterableResult.obj * world)
  : IterableResult.obj * world :=
  (snd (fst r), snd r).

Definition run_operation (env : environment) (conn : Connection_obj) (fuel : nat)
  (op : operation) (c : IterableResult.obj) (w : world) : IterableResult.obj * world :=
  match op with
  | OpCall args kwargs => after (IterableResult.__call__ env conn fuel args kwargs c w)
  | OpFilter kwargs => after (IterableResult.filter env conn fuel kwargs c w)
  | OpNext => after (IterableResult.__next__ env conn fuel c w)
  | OpGetitem x => after (IterableResult.__getitem__ env conn fuel x c w)
  end.

Fixpoint run_operations (env : environment) (conn : Connection_obj) (fuel : nat)
  (ops : list operation) (c : IterableResult.obj) (w : world)
  : IterableResult.obj * world :=
  match ops with
  | [] => (c, w)
  | op :: rest =>
      match run_operation env conn fuel op c w with
      | (c', w') => run_operations env conn fuel rest c' w'
      end
  end.

(** The consumed count is within the total, a negative total counting
    as zero. *)
Definition within_total (c : IterableResult.obj) : Prop :=
  match IterableResult.current c, IterableResult.total c with
  | Some cur, Some tot => 0 <= cur <= Z.max tot 0
  | Some cur, None => 0 <= cur
  | _, _ => True
  end.

(** The consumed count does not exceed the total. *)
Definition current_le_total (c : IterableResult.obj) : Prop :=
  match IterableResult.current c, IterableResult.total c with
  | Some cur, Some tot => cur <= tot
  | _, _ => True
  end.

(** A session whose first page announces a total of -1. *)
Definition negative_total_transport : nat -> request -> option raw_response :=
  fun _ _ => Some (json_response 200 [] (PDict [("total", PInt (-1)); ("data", PList [])])).

(** The two counters of a cursor. *)
Definition counts (c : IterableResult.obj) : option Z * option Z :=
  (IterableResult.current c, IterableResult.total c).

Definition cursor_of {A : Type} (r : outcome A * IterableResult.obj * world)
  : IterableResult.obj := snd (fst r).

Definition result_of {A : Type} (r : outcome A * IterableResult.obj * world)
  : outcome A := fst (fst r).

(** A session that serves the three records of a query two at a time. *)
Definition paging_transport_example : nat -> request -> option raw_response :=
  fun n _ =>
    match n with
    | 0%nat => Some (json_response 200 [] page_example)
    | _ => Some (json_response 200 []
                   (PDict [("from", PInt 2); ("total", PInt 3);
                           ("data", PList [PStr "r2"])]))
    end.

Definition search_args_example : list pyval := [PStr "/public/search"].
Definition search_kwargs_example : dict := [("params", PDict [("q", PStr "braf")])].

(** ** Iteration *)






(** The cursor of the search example after its activation, on the session
    that serves all three records and on the one that falls short. *)
Definition activated_example : outcome IterableResult.obj * IterableResult.obj * world :=
  IterableResult.__call__ (example_env paging_transport_example) connection_example 2
    search_args_example search_kwargs_example (IterableResult.__init__ "get") empty_world.


(** ** Filters *)

(** The parameters after the filters have been assigned one by one. *)
Definition merge_filters (filters p : dict) : dict :=
  fold_left (fun acc kv => Dict.set (fst kv) (snd kv) acc) filters p.

(** The stored keyword arguments once [filters] are merged into their
    [params]. *)
Definition filtered_kwargs (filters p kw : dict) : dict :=
  Dict.set "params" (PDict (merge_filters filters p)) kw.

(** What [filter] makes of the activation it ends with. *)
Definition returning_self
  (r : outcome IterableResult.obj * IterableResult.obj * world)
  : outcome IterableResult.obj * IterableResult.obj * world :=
  match r with
  | (Ok _, c, w) => (Ok c, c, w)
  | (Raise e, c, w) => (Raise e, c, w)
  | (OutOfFuel, c, w) => (OutOfFuel, c, w)
  end.

(** ** Index access *)

(** The element of index [x] of [rs], or [None] past its end. *)
Definition item_or_None (rs : list pyval) (x : nat) : pyval :=
  match nth_error rs x with
  | Some d => d
  | None => PNone
  end.

(** * Further definitions *)

(** A value that is not a mapping. *)
Definition not_a_dict (v : pyval) : Prop :=
  match v with PDict _ => False | _ => True end.

(** The three usage headers read after [X-Usage-Limit-1h]. *)
Definition other_usage_headers : list string :=
  ["X-Usage-Limit-10s"; "X-Usage-Remaining-1h"; "X-Usage-Remaining-10s"].

(** Headers that announce the hourly limit and nothing else. *)
Definition partial_usage_headers_example : headers :=
  [(KStr "X-Usage-Limit-1h", "1000")].

(** ** The printed form of a response *)

(** [s[:n]] and [s[n:]] *)
Fixpoint str_take (n : nat) (s : string) : string :=
  match n, s with
  | S n', String c s' => String c (str_take n' s')
  | _, _ => EmptyString
  end.

Fixpoint str_drop (n : nat) (s : string) : string :=
  match n, s with
  | S n', String _ s' => str_drop n' s'
  | _, _ => s
  end.

(** [x and y] *)
Definition py_and (x y : pyval) : pyval := if truthy x then y else x.

Module ResponseStr.
Section WithStr.
(** The builtin [str] on the values held in [data]. *)
Variable py_str : pyval -> string.

(** [Response.__str__] *)
Definition __str__ (self : Response.obj) : string :=
  let data := py_str (Response.data self) in
  str_take 100 data
  ++ match py_and (PStr (str_drop 100 data)) (PStr "...") with
     | PStr s => s
     | _ => ""
     end.

End WithStr.
End ResponseStr.

(** ** Requests as sent *)

(** The request that the local function [call] of [_make_request] sends
    in the world [w], and the world once it is sent. *)
Definition request_sent (self : Connection_obj) (method endpoint : string)
  (params dat : option pyval) (h : headers_arg) (w : world) : request :=
  {| req_method := method;
     req_url := Connection._build_url self endpoint;
     req_params := params;
     req_data := dat;
     req_headers := match h with
                    | DefaultHeaders => default_headers w
                    | GivenHeaders d => d
                    end |}.

Definition after_request (req : request) (w : world) : world :=
  {| token := token w; default_headers := default_headers w;
     calls := S (calls w); trace := EvRequest req :: trace w |}.

(** The world in which the shared default headers are [d]. *)
Definition with_default_headers (d : dict) (w : world) : world :=
  {| token := token w; default_headers := d; calls := calls w; trace := trace w |}.

(** The world in which the cached token is [t]. *)
Definition with_token (t : pyval) (w : world) : world :=
  {| token := t; default_headers := default_headers w; calls := calls w;
     trace := trace w |}.

(** The status is one that the retry loop lets through. *)
Definition passes_loop (rate_limit_fail : bool) (r : raw_response) : Prop :=
  rate_limit_fail = true \/ (status_code r <> 429 /\ status_code r <> 419).

(** The data of the token request. *)
Definition token_request_data (self : Connection_obj) (expire : Z) : pyval :=
  PDict [("app_name", auth_app_name self); ("secret", auth_secret self);
         ("expiry", PInt expire)].

(** A session that answers 404 to everything. *)
Definition not_found : raw_response :=
  {| status_code := 404; resp_headers := []; resp_json := None |}.

Definition not_found_transport : nat -> request -> option raw_response :=
  fun _ _ => Some not_found.

(** ** The token requests as sent *)

(** The request of [get_token()] and the request by which [_update_token]
    validates the token [t]. *)
Definition token_request (self : Connection_obj) (w : world) : request :=
  request_sent self "GET" "/public/auth/request_token" None
    (Some (token_request_data self (10 * 60))) DefaultHeaders w.

Definition validation_request (self : Connection_obj) (t : pyval) (w : world) : request :=
  request_sent self "GET" "/public/auth/validate_token" None None
    (GivenHeaders [("Auth-Token", t)]) w.

(** What [_update_token] makes of the answer [r] to the token request sent
    in the world [w]. *)
Definition token_stored (self : Connection_obj) (r : raw_response) (w : world)
  : outcome unit * world :=
  match after_loop r with
  | Ok _ =>
      match resp_json r with
      | Some body =>
          match getitem_str "token" body with
          | Ok t => (Ok tt, with_token t (after_request (token_request self w) w))
          | Raise e => (Raise e, after_request (token_request self w) w)
          | OutOfFuel => (OutOfFuel, after_request (token_request self w) w)
          end
      | None => (Raise ValueError, after_request (token_request self w) w)
      end
  | Raise e => (Raise e, after_request (token_request self w) w)
  | OutOfFuel => (OutOfFuel, after_request (token_request self w) w)
  end.

(** A session that issues the token "t1". *)
Definition token_issued : raw_response :=
  json_response 200 [] (PDict [("token", PStr "t1")]).

Definition token_transport_example : nat -> request -> option raw_response :=
  fun _ _ => Some token_issued.

(** ** The shared default headers *)

(** The computation leaves the shared default headers as they are,
    whatever its outcome. *)
Definition keeps_headers {A : Type} (m : M A) : Prop :=
  forall w, default_headers (snd (m w)) = default_headers w.

(** The headers of a request are the caller's own dictionary, or no token
    is attached to them. *)
Definition own_headers (self : Connection_obj) (endpoint : string) (h : headers_arg)
  : Prop :=
  (exists d, h = GivenHeaders d)
  \/ Connection.use_auth self && negb (str_contains "request_token" endpoint) = false.

(** A session that answers 419, then 204 to the validation of the token,
    then issues the token "t1". *)
Definition renewal_transport_example : nat -> request -> option raw_response :=
  fun n _ =>
    match n with
    | 0%nat => Some token_expired
    | 1%nat => Some {| status_code := 204; resp_headers := []; resp_json := None |}
    | _ => Some token_issued
    end.

Definition world_with_token_sent : world :=
  with_default_headers [("Auth-Token", PStr "t0")] world_with_token.

(** ** Reading from a cursor *)

(** The operations that read records: [next] and integer index access. *)
Definition reading (op : operation) : Prop :=
  match op with
  | OpNext | OpGetitem _ => True
  | _ => False
  end.

(** A session whose first page holds more records than the total it
    announces, and the cursor of the search example activated on it. *)
Definition single_page_transport_example : nat -> request -> option raw_response :=
  fun _ _ =>
    Some (json_response 200 []
            (PDict [("total", PInt 2);
                    ("data", PList [PStr "r0"; PStr "r1"; PStr "r2"])])).

Definition activated_single_page_example
  : outcome IterableResult.obj * IterableResult.obj * world :=
  IterableResult.__call__ (example_env single_page_transport_example) connection_example 2
    search_args_example search_kwargs_example (IterableResult.__init__ "get") empty_world.

(** The search example as a POST cursor that has read its first page. *)
Definition post_cursor_example : IterableResult.obj :=
  {| IterableResult.method := "post";
     IterableResult._args := Some search_args_example;
     IterableResult._kwargs := Some [("data", PDict [("q", PStr "braf")])];
     IterableResult.info := Some InfoEmpty;
     IterableResult._data := Some (PList []);
     IterableResult.current := Some 2;
     IterableResult.total := Some 3 |}.

(** ** A filter after paging *)

(** The search example after its second page has been fetched: the stored
    parameters hold the offset of that page. *)
Definition paged_cursor_example : IterableResult.obj :=
  {| IterableResult.method := "get";
     IterableResult._args := Some search_args_example;
     IterableResult._kwargs := Some [("params", PDict [("q", PStr "braf"); ("from", PInt 2)])];
     IterableResult.info := Some InfoEmpty;
     IterableResult._data := Some (PList []);
     IterableResult.current := Some 3;
     IterableResult.total := Some 3 |}.

(** ** The schema index built from the API description *)

(** [d[k] = v] on a mapping with string keys. *)
Fixpoint assoc_set {A : Type} (k : string) (v : A) (l : list (string * A))
  : list (string * A) :=
  match l with
  | [] => [(k, v)]
  | (k', v') :: l' =>
      if String.eqb k k' then (k, v) :: l' else (k', v') :: assoc_set k v l'
  end.

Module RemoteSpecs.

(** The part of the API description that [_get_remote_api_specs] reads:
    under [paths], for each path and each method, the list [parameters]
    if there is one, and of each parameter its [name] and, if given, its
    [type]. *)
Record parameter : Type := {
  par_name : option string;
  par_type : option string
}.

Record method_data : Type := {
  parameters : option (list parameter)
}.

Definition index : Type := list (string * list (string * list (string * string))).

(** [p.split('{')[0]] *)
Fixpoint before_brace (p : string) : string :=
  match p with
  | EmptyString => EmptyString
  | String c p' => if Ascii.eqb c "{" then EmptyString else String c (before_brace p')
  end.

(** [p[-1]] *)
Fixpoint last_char (p : string) : option ascii :=
  match p with
  | EmptyString => None
  | String c p' =>
      match p' with
      | EmptyString => Some c
      | String _ _ => last_char p'
      end
  end.

(** [p[:-1]] *)
Fixpoint drop_last (p : string) : string :=
  match p with
  | EmptyString => EmptyString
  | String c p' =>
      match p' with
      | EmptyString => EmptyString
      | String _ _ => String c (drop_last p')
      end
  end.

(** The key under which a path is indexed. *)
Definition normalise_path (p : string) : outcome string :=
  let p := before_brace p in
  match last_char p with
  | None => Raise IndexError
  | Some c => if Ascii.eqb c "/" then Ok (drop_last p) else Ok p
  end.

(** [par.get('type', 'string')] *)
Definition par_type_or_string (par : parameter) : string :=
  match par_type par with
  | Some t => t
  | None => "string"
  end.

(** The loop over [method_data['parameters']], from the [params] so far. *)
Fixpoint parameter_types (pars : list parameter) (params : list (string * string))
  : outcome (list (string * string)) :=
  match pars with
  | [] => Ok params
  | par :: rest =>
      let t := par_type_or_string par in
      match par_name par with
      | Some n => parameter_types rest (assoc_set n t params)
      | None => Raise (KeyError "name")
      end
  end.

(** The loop over [data.items()] for the path indexed under [p]. *)
Fixpoint index_methods (p : string) (data : list (string * method_data)) (idx : index)
  : outcome index :=
  match data with
  | [] => Ok idx
  | (method, md) :: rest =>
      match parameters md with
      | Some pars =>
          match parameter_types pars [] with
          | Ok params =>
              match assoc p idx with
              | Some by_method =>
                  index_methods p rest (assoc_set p (assoc_set method params by_method) idx)
              | None => Raise (KeyError p)
              end
          | Raise e => Raise e
          | OutOfFuel => OutOfFuel
          end
      | None => index_methods p rest idx
      end
  end.

(** The loop over [self.api_specs['paths'].items()]. *)
Fixpoint index_paths (paths : list (string * list (string * method_data))) (idx : index)
  : outcome index :=
  match paths with
  | [] => Ok idx
  | (p, data) :: rest =>
      match normalise_path p with
      | Ok p' =>
          match index_methods p' data (assoc_set p' [] idx) with
          | Ok idx' => index_paths rest idx'
          | Raise e => Raise e
          | OutOfFuel => OutOfFuel
          end
      | Raise e => Raise e
      | OutOfFuel => OutOfFuel
      end
  end.

(** The value of [self.endpoint_validation_data] that
    [_get_remote_api_specs] builds from the paths of the description. *)
Definition _get_remote_api_specs (paths : list (string * list (string * method_data)))
  : outcome index :=
  index_paths paths [].

End RemoteSpecs.

(** The connection whose schema index is [idx]. *)
Definition with_index (conn : Connection_obj) (idx : RemoteSpecs.index) : Connection_obj :=
  {| host := host conn; port := port conn; api_version := api_version conn;
     auth_app_name := auth_app_name conn; auth_secret := auth_secret conn;
     endpoint_validation_data := idx |}.

(** The method declares parameters in the description of a path. *)
Definition declares_parameters (data : list (string * RemoteSpecs.method_data))
  (method : string) : Prop :=
  exists pars, In (method, {| RemoteSpecs.parameters := Some pars |}) data.

(** A description in which a templated path follows the plain one. *)
Definition paths_example : list (string * list (string * RemoteSpecs.method_data)) :=
  [("/public/evidence",
    [("get", {| RemoteSpecs.parameters :=
                  Some [{| RemoteSpecs.par_name := Some "id";
                           RemoteSpecs.par_type := Some "string" |}] |})]);
   ("/public/evidence/{id}/",
    [("post", {| RemoteSpecs.parameters :=
                   Some [{| RemoteSpecs.par_name := Some "size";
                            RemoteSpecs.par_type := Some "integer" |};
                         {| RemoteSpecs.par_name := Some "target";
                            RemoteSpecs.par_type := None |}] |});
     ("delete", {| RemoteSpecs.parameters := None |})])].

Definition index_example : RemoteSpecs.index :=
  [("/public/evidence", [("post", [("size", "integer"); ("target", "string")])])].

(** A session that answers 429 and gives [Retry-After] as a date. *)
Definition retry_date : raw_response :=
  {| status_code := 429;
     resp_headers := [(KStr "Retry-After", "Wed, 21 Oct 2015 07:28:00 GMT")];
     resp_json := None |}.

Definition retry_date_transport_example : nat -> request -> option raw_response :=
  fun _ _ => Some retry_date.

(** The [Response] made of a body and headers without usage data. *)
Definition parsed (r : raw_response) (body : pyval) : Response.obj :=
  {| Response.data := fst (Response.split_body body);
     Response.info := snd (Response.split_body body);
     Response._headers := resp_headers r;
     Response.usage := None |}.

(** ** The fields of [info] *)

Module ResponseFields.
Section WithNames.
(** [name.isidentifier() and not iskeyword(name)], the tests of the
    interpreter by which [namedtuple] accepts a field name. *)
Variable valid_name : string -> bool.

(** [name.startswith('_')] *)
Definition starts_with_underscore (name : string) : bool :=
  match name with
  | String "_" _ => true
  | _ => false
  end.

(** [str(index)] *)
Definition decimal (index : nat) : string :=
  NilEmpty.string_of_uint (Nat.to_uint index).

(** With [rename=True], a name that is not accepted, starts with an
    underscore or was seen before is replaced by its position. *)
Definition field_name (index : nat) (name : string) (seen : list string) : string :=
  if negb (valid_name name) || starts_with_underscore name
     || existsb (String.eqb name) seen
  then String "_" (decimal index)
  else name.

Fixpoint rename_fields (index : nat) (seen : list string) (d : dict) : dict :=
  match d with
  | [] => []
  | (name, v) :: rest =>
      (field_name index name seen, v) :: rename_fields (S index) (name :: seen) rest
  end.

(** [Response._dict_to_namedtuple(d, classname)]: the fields of the named
    tuple, in order, with their values. *)
Definition _dict_to_namedtuple (d : dict) : dict := rename_fields 0 [] d.

End WithNames.
End ResponseFields.

(** Names made of ASCII letters, digits and underscores that do not start
    with a digit, less the keywords: names that every interpreter
    accepts. *)
Definition name_char (c : ascii) : bool :=
  let n := nat_of_ascii c in
  ((Nat.leb 97 n && Nat.leb n 122) || (Nat.leb 65 n && Nat.leb n 90)
   || (Nat.leb 48 n && Nat.leb n 57) || Nat.eqb n 95)%bool.

Definition digit_char (c : ascii) : bool :=
  let n := nat_of_ascii c in (Nat.leb 48 n && Nat.leb n 57)%bool.

Definition keywords_example : list string :=
  ["False"; "None"; "True"; "and"; "as"; "assert"; "async"; "await"; "break"; "class";
   "continue"; "def"; "del"; "elif"; "else"; "except"; "exec"; "finally"; "for"; "from";
   "global"; "if"; "import"; "in"; "is"; "lambda"; "nonlocal"; "not"; "or"; "pass";
   "print"; "raise"; "return"; "try"; "while"; "with"; "yield"].

Definition valid_name_example (name : string) : bool :=
  match name with
  | EmptyString => false
  | String c _ =>
      negb (digit_char c)
      && forallb name_char (list_ascii_of_string name)
      && negb (existsb (String.eqb name) keywords_example)
  end.

(** A body with a key that is no field name. *)
Definition hyphen_body_example : dict :=
  [("from", PInt 0); ("took-ms", PInt 12); ("total", PInt 3);
   ("data", PList [PStr "r0"; PStr "r1"])].

(** ** Comparison of parameters given as pairs *)

(** Numbers as [<] and [==] compare them. *)
Inductive number : Type :=
| NFinite (q : Q)
| NInf (negative : bool)
| NNaN.

Definition number_of (v : pyval) : option number :=
  match v with
  | PInt z => Some (NFinite (inject_Z z))
  | PBool b => Some (NFinite (inject_Z (if b then 1 else 0)))
  | PFloat (FFinite q) => Some (NFinite q)
  | PFloat (FInf s) => Some (NInf s)
  | PFloat FNaN => Some NNaN
  | _ => None
  end.

Definition number_eqb (a b : number) : bool :=
  match a, b with
  | NFinite x, NFinite y => Qeq_bool x y
  | NInf s, NInf t => Bool.eqb s t
  | _, _ => false
  end.

Definition number_ltb (a b : number) : bool :=
  match a, b with
  | NFinite x, NFinite y => negb (Qle_bool y x)
  | NFinite _, NInf s => negb s
  | NInf s, NFinite _ => s
  | NInf s, NInf t => s && negb t
  | _, _ => false
  end.

(** [==] and [<] of Python 3 on numbers and strings. *)
Definition atom_eqb (a b : pyval) : bool :=
  match number_of a, number_of b with
  | Some x, Some y => number_eqb x y
  | _, _ =>
      match a, b with
      | PStr x, PStr y => String.eqb x y
      | PNone, PNone => true
      | _, _ => false
      end
  end.

Definition atom_lt (a b : pyval) : option bool :=
  match number_of a, number_of b with
  | Some x, Some y => Some (number_ltb x y)
  | _, _ =>
      match a, b with
      | PStr x, PStr y => Some (str_ltb x y)
      | _, _ => None
      end
  end.

(** [<] on two tuples of numbers and strings: the first pair of elements
    that are not equal decides. *)
Fixpoint tuple_lt (l1 l2 : list pyval) : option bool :=
  match l1, l2 with
  | [], [] => Some false
  | [], _ :: _ => Some true
  | _ :: _, [] => Some false
  | a :: r1, b :: r2 => if atom_eqb a b then tuple_lt r1 r2 else atom_lt a b
  end.

(** An environment that compares numbers, strings and tuples of those as
    Python 3 does. *)
Definition comparing_env : environment :=
  {| int_of_str := decimal_of_string;
     float_of_str := fun s => option_map (fun z => FFinite (inject_Z z)) (decimal_of_string s);
     py_eq := fun a b =>
       match a, b with
       | PTuple l1, PTuple l2 =>
           Nat.eqb (List.length l1) (List.length l2)
           && forallb (fun ab => atom_eqb (fst ab) (snd ab)) (combine l1 l2)
       | _, _ => atom_eqb a b
       end;
     py_lt := fun a b =>
       match a, b with
       | PTuple l1, PTuple l2 => tuple_lt l1 l2
       | _, _ => atom_lt a b
       end;
     time_sleep_ok := fun _ => true;
     transport := no_transport |}.

(** The same parameter given as an integer and as a float. *)
Definition size_int : pyval := PTuple [PStr "size"; PInt 1].
Definition size_float : pyval := PTuple [PStr "size"; PFloat (FFinite (inject_Z 1))].

(** ** A cursor activated without parameters *)


(** * Properties *)

(** ** Response: usage data and length *)

Section ResponseFacts.
Variable env : environment.

Lemma header_int_mem (k : hkey) (h : headers) (z : Z) :
  Response.header_int env k h = Ok z -> header_mem k h = true.
Proof.
  unfold Response.header_int, header_item, header_mem.
  destruct (header_get k h); [reflexivity | discriminate].
Qed.

Lemma usage_from_ok (K : string -> hkey) (h : headers) (w : world) (lh ls rh rs : Z) :
  Response.header_int env (K "X-Usage-Limit-1h") h = Ok lh ->
  Response.header_int env (K "X-Usage-Limit-10s") h = Ok ls ->
  Response.header_int env (K "X-Usage-Remaining-1h") h = Ok rh ->
  Response.header_int env (K "X-Usage-Remaining-10s") h = Ok rs ->
  Response.usage_from env K h w =
    (Ok (Some {| limit_hour := lh; limit_seconds_10 := ls;
                 remaining_hour := rh; remaining_seconds_10 := rs;
                 remaining_minimum := Z.min rh rs;
                 exceeded := Z.min rh rs <? 0 |}),
     if Z.min rh rs <? 0
     then snd (log (EvWarning FairUsageExceeded) w)
     else w).
Proof.
  intros H1 H2 H3 H4.
  unfold Response.usage_from, bind, lift.
  rewrite H1, H2, H3, H4. cbn [exceeded].
  destruct (Z.min rh rs <? 0); reflexivity.
Qed.

Lemma parse_usage_absent (h : headers) (w : world) :
  header_mem (KStr "X-Usage-Limit-1h") h = false ->
  header_mem (KBytes "X-Usage-Limit-1h") h = false ->
  Response._parse_usage_data env h w = (Ok None, w).
Proof.
  intros Hs Hb. unfold Response._parse_usage_data. rewrite Hs, Hb. reflexivity.
Qed.

(** [Response(response)] on a JSON body fails only where the usage headers do. *)
Lemma init_json (r : raw_response) (body : pyval) (w : world) :
  resp_json r = Some body ->
  Response.__init__ env r "json" w =
    match Response._parse_usage_data env (resp_headers r) w with
    | (Ok u, w') =>
        (Ok {| Response.data := fst (Response.split_body body);
               Response.info := snd (Response.split_body body);
               Response._headers := resp_headers r;
               Response.usage := u |}, w')
    | (Raise e, w') => (Raise e, w')
    | (OutOfFuel, w') => (OutOfFuel, w')
    end.
Proof.
  intros Hj. unfold Response.__init__. cbn [String.eqb Ascii.eqb Bool.eqb].
  unfold bind, lift. rewrite Hj.
  destruct (Response.split_body body) as [dat inf]. cbn [fst snd].
  destruct (Response._parse_usage_data env (resp_headers r) w) as [[u | e |] w']; reflexivity.
Qed.

End ResponseFacts.

(** C9: when the usage headers are present, in the [str] or in the
    [bytes] variant, and hold integers, the response is built, its
    [usage.exceeded] is true exactly when the smaller of the two remaining
    counts is negative, and the only effect of an exceeded quota is one
    logged warning; when [X-Usage-Limit-1h] is present in neither variant,
    the response is built with [usage] equal to [None] and nothing is
    logged. *)
Theorem usage_exceeded_iff_minimum_negative
  (env : environment) (bytes : bool) (r : raw_response) (body : pyval) (w : world)
  (lh ls rh rs : Z) :
  resp_json r = Some body ->
  (bytes = true -> header_mem (KStr "X-Usage-Limit-1h") (resp_headers r) = false) ->
  Response.header_int env (variant bytes "X-Usage-Limit-1h") (resp_headers r) = Ok lh ->
  Response.header_int env (variant bytes "X-Usage-Limit-10s") (resp_headers r) = Ok ls ->
  Response.header_int env (variant bytes "X-Usage-Remaining-1h") (resp_headers r) = Ok rh ->
  Response.header_int env (variant bytes "X-Usage-Remaining-10s") (resp_headers r) = Ok rs ->
  (exists resp u,
      Response.__init__ env r "json" w =
        (Ok resp,
         if Z.min rh rs <? 0 then snd (log (EvWarning FairUsageExceeded) w) else w)
      /\ Response.usage resp = Some u
      /\ remaining_hour u = rh /\ remaining_seconds_10 u = rs
      /\ limit_hour u = lh /\ limit_seconds_10 u = ls
      /\ (exceeded u = true <-> Z.min (remaining_hour u) (remaining_seconds_10 u) < 0))
  /\ (forall r' body' w',
         resp_json r' = Some body' ->
         header_mem (KStr "X-Usage-Limit-1h") (resp_headers r') = false ->
         header_mem (KBytes "X-Usage-Limit-1h") (resp_headers r') = false ->
         exists resp,
           Response.__init__ env r' "json" w' = (Ok resp, w')
           /\ Response.usage resp = None).
Proof.
  intros Hj Hstr H1 H2 H3 H4. split.
  - rewrite (init_json env r body w Hj).
    assert (Hp : Response._parse_usage_data env (resp_headers r) w =
                 Response.usage_from env (variant bytes) (resp_headers r) w).
    { unfold Response._parse_usage_data. destruct bytes; cbn [variant] in *.
      - rewrite (Hstr eq_refl). now rewrite (header_int_mem env _ _ _ H1).
      - now rewrite (header_int_mem env _ _ _ H1). }
    rewrite Hp, (usage_from_ok env _ _ w lh ls rh rs H1 H2 H3 H4).
    eexists. eexists. split; [reflexivity |]. cbn.
    repeat split; try reflexivity.
    + intros E. now apply Z.ltb_lt.
    + intros E. now apply Z.ltb_lt.
  - intros r' body' w' Hj' Hs Hb.
    rewrite (init_json env r' body' w' Hj'), (parse_usage_absent env _ w' Hs Hb).
    eexists. split; reflexivity.
Qed.

Lemma usage_exceeded_example :
  (exists resp u,
      Response.__init__ (example_env no_transport)
        (json_response 200 usage_headers_example page_example) "json" empty_world =
        (Ok resp, snd (log (EvWarning FairUsageExceeded) empty_world))
      /\ Response.usage resp = Some u
      /\ remaining_hour u = 990 /\ remaining_seconds_10 u = -1
      /\ limit_hour u = 1000 /\ limit_seconds_10 u = 10
      /\ (exceeded u = true <-> Z.min (remaining_hour u) (remaining_seconds_10 u) < 0))
  /\ (forall r' body' w',
         resp_json r' = Some body' ->
         header_mem (KStr "X-Usage-Limit-1h") (resp_headers r') = false ->
         header_mem (KBytes "X-Usage-Limit-1h") (resp_headers r') = false ->
         exists resp,
           Response.__init__ (example_env no_transport) r' "json" w' = (Ok resp, w')
           /\ Response.usage resp = None).
Proof.
  apply (usage_exceeded_iff_minimum_negative (example_env no_transport) false
           (json_response 200 usage_headers_example page_example) page_example
           empty_world 1000 10 990 (-1)).
  - reflexivity.
  - discriminate.
  - reflexivity.
  - reflexivity.
  - reflexivity.
  - reflexivity.
Defined.

(** C7: on a body whose [total] is the string ["5"], which [int] turns
    into 5, [Response.__len__] returns the string as it is, so that
    [len(response)] raises [TypeError]; the cursor, on the same body,
    computes the total 5. *)
Theorem Response_len_returns_total_uncoerced :
  exists resp,
    fst (Response.__init__ (example_env no_transport) total_as_string_example "json"
           empty_world) = Ok resp
    /\ info_total (Response.info resp) = Ok (PStr "5")
    /\ py_int (example_env no_transport) (PStr "5") = Some 5
    /\ py_len (Response.data resp) = Ok 2
    /\ Response.__len__ resp = Ok (PStr "5")
    /\ len_Response resp = Raise TypeError
    /\ IterableResult.total_of (example_env no_transport)
         (Response.info resp) (Response.data resp) = Ok 5.
Proof.
  eexists. repeat split; reflexivity.
Qed.

(** ** Sorting *)

Section SortedFacts.
Context {A : Type}.
Variable lt : A -> A -> option bool.

Lemma insert_sorted_perm (x : A) (l l' : list A) :
  insert_sorted lt x l = Some l' -> Permutation l' (x :: l).
Proof.
  revert l'. induction l as [| y r IH]; intros l' H; cbn in H.
  - injection H as <-. apply Permutation_refl.
  - destruct (lt y x) as [[|]|]; try discriminate.
    + destruct (insert_sorted lt x r) as [r'|]; try discriminate.
      injection H as <-.
      eapply perm_trans; [apply perm_skip, IH; reflexivity | apply perm_swap].
    + injection H as <-. apply Permutation_refl.
Qed.

Lemma sorted_perm (l l' : list A) :
  sorted lt l = Some l' -> Permutation l' l.
Proof.
  revert l'. induction l as [| x r IH]; intros l' H; cbn in H.
  - injection H as <-. constructor.
  - destruct (sorted lt r) as [r'|]; try discriminate.
    eapply perm_trans; [apply insert_sorted_perm; eassumption |].
    apply perm_skip, IH; reflexivity.
Qed.

Section Total.
Variable P : A -> Prop.
Hypothesis order : strict_total_on P lt.

Lemma not_after_trans (a b c : A) :
  P a -> P b -> P c ->
  not_after lt a b -> not_after lt b c -> not_after lt a c.
Proof.
  unfold not_after. intros Pa Pb Pc Hba Hcb.
  destruct (lt c a) as [[|]|] eqn:Hca; [| reflexivity |].
  - destruct (lt a b) as [[|]|] eqn:Hab.
    + rewrite (sto_trans P lt order c a b Pc Pa Pb Hca Hab) in Hcb. discriminate.
    + rewrite (sto_tri P lt order a b Pa Pb Hab Hba) in Hca. congruence.
    + now destruct (sto_defined P lt order a b Pa Pb).
  - now destruct (sto_defined P lt order c a Pc Pa).
Qed.

Lemma insert_sorted_ok (x : A) (l : list A) :
  P x -> Forall P l -> StronglySorted (not_after lt) l ->
  exists l', insert_sorted lt x l = Some l' /\ StronglySorted (not_after lt) l'.
Proof.
  intros Px. induction l as [| y r IH]; intros HP Hs; cbn.
  - eexists. split; [reflexivity |]. repeat constructor.
  - inversion HP as [| ? ? Py HPr]; subst.
    inversion Hs as [| ? ? Hsr Hall]; subst.
    destruct (lt y x) as [[|]|] eqn:Hyx.
    + destruct (IH HPr Hsr) as (r' & Hr' & Hsr'). rewrite Hr'.
      eexists. split; [reflexivity |]. constructor; [assumption |].
      apply (Permutation_Forall (x := x :: r)).
      * symmetry. now apply insert_sorted_perm.
      * constructor; [| assumption].
        unfold not_after. now apply (sto_asym P lt order y x).
    + eexists. split; [reflexivity |]. constructor; [assumption |].
      constructor; [exact Hyx |].
      rewrite Forall_forall in *. intros z Hz.
      apply (not_after_trans x y z); auto.
    + now destruct (sto_defined P lt order y x Py Px).
Qed.

Lemma sorted_ok (l : list A) :
  Forall P l ->
  exists l', sorted lt l = Some l' /\ Permutation l' l /\ StronglySorted (not_after lt) l'.
Proof.
  induction l as [| x r IH]; intros HP; cbn.
  - eexists. repeat split; constructor.
  - inversion HP as [| ? ? Px HPr]; subst.
    destruct (IH HPr) as (r' & Hr' & Hperm & Hs). rewrite Hr'.
    destruct (insert_sorted_ok x r' Px) as (l' & Hl' & Hs'); [| assumption |].
    + apply (Permutation_Forall (x := r)); [now symmetry | assumption].
    + exists l'. repeat split; try assumption.
      apply sorted_perm. cbn. now rewrite Hr'.
Qed.

(** There is one ordered arrangement. *)
Lemma ordered_arrangement_unique (l1 l2 : list A) :
  Forall P l1 -> Permutation l1 l2 ->
  StronglySorted (not_after lt) l1 -> StronglySorted (not_after lt) l2 -> l1 = l2.
Proof.
  revert l2. induction l1 as [| a r1 IH]; intros l2 HP Hperm H1 H2.
  - apply Permutation_nil in Hperm. now subst.
  - destruct l2 as [| b r2].
    + symmetry in Hperm. apply Permutation_nil in Hperm. discriminate.
    + inversion HP as [| ? ? Pa HPr]; subst.
      inversion H1 as [| ? ? Hs1 Hall1]; subst.
      inversion H2 as [| ? ? Hs2 Hall2]; subst.
      assert (HP2 : Forall P (b :: r2)) by (eapply Permutation_Forall; eassumption).
      inversion HP2 as [| ? ? Pb HPr2]; subst.
      assert (Hab : a = b).
      { assert (Hin_b : In b (a :: r1))
          by (eapply Permutation_in; [symmetry; eassumption | now left]).
        assert (Hin_a : In a (b :: r2))
          by (eapply Permutation_in; [eassumption | now left]).
        destruct Hin_b as [-> | Hb]; [reflexivity |].
        destruct Hin_a as [-> | Ha]; [reflexivity |].
        rewrite Forall_forall in Hall1, Hall2.
        apply (sto_tri P lt order a b Pa Pb); [apply (Hall2 a Ha) | apply (Hall1 b Hb)]. }
      subst b. f_equal.
      apply IH; try assumption.
      eapply Permutation_cons_inv; eassumption.
Qed.

Lemma sorted_of_permutation (l1 l2 : list A) :
  Forall P l1 -> Permutation l1 l2 ->
  exists l, sorted lt l1 = Some l /\ sorted lt l2 = Some l
            /\ Permutation l l1 /\ StronglySorted (not_after lt) l.
Proof.
  intros HP Hperm.
  assert (HP2 : Forall P l2) by (eapply Permutation_Forall; eassumption).
  destruct (sorted_ok l1 HP) as (s1 & E1 & Q1 & S1).
  destruct (sorted_ok l2 HP2) as (s2 & E2 & Q2 & S2).
  assert (s1 = s2).
  { apply ordered_arrangement_unique; try assumption.
    - apply (Permutation_Forall (x := l1)); [now symmetry | assumption].
    - eapply perm_trans; [exact Q1 |]. eapply perm_trans; [exact Hperm | now symmetry]. }
  subst s2. exists s1. auto.
Qed.

End Total.
End SortedFacts.

(** Two comparisons that agree on distinct objects sort a list without
    repetition in the same way. *)
Lemma insert_sorted_ext {A : Type} (lt1 lt2 : A -> A -> option bool) (x : A) (l : list A) :
  (forall y, In y l -> lt1 y x = lt2 y x) ->
  insert_sorted lt1 x l = insert_sorted lt2 x l.
Proof.
  induction l as [| y r IH]; intros H; cbn; [reflexivity |].
  rewrite <- (H y (or_introl eq_refl)).
  rewrite IH; [reflexivity |]. intros z Hz. apply H. now right.
Qed.

Lemma sorted_ext {A : Type} (lt1 lt2 : A -> A -> option bool) (l : list A) :
  NoDup l ->
  (forall a b, In a l -> In b l -> a <> b -> lt1 a b = lt2 a b) ->
  sorted lt1 l = sorted lt2 l.
Proof.
  induction l as [| x r IH]; intros Hnd H; cbn; [reflexivity |].
  inversion Hnd as [| ? ? Hx Hr]; subst.
  rewrite <- IH; [| assumption | intros a b Ha Hb; apply H; now right].
  destruct (sorted lt1 r) as [r'|] eqn:E; [| reflexivity].
  apply insert_sorted_ext. intros y Hy.
  assert (Hyr : In y r) by (eapply Permutation_in; [eapply sorted_perm; eassumption | assumption]).
  apply H; [now right | now left |]. intros ->. contradiction.
Qed.

Lemma str_ltb_lt (a b : string) : str_ltb a b = true <-> String_as_OT.lt a b.
Proof.
  unfold str_ltb, String_as_OT.lt.
  destruct (String_as_OT.compare a b); split; congruence.
Qed.

Lemma str_ltb_asym (a b : string) : str_ltb a b = true -> str_ltb b a = false.
Proof.
  intros H. destruct (str_ltb b a) eqn:E; [| reflexivity].
  apply str_ltb_lt in H, E. destruct (StrictOrder_Irreflexive a).
  now transitivity b.
Qed.

Lemma str_ltb_trans (a b c : string) :
  str_ltb a b = true -> str_ltb b c = true -> str_ltb a c = true.
Proof.
  intros H1 H2. apply str_ltb_lt in H1, H2. apply str_ltb_lt. now transitivity b.
Qed.

Lemma str_ltb_tri (a b : string) : str_ltb a b = false -> str_ltb b a = false -> a = b.
Proof.
  intros H1 H2.
  destruct (String_as_OT.compare_spec a b) as [E | L | L]; [exact E | |];
    apply str_ltb_lt in L; congruence.
Qed.

Lemma in_keys (d : dict) (kv : string * pyval) : In kv d -> In (fst kv) (Dict.keys d).
Proof. intros H. unfold Dict.keys. now apply in_map. Qed.

Lemma nodup_keys_inj (d : dict) (a b : string * pyval) :
  NoDup (Dict.keys d) -> In a d -> In b d -> fst a = fst b -> a = b.
Proof.
  induction d as [| x r IH]; intros Hnd Ha Hb E; [destruct Ha |].
  cbn in Hnd. inversion Hnd as [| ? ? Hx Hr]; subst.
  destruct Ha as [-> | Ha], Hb as [-> | Hb]; auto.
  - destruct Hx. rewrite E. now apply in_keys.
  - destruct Hx. rewrite <- E. now apply in_keys.
Qed.

Lemma nodup_keys_nodup (d : dict) : NoDup (Dict.keys d) -> NoDup d.
Proof.
  induction d as [| x r IH]; intros H; constructor;
    cbn in H; inversion H as [| ? ? Hx Hr]; subst; auto.
  intros Hin. apply Hx. now apply in_keys.
Qed.

Lemma key_lt_order (d : dict) :
  NoDup (Dict.keys d) -> strict_total_on (fun kv => In kv d) key_lt.
Proof.
  intros Hnd. unfold key_lt. split.
  - intros a b _ _. discriminate.
  - intros a b _ _ H. injection H as H. f_equal. now apply str_ltb_asym.
  - intros a b c _ _ _ H1 H2. injection H1 as H1. injection H2 as H2.
    f_equal. now apply str_ltb_trans with (fst b).
  - intros a b Ha Hb H1 H2. injection H1 as H1. injection H2 as H2.
    apply (nodup_keys_inj d); auto. now apply str_ltb_tri.
Qed.

(** On a [dict], the comparison of items is decided by the keys. *)
Lemma sorted_items_by_key (env : environment) (d : dict) :
  NoDup (Dict.keys d) ->
  sorted (Connection.item_lt env) d = sorted key_lt d.
Proof.
  intros Hnd. apply sorted_ext; [now apply nodup_keys_nodup |].
  intros a b Ha Hb Hab. unfold Connection.item_lt, key_lt.
  destruct (String.eqb (fst a) (fst b)) eqn:E; [| reflexivity].
  apply String.eqb_eq in E. destruct Hab. now apply (nodup_keys_inj d).
Qed.

Lemma strictly_sorted_keys (l : dict) :
  NoDup (Dict.keys l) -> StronglySorted (not_after key_lt) l -> sorted_by_key l.
Proof.
  unfold sorted_by_key.
  induction l as [| a r IH]; intros Hnd Hs; [constructor |].
  cbn in Hnd. inversion Hnd as [| ? ? Ha Hr]; subst.
  inversion Hs as [| ? ? Hsr Hall]; subst.
  constructor; [now apply IH |].
  rewrite Forall_forall in *. intros b Hb.
  specialize (Hall b Hb). unfold not_after, key_lt in Hall. injection Hall as Hall.
  destruct (String_as_OT.compare_spec (fst a) (fst b)) as [E | L | L].
  - destruct Ha. rewrite E. now apply in_keys.
  - exact L.
  - apply str_ltb_lt in L. congruence.
Qed.

(** [_make_request] looks at [params] only through their reordering. *)
Lemma make_request_params_ext (env : environment) (self : Connection_obj)
  (p1 p2 : option pyval) :
  Connection.order_params env p1 = Connection.order_params env p2 ->
  forall fuel endpoint dat method h rate_limit_fail w,
    Connection._make_request env self fuel endpoint p1 dat method h rate_limit_fail w =
    Connection._make_request env self fuel endpoint p2 dat method h rate_limit_fail w.
Proof.
  intros H fuel endpoint dat method h rlf w.
  destruct fuel as [| fuel']; [reflexivity |].
  cbn [Connection._make_request].
  unfold Connection._make_request_, Connection.prepare_, bind, lift.
  now rewrite H.
Qed.

(** C8: the parameters of a request are put in order before the call.
    The items of a mapping are sorted by key, and two mappings with the
    same items, in whatever order they were inserted, give the same
    sequence; the elements of any other sequence are sorted by [<], and
    two sequences with the same elements, which [<] orders totally, give
    the same sequence.  In both cases the request engine then behaves in
    the same way, so the requests it sends are identical. *)
Theorem order_params_canonical
  (env : environment) (d1 d2 : dict) (l1 l2 : list pyval) :
  NoDup (Dict.keys d1) ->
  Permutation d1 d2 ->
  strict_total_on (fun x => In x l1) (py_lt env) ->
  Permutation l1 l2 ->
  (exists l,
      Connection.order_params env (Some (PDict d1))
        = Ok (Some (PList (map Connection.item_tuple l)))
      /\ Connection.order_params env (Some (PDict d2))
        = Ok (Some (PList (map Connection.item_tuple l)))
      /\ Permutation l d1 /\ sorted_by_key l)
  /\ (exists l,
      Connection.order_params env (Some (PList l1)) = Ok (Some (PList l))
      /\ Connection.order_params env (Some (PList l2)) = Ok (Some (PList l))
      /\ Permutation l l1 /\ StronglySorted (not_after (py_lt env)) l)
  /\ (forall self fuel endpoint dat method h rate_limit_fail w,
      Connection._make_request env self fuel endpoint (Some (PDict d1)) dat method h
        rate_limit_fail w
      = Connection._make_request env self fuel endpoint (Some (PDict d2)) dat method h
        rate_limit_fail w
      /\ Connection._make_request env self fuel endpoint (Some (PList l1)) dat method h
        rate_limit_fail w
      = Connection._make_request env self fuel endpoint (Some (PList l2)) dat method h
        rate_limit_fail w).
Proof.
  intros Hnd Hd Hord Hl.
  assert (Hnd2 : NoDup (Dict.keys d2)).
  { unfold Dict.keys. eapply Permutation_NoDup; [apply Permutation_map; exact Hd | exact Hnd]. }
  destruct (sorted_of_permutation key_lt _ (key_lt_order d1 Hnd) d1 d2)
    as (l & E1 & E2 & Hp & Hs); [now apply Forall_forall | assumption |].
  destruct (sorted_of_permutation (py_lt env) _ Hord l1 l2)
    as (l' & E1' & E2' & Hp' & Hs'); [now apply Forall_forall | assumption |].
  assert (D1 : Connection.order_params env (Some (PDict d1))
               = Ok (Some (PList (map Connection.item_tuple l)))).
  { cbn. now rewrite (sorted_items_by_key env d1 Hnd), E1. }
  assert (D2 : Connection.order_params env (Some (PDict d2))
               = Ok (Some (PList (map Connection.item_tuple l)))).
  { cbn. now rewrite (sorted_items_by_key env d2 Hnd2), E2. }
  assert (L1 : Connection.order_params env (Some (PList l1)) = Ok (Some (PList l'))).
  { cbn. now rewrite E1'. }
  assert (L2 : Connection.order_params env (Some (PList l2)) = Ok (Some (PList l'))).
  { cbn. now rewrite E2'. }
  split; [| split].
  - exists l. repeat split; try assumption.
    apply strictly_sorted_keys; [| assumption].
    unfold Dict.keys. eapply Permutation_NoDup; [| exact Hnd].
    apply Permutation_map. now symmetry.
  - exists l'. auto.
  - intros. split; apply make_request_params_ext; congruence.
Qed.

Lemma order_params_example :
  (exists l,
      Connection.order_params (example_env no_transport) (Some (PDict params_example_1))
        = Ok (Some (PList (map Connection.item_tuple l)))
      /\ Connection.order_params (example_env no_transport) (Some (PDict params_example_2))
        = Ok (Some (PList (map Connection.item_tuple l)))
      /\ Permutation l params_example_1 /\ sorted_by_key l)
  /\ (exists l,
      Connection.order_params (example_env no_transport)
        (Some (PList [PStr "size=10"; PStr "q=braf"])) = Ok (Some (PList l))
      /\ Connection.order_params (example_env no_transport)
        (Some (PList [PStr "q=braf"; PStr "size=10"])) = Ok (Some (PList l))
      /\ Permutation l [PStr "size=10"; PStr "q=braf"]
      /\ StronglySorted (not_after (py_lt (example_env no_transport))) l)
  /\ (forall self fuel endpoint dat method h rate_limit_fail w,
      Connection._make_request (example_env no_transport) self fuel endpoint
        (Some (PDict params_example_1)) dat method h rate_limit_fail w
      = Connection._make_request (example_env no_transport) self fuel endpoint
        (Some (PDict params_example_2)) dat method h rate_limit_fail w
      /\ Connection._make_request (example_env no_transport) self fuel endpoint
        (Some (PList [PStr "size=10"; PStr "q=braf"])) dat method h rate_limit_fail w
      = Connection._make_request (example_env no_transport) self fuel endpoint
        (Some (PList [PStr "q=braf"; PStr "size=10"])) dat method h rate_limit_fail w).
Proof.
  apply (order_params_canonical (example_env no_transport)
           params_example_1 params_example_2
           [PStr "size=10"; PStr "q=braf"] [PStr "q=braf"; PStr "size=10"]).
  - cbn. repeat constructor; cbn; intuition discriminate.
  - unfold params_example_1, params_example_2.
    apply (Permutation_cons_app [("q", PStr "braf"); ("from", PInt 0)] []).
    apply Permutation_refl.
  - split.
    + intros a b [<- | [<- | []]] [<- | [<- | []]]; discriminate.
    + intros a b [<- | [<- | []]] [<- | [<- | []]]; cbn; congruence.
    + intros a b c [<- | [<- | []]] [<- | [<- | []]] [<- | [<- | []]]; cbn; congruence.
    + intros a b [<- | [<- | []]] [<- | [<- | []]]; cbn; congruence.
  - apply perm_swap.
Defined.

(** Two arrangements of the same two parameters, one value given as the
    integer 1 and the other as the float 1.0, are each left as they are,
    since neither pair is below the other; and two pairs whose values
    cannot be compared are not put in order at all. *)
Lemma order_of_equal_items_follows_input :
  Connection.order_params comparing_env (Some (PList [size_int; size_float]))
  = Ok (Some (PList [size_int; size_float]))
  /\ Connection.order_params comparing_env (Some (PList [size_float; size_int]))
     = Ok (Some (PList [size_float; size_int]))
  /\ py_eq comparing_env size_int size_float = true
  /\ Connection.order_params comparing_env
       (Some (PList [PTuple [PStr "a"; PInt 1]; PTuple [PStr "a"; PStr "x"]]))
     = Raise TypeError.
Proof.
  repeat split.
Qed.

(** ** The validator *)

Lemma validate_parameter_pure (conn : Connection_obj) (endpoint name : string)
  (value : pyval) (method : string) (w : world) :
  snd (Connection.validate_parameter conn endpoint name value method w) = w.
Proof.
  unfold Connection.validate_parameter, bind, lift, ret, raise.
  destruct (assoc endpoint (endpoint_validation_data conn)) as [by_method |]; [| reflexivity].
  destruct (assoc method by_method) as [endpoint_data |]; [| reflexivity].
  destruct (assoc name endpoint_data) as [declared |]; [| reflexivity].
  repeat match goal with |- context [if ?b then _ else _] => destruct b end; reflexivity.
Qed.

(** C5, as the code has it: when the schema index has an entry for the
    endpoint and the method, [validate_parameter] returns silently exactly
    when the index declares a type for the parameter and the runtime type
    of the value matches it, and in every other case raises the
    invalid-parameter error that names the parameter, the value and the
    endpoint; it touches neither the network nor anything else. *)
Theorem validate_parameter_indexed
  (conn : Connection_obj) (endpoint name : string) (value : pyval) (method : string)
  (w : world) (by_method : list (string * list (string * string)))
  (endpoint_data : list (string * string)) :
  assoc endpoint (endpoint_validation_data conn) = Some by_method ->
  assoc method by_method = Some endpoint_data ->
  validate_parameter_contract conn endpoint name value method w.
Proof.
  intros He Hm. unfold validate_parameter_contract.
  split; [apply validate_parameter_pure |].
  assert (Hacc : accepted conn endpoint method name value <->
                 exists declared, assoc name endpoint_data = Some declared
                                  /\ type_matches declared value = true).
  { unfold accepted, declared_type. now rewrite He, Hm. }
  rewrite Hacc.
  assert (Hres : fst (Connection.validate_parameter conn endpoint name value method w) =
                 match assoc name endpoint_data with
                 | Some declared =>
                     if type_matches declared value then Ok tt
                     else Raise (AttributeError (NotValidParameter name value endpoint))
                 | None => Raise (AttributeError (NotValidParameter name value endpoint))
                 end).
  { unfold Connection.validate_parameter, bind, lift, ret, raise. rewrite He, Hm.
    destruct (assoc name endpoint_data) as [declared |]; [| reflexivity].
    unfold type_matches.
    destruct (String.eqb declared "string" && isinstance_str value);
      destruct (String.eqb declared "boolean" && isinstance_bool value);
      destruct (String.eqb declared "number"
                && (isinstance_int value || isinstance_float value));
      reflexivity. }
  rewrite Hres.
  destruct (assoc name endpoint_data) as [declared |] eqn:Hd.
  - destruct (type_matches declared value) eqn:Ht.
    + split; [split; [intros _; now exists declared | reflexivity] |].
      intros H. destruct H. now exists declared.
    + split; [| reflexivity].
      split; [discriminate |].
      intros (declared' & Hd' & Hm'). injection Hd' as <-. congruence.
  - split; [| reflexivity].
    split; [discriminate | intros (declared' & Hd' & _); discriminate].
Qed.

Lemma validate_parameter_indexed_example :
  validate_parameter_contract connection_example "/public/search" "direct"
    (PStr "yes") "get" empty_world.
Proof.
  apply (validate_parameter_indexed connection_example "/public/search" "direct"
           (PStr "yes") "get" empty_world
           [("get", [("q", "string"); ("size", "number"); ("direct", "boolean")])]
           [("q", "string"); ("size", "number"); ("direct", "boolean")]).
  - reflexivity.
  - reflexivity.
Defined.

(** The statistics endpoint is in the schema index with no parameters for
    any method: the parameter [q] is not declared for it, and
    [validate_parameter] raises [KeyError] for the method, which is not
    the invalid-parameter error. *)
Lemma validate_parameter_unindexed_method :
  ~ validate_parameter_contract connection_example "/public/utils/stats" "q"
      (PStr "braf") "get" empty_world.
Proof.
  intros (_ & _ & H).
  assert (Hna : ~ accepted connection_example "/public/utils/stats" "get" "q" (PStr "braf")).
  { intros (declared & Hd & _). discriminate. }
  specialize (H Hna). discriminate.
Qed.

(** ** The request engine *)

(** A property of the outcome of [m] followed by [f], from one of the
    value that [m] returns. *)
Lemma bind_outcome {A B : Type} (Q : outcome B -> Prop) (R : A -> Prop)
  (m : M A) (f : A -> M B) (w : world) :
  match fst (m w) with
  | Ok a => R a
  | Raise e => Q (Raise e)
  | OutOfFuel => Q OutOfFuel
  end ->
  (forall a w', R a -> Q (fst (f a w'))) ->
  Q (fst (bind m f w)).
Proof.
  unfold bind. destruct (m w) as [[a | e |] w']; cbn [fst]; auto.
Qed.

Section Engine.
Variable env : environment.
Variable self : Connection_obj.

Lemma retry_loop_exit (n : nat) (do_call : M raw_response) (update_token : M unit)
  (w w' : world) (r : raw_response) :
  do_call w = (Ok r, w') ->
  status_code r <> 429 -> status_code r <> 419 ->
  Connection.retry_loop env (S n) do_call update_token w = (Ok r, w').
Proof.
  intros Hc H1 H2. cbn [Connection.retry_loop]. unfold bind at 1. rewrite Hc.
  apply Z.eqb_neq in H1, H2. now rewrite H1, H2.
Qed.

Lemma retry_loop_turn (n : nat) (do_call : M raw_response) (update_token : M unit)
  (w w' : world) :
  retry_turn env do_call update_token w w' ->
  Connection.retry_loop env (S n) do_call update_token w =
  Connection.retry_loop env n do_call update_token w'.
Proof.
  intros [w0 w1 r ra Hc Hs Hra Hsl | w0 w1 w2 r Hc Hs Hu];
    cbn [Connection.retry_loop]; unfold bind at 1; rewrite Hc, Hs.
  - cbn [Z.eqb Pos.eqb]. unfold bind, lift, Connection.time_sleep.
    rewrite Hra. cbn. rewrite Hsl. reflexivity.
  - cbn [Z.eqb Pos.eqb]. unfold bind. rewrite Hu. reflexivity.
Qed.

Lemma retry_loop_turns (k : nat) (do_call : M raw_response) (update_token : M unit)
  (w w' : world) :
  retry_turns env do_call update_token k w w' ->
  forall n,
    Connection.retry_loop env (k + n) do_call update_token w =
    Connection.retry_loop env n do_call update_token w'.
Proof.
  induction 1 as [w | k w w1 w2 Hturn _ IH]; intros n; [reflexivity |].
  cbn [Nat.add]. rewrite (retry_loop_turn _ _ _ _ _ Hturn). apply IH.
Qed.

Lemma call_quiet (method url : string) (params dat : option pyval) (h : headers_arg)
  (w : world) :
  quiet (fst (Connection.call env method url params dat h w)).
Proof.
  unfold Connection.call. destruct (transport env _ _); exact I.
Qed.

Lemma retry_loop_not_surfaced (do_call : M raw_response) (update_token : M unit) :
  (forall w, quiet (fst (do_call w))) ->
  (forall w, quiet (fst (update_token w))) ->
  forall n w, not_surfaced (fst (Connection.retry_loop env n do_call update_token w)).
Proof.
  intros Hc Hu. induction n as [| n IH]; intros w; [exact I |].
  cbn [Connection.retry_loop].
  apply (bind_outcome not_surfaced (fun _ => True)).
  { specialize (Hc w). destruct (fst (do_call w)); auto. }
  intros r w1 _.
  destruct (status_code r =? 429) eqn:E1; [| destruct (status_code r =? 419) eqn:E2].
  - apply (bind_outcome not_surfaced (fun _ => True)).
    { unfold lift. cbn [fst]. unfold Connection.retry_after_of.
      destruct (header_mem _ _); [| exact I].
      unfold header_item. destruct (header_get _ _) as [s |]; [| exact I].
      destruct (float_of_str env s); exact I. }
    intros ra w2 _.
    apply (bind_outcome not_surfaced (fun _ => True)); [exact I |].
    intros _ w3 _.
    apply (bind_outcome not_surfaced (fun _ => True)).
    { unfold Connection.time_sleep. destruct (time_sleep_ok env ra); exact I. }
    intros _ w4 _. apply IH.
  - apply (bind_outcome not_surfaced (fun _ => True)).
    { specialize (Hu w1). destruct (fst (update_token w1)); auto. }
    intros _ w2 _. apply IH.
  - cbn. split; [now apply Z.eqb_neq | now apply Z.eqb_neq].
Qed.

End Engine.

Section EngineQuiet.
Variable env : environment.
Variable self : Connection_obj.

Lemma raise_for_status_not_surfaced (r : raw_response) :
  status_code r <> 429 /\ status_code r <> 419 ->
  quiet (Connection.raise_for_status r).
Proof.
  intros H. unfold Connection.raise_for_status.
  destruct ((400 <=? status_code r) && (status_code r <? 600)); [exact H | exact I].
Qed.

Lemma get_token_quiet (f : request_fn) (expire : Z) (w : world) :
  retrying f -> quiet (fst (Connection.get_token_ self f expire w)).
Proof.
  intros Hf. unfold Connection.get_token_, Connection._make_token_request_.
  apply (bind_outcome quiet (fun _ => True)).
  { specialize (Hf "/public/auth/request_token" None
                  (Some (PDict [("app_name", auth_app_name self);
                                ("secret", auth_secret self);
                                ("expiry", PInt expire)]))
                  "GET" DefaultHeaders w).
    destruct (fst (f _ _ _ _ _ _ w)); auto. }
  intros r w1 _.
  apply (bind_outcome quiet (fun _ => True)).
  { unfold lift. cbn [fst]. destruct (resp_json r); exact I. }
  intros body w2 _. unfold lift. cbn [fst].
  destruct body; cbn; try exact I. destruct (Dict.get "token" d); exact I.
Qed.

Lemma update_token_quiet (f : request_fn) (w : world) :
  retrying f -> quiet (fst (Connection._update_token_ self f w)).
Proof.
  intros Hf. unfold Connection._update_token_.
  apply (bind_outcome quiet (fun _ => True)); [exact I |].
  intros t w1 _.
  apply (bind_outcome quiet (fun _ => True)).
  - destruct (truthy t); [| exact I].
    apply (bind_outcome quiet (fun r => status_code r <> 429 /\ status_code r <> 419)).
    { specialize (Hf "/public/auth/validate_token" None None "GET"
                    (GivenHeaders [("Auth-Token", t)]) w1).
      destruct (fst (f _ _ _ _ _ _ w1)); auto. }
    intros r w2 Hr.
    destruct (status_code r =? 200); [exact I |].
    destruct (status_code r =? 419); [exact I |].
    apply (bind_outcome quiet (fun _ => True)); [| intros; exact I].
    unfold lift. cbn [fst].
    pose proof (raise_for_status_not_surfaced r Hr) as Hq.
    destruct (Connection.raise_for_status r); auto.
  - intros [|] w2 _; [| exact I].
    apply (bind_outcome quiet (fun _ => True)); [| intros; exact I].
    pose proof (get_token_quiet f (10 * 60) w2 Hf) as Hq.
    destruct (fst (Connection.get_token_ self f (10 * 60) w2)); auto.
Qed.

Lemma order_params_quiet (params : option pyval) :
  quiet (Connection.order_params env params).
Proof.
  destruct params as [[| | | | s | l | l | d] |]; cbn; try exact I.
  - destruct (sorted (py_lt env) (Connection.chars s)); exact I.
  - destruct (sorted (py_lt env) l); exact I.
  - destruct (sorted (py_lt env) l); exact I.
  - destruct (sorted (Connection.item_lt env) d); exact I.
Qed.

Lemma prepare_quiet (f : request_fn) (endpoint : string) (params : option pyval)
  (h : headers_arg) (w : world) :
  retrying f -> quiet (fst (Connection.prepare_ env self f endpoint params h w)).
Proof.
  intros Hf. unfold Connection.prepare_.
  apply (bind_outcome quiet (fun _ => True)).
  { unfold lift. cbn [fst]. pose proof (order_params_quiet params) as Hq.
    destruct (Connection.order_params env params); auto. }
  intros params' w1 _.
  apply (bind_outcome quiet (fun _ => True)); [| intros; exact I].
  destruct (Connection.use_auth self && negb (str_contains "request_token" endpoint));
    [| exact I].
  apply (bind_outcome quiet (fun _ => True)); [exact I |].
  intros t w2 _.
  apply (bind_outcome quiet (fun _ => True)).
  { destruct (is_None t); [| exact I].
    pose proof (update_token_quiet f w2 Hf) as Hq.
    destruct (fst (Connection._update_token_ self f w2)); auto. }
  intros _ w3 _.
  apply (bind_outcome quiet (fun _ => True)); [exact I |].
  intros t' w4 _.
  destruct (negb (is_None t')); [| exact I].
  unfold Connection.attach_token. destruct h; exact I.
Qed.

Lemma make_request_retrying (fuel : nat) :
  retrying (Connection._make_request env self fuel).
Proof.
  induction fuel as [| fuel IH]; intros endpoint params dat method h w; [exact I |].
  cbn [Connection._make_request]. unfold Connection._make_request_.
  apply (bind_outcome not_surfaced (fun _ => True)).
  { pose proof (prepare_quiet (Connection._make_request env self fuel)
                  endpoint params h w IH) as Hq.
    destruct (fst (Connection.prepare_ env self _ endpoint params h w)); auto. }
  intros ph w1 _. cbn [negb].
  apply (bind_outcome not_surfaced
           (fun r => status_code r <> 429 /\ status_code r <> 419)).
  { pose proof (retry_loop_not_surfaced env
                  (Connection.call env method (Connection._build_url self endpoint)
                     (fst ph) dat (snd ph))
                  (Connection._update_token_ self (Connection._make_request env self fuel))
                  (call_quiet env _ _ _ _ _)
                  (fun w' => update_token_quiet _ w' IH) fuel w1) as Hq.
    destruct (fst (Connection.retry_loop env fuel _ _ w1)); auto. }
  intros r w2 Hr.
  apply (bind_outcome not_surfaced (fun _ => True)).
  { unfold lift. cbn [fst].
    pose proof (raise_for_status_not_surfaced r Hr) as Hq.
    destruct (Connection.raise_for_status r); auto. }
  intros _ w3 _. exact Hr.
Qed.

End EngineQuiet.

(** C3: with retry enabled, after any number [k] of answers that were 429
    (each followed by a sleep of [Retry-After] seconds, or of one second
    without that header) or 419 (each followed by [_update_token]), the
    engine calls again; the first answer with another status ends the loop
    and is handed to [raise_for_status].  Whatever [_make_request] returns
    or raises in this mode, it is never a 429 or a 419. *)
Theorem retries_while_429_or_419
  (env : environment) (self : Connection_obj) (fuel k : nat)
  (endpoint : string) (params dat : option pyval) (method : string) (h : headers_arg)
  (params' : option pyval) (h' : headers_arg) (w0 w w' w'' : world) (r : raw_response) :
  (k < fuel)%nat ->
  Connection.prepare env self fuel endpoint params h w0 = (Ok (params', h'), w) ->
  retry_turns env
    (Connection.call env method (Connection._build_url self endpoint) params' dat h')
    (Connection._update_token env self fuel) k w w' ->
  Connection.call env method (Connection._build_url self endpoint) params' dat h' w'
    = (Ok r, w'') ->
  status_code r <> 429 ->
  status_code r <> 419 ->
  Connection._make_request env self (S fuel) endpoint params dat method h false w0
    = (after_loop r, w'')
  /\ (forall r0, header_mem (KStr "Retry-After") (resp_headers r0) = false ->
        Connection.retry_after_of env r0 = Ok (PInt 1))
  /\ (forall r0 s f, header_get (KStr "Retry-After") (resp_headers r0) = Some s ->
        float_of_str env s = Some f ->
        Connection.retry_after_of env r0 = Ok (PFloat f))
  /\ (forall fuel0 endpoint0 params0 dat0 method0 h0 w1,
        not_surfaced
          (fst (Connection._make_request env self fuel0 endpoint0 params0 dat0 method0 h0
                  false w1))).
Proof.
  intros Hk Hprep Hturns Hcall H429 H419.
  split; [| split; [| split]].
  - assert (Hloop : forall n, (k < n)%nat ->
              Connection.retry_loop env n
                (Connection.call env method (Connection._build_url self endpoint)
                   params' dat h')
                (Connection._update_token env self fuel) w = (Ok r, w'')).
    { intros n Hn. replace n with (k + S (n - S k))%nat by lia.
      rewrite (retry_loop_turns env k _ _ w w' Hturns).
      now apply retry_loop_exit. }
    cbn [Connection._make_request]. unfold Connection._make_request_.
    unfold bind at 1. unfold Connection.prepare in Hprep. rewrite Hprep.
    cbn [negb fst snd]. unfold bind at 1.
    unfold Connection._update_token in Hloop. rewrite (Hloop fuel Hk).
    unfold after_loop, bind, lift, ret.
    destruct (Connection.raise_for_status r); reflexivity.
  - intros r0 Hm. unfold Connection.retry_after_of. now rewrite Hm.
  - intros r0 s f Hg Hf. unfold Connection.retry_after_of, header_mem, header_item.
    now rewrite Hg, Hf.
  - intros. apply make_request_retrying.
Qed.

Lemma retries_example :
  exists r w'',
    Connection._make_request (example_env retry_transport_example) connection_example 4
      "/public/search" (Some (PDict [("q", PStr "braf")])) None "GET" DefaultHeaders
      false empty_world
    = (after_loop r, w'')
    /\ status_code r = 200 /\ calls w'' = 4%nat /\ token w'' = PStr "t1".
Proof.
  eexists. eexists. split.
  - refine (proj1 (retries_while_429_or_419 (example_env retry_transport_example)
                     connection_example 3 2 "/public/search"
                     (Some (PDict [("q", PStr "braf")])) None "GET" DefaultHeaders
                     _ _ empty_world _ _ _ _ _ _ _ _ _ _)).
    + lia.
    + vm_compute. reflexivity.
    + eapply turns_S.
      * eapply turn_429.
        -- vm_compute. reflexivity.
        -- reflexivity.
        -- vm_compute. reflexivity.
        -- reflexivity.
      * eapply turns_S; [| apply turns_O].
        eapply turn_419.
        -- vm_compute. reflexivity.
        -- reflexivity.
        -- vm_compute. reflexivity.
    + vm_compute. reflexivity.
    + cbn. discriminate.
    + cbn. discriminate.
  - cbn. repeat split.
Defined.

(** On a 429 whose [Retry-After] is a date, the engine neither sleeps nor
    retries: [float] rejects the value and the request ends in
    [ValueError] after its first and only attempt. *)
Lemma retry_ends_on_unreadable_retry_after :
  Connection._make_request (example_env retry_date_transport_example) connection_example 5
    "/public/search" None None "GET" DefaultHeaders false empty_world
  = (Raise ValueError,
     {| token := PNone; default_headers := []; calls := 1;
        trace := [EvRequest
                    {| req_method := "GET";
                       req_url := "https://www.targetvalidation.org:443/api/latest/public/search";
                       req_params := None; req_data := None; req_headers := [] |}] |})
  /\ status_code retry_date = 429
  /\ header_get (KStr "Retry-After") (resp_headers retry_date)
     = Some "Wed, 21 Oct 2015 07:28:00 GMT".
Proof.
  repeat split.
Qed.

(** With [rate_limit_fail] set, the engine calls once and hands the answer
    to [raise_for_status]. *)
Lemma single_attempt_when_rate_limit_fail
  (env : environment) (self : Connection_obj) (fuel : nat)
  (endpoint : string) (params dat : option pyval) (method : string) (h : headers_arg)
  (params' : option pyval) (h' : headers_arg) (w0 w : world) :
  Connection.prepare env self fuel endpoint params h w0 = (Ok (params', h'), w) ->
  Connection._make_request env self (S fuel) endpoint params dat method h true w0 =
    match Connection.call env method (Connection._build_url self endpoint) params' dat h' w with
    | (Ok r, w') => (after_loop r, w')
    | (Raise e, w') => (Raise e, w')
    | (OutOfFuel, w') => (OutOfFuel, w')
    end.
Proof.
  intros Hprep. cbn [Connection._make_request]. unfold Connection._make_request_.
  unfold bind at 1. unfold Connection.prepare in Hprep. rewrite Hprep.
  cbn [negb fst snd]. unfold bind at 1.
  destruct (Connection.call env method _ params' dat h' w) as [[r | e |] w']; try reflexivity.
  unfold after_loop, bind, lift, ret.
  destruct (Connection.raise_for_status r); reflexivity.
Qed.

(** The head of a request that carries its own headers, with
    authentication on and a token at hand. *)
Lemma prepare_with_token (env : environment) (self : Connection_obj) (f : request_fn)
  (endpoint : string) (d : dict) (w : world) :
  Connection.use_auth self = true ->
  str_contains "request_token" endpoint = false ->
  is_None (token w) = false ->
  Connection.prepare_ env self f endpoint None (GivenHeaders d) w
  = (Ok (None, GivenHeaders (Dict.set "Auth-Token" (token w) d)), w).
Proof.
  intros Ha Hc Hn.
  unfold Connection.prepare_, bind, lift, get_token_attr, ret.
  cbn [Connection.order_params]. rewrite Ha, Hc. cbn [negb andb].
  rewrite Hn. cbn [negb]. rewrite Hn. reflexivity.
Qed.

(** ** Token operations under the retry loop *)

Section ExpiredToken.
Let env := example_env expired_transport.
Let self := auth_connection_example.

Lemma expired_call (method url : string) (params dat : option pyval) (h : headers_arg)
  (w : world) :
  exists w', Connection.call env method url params dat h w = (Ok token_expired, w')
             /\ token w' = token w.
Proof. eexists. split; reflexivity. Qed.

Lemma expired_loop_runs_out (method url : string) (params dat : option pyval)
  (h : headers_arg) (update_token : M unit) :
  (forall w, truthy (token w) = true -> fst (update_token w) = OutOfFuel) ->
  forall n w, truthy (token w) = true ->
    fst (Connection.retry_loop env n (Connection.call env method url params dat h)
           update_token w) = OutOfFuel.
Proof.
  intros Hu. induction n as [| n IH]; intros w Ht; [reflexivity |].
  cbn [Connection.retry_loop]. unfold bind at 1.
  destruct (expired_call method url params dat h w) as (w' & -> & Htok).
  cbn [status_code token_expired Z.eqb Pos.eqb]. unfold bind.
  rewrite <- Htok in Ht. specialize (Hu w' Ht).
  destruct (update_token w') as [[[] | e |] w2]; cbn [fst] in Hu; try discriminate.
  reflexivity.
Qed.

Lemma validate_token_runs_out (fuel : nat) :
  forall w, truthy (token w) = true ->
    fst (Connection._update_token env self fuel w) = OutOfFuel.
Proof.
  induction fuel as [| fuel IH]; intros w Ht.
  - unfold Connection._update_token, Connection._update_token_, bind, get_token_attr.
    rewrite Ht. reflexivity.
  - unfold Connection._update_token, Connection._update_token_, bind at 1 2, get_token_attr.
    rewrite Ht. unfold bind at 1.
    assert (Hreq : fst (Connection._make_request env self (S fuel)
                          "/public/auth/validate_token" None None "GET"
                          (GivenHeaders [("Auth-Token", token w)]) false w) = OutOfFuel).
    { cbn [Connection._make_request]. unfold Connection._make_request_.
      unfold bind at 1.
      assert (Hprep : Connection.prepare_ env self (Connection._make_request env self fuel)
                        "/public/auth/validate_token" None
                        (GivenHeaders [("Auth-Token", token w)]) w
                      = (Ok (None, GivenHeaders [("Auth-Token", token w)]), w)).
      { rewrite (prepare_with_token env self); try reflexivity.
        destruct (token w); try reflexivity; discriminate. }
      rewrite Hprep. cbn [negb fst snd]. unfold bind at 1.
      pose proof (expired_loop_runs_out "GET"
                    (Connection._build_url self "/public/auth/validate_token")
                    None None (GivenHeaders [("Auth-Token", token w)])
                    (Connection._update_token_ self (Connection._make_request env self fuel))
                    IH fuel w Ht) as Hloop.
      destruct (Connection.retry_loop env fuel _ _ w) as [[r | e |] w'];
        cbn [fst] in Hloop; try discriminate. reflexivity. }
    destruct (Connection._make_request env self (S fuel) _ _ _ _ _ _ w) as [[r | e |] w'];
      cbn [fst] in Hreq; try discriminate. reflexivity.
Qed.

End ExpiredToken.

(** C6: the validation of the token is sent with retry enabled.  On a
    session that answers 419, [_update_token] with a cached token never
    returns: the validation request gets 419, the retry loop calls
    [_update_token], which validates again, and so on for any amount of
    fuel, each level of the recursion sending one more validation
    request. *)
Theorem update_token_recursive_retry :
  (forall fuel,
      fst (Connection._update_token (example_env expired_transport)
             auth_connection_example fuel world_with_token) = OutOfFuel)
  /\ calls (snd (Connection._update_token (example_env expired_transport)
                   auth_connection_example 3 world_with_token)) = 2%nat
  /\ calls (snd (Connection._update_token (example_env expired_transport)
                   auth_connection_example 7 world_with_token)) = 6%nat.
Proof.
  split; [| split].
  - intros fuel. now apply validate_token_runs_out.
  - vm_compute. reflexivity.
  - vm_compute. reflexivity.
Qed.

(** ** The cursor: counters *)

Section Counters.
Variable env : environment.
Variable conn : Connection_obj.
Import IterableResult.

Ltac break_match :=
  match goal with
  | |- context [match ?x with _ => _ end] =>
      lazymatch x with
      | context [match _ with _ => _ end] => fail
      | _ => destruct x eqn:?
      end
  end.

(** [_make_call] assigns no attribute. *)
Lemma make_call_cursor (fuel : nat) (c : obj) (w : world) :
  cursor_of (_make_call env conn fuel c w) = c.
Proof.
  unfold cursor_of, _make_call, bindC, attr, liftO, liftM.
  repeat break_match; reflexivity.
Qed.

Lemma make_call_eq (fuel : nat) (c : obj) (w : world) :
  exists o w', _make_call env conn fuel c w = (o, c, w').
Proof.
  pose proof (make_call_cursor fuel c w) as H. unfold cursor_of in H.
  destruct (_make_call env conn fuel c w) as [[o c'] w']. cbn in H. subst c'.
  now exists o, w'.
Qed.

Ltac step :=
  match goal with
  | |- context [match _make_call env conn ?f ?c ?w with _ => _ end] =>
      let o := fresh "o" in
      let w' := fresh "w" in
      destruct (make_call_eq f c w) as (o & w' & ->)
  | _ => break_match
  end.

Ltac run_cursor :=
  unfold bindC, attr, liftO, liftM, retC, raiseC, return_self,
    set_args, set_kwargs, set_info, set_data, set_current, set_total,
    assign_args, assign_kwargs, assign_info, assign_data, assign_current, assign_total;
  repeat (cbn [fst snd]; step); cbn [fst snd].

(** A step of the iteration leaves the counters alone unless it returns a
    record, which it does only below the total, adding one to the count. *)
Lemma next_counts (fuel : nat) (c : obj) (w : world) :
  match result_of (__next__ env conn fuel c w) with
  | Ok _ =>
      exists cur tot,
        counts c = (Some cur, Some tot) /\ cur < tot
        /\ counts (cursor_of (__next__ env conn fuel c w)) = (Some (cur + 1), Some tot)
  | _ => counts (cursor_of (__next__ env conn fuel c w)) = counts c
  end.
Proof.
  unfold __next__, result_of, cursor_of, counts. run_cursor; cbn; try congruence.
  all: match goal with H : (_ <? _) = true |- _ => apply Z.ltb_lt in H end.
  all: eexists; eexists; split; [reflexivity | split; [eassumption | congruence]].
Qed.

(** An activation leaves the counters alone or sets the count to zero;
    when it returns, the count is zero and the total is the one computed
    from the first page. *)
Lemma call_counts (fuel : nat) (args : list pyval) (kwargs : dict) (c : obj) (w : world) :
  let r := __call__ env conn fuel args kwargs c w in
  (counts (cursor_of r) = counts c \/ current (cursor_of r) = Some 0)
  /\ (forall c', result_of r = Ok c' ->
        c' = cursor_of r /\ current c' = Some 0
        /\ exists response t,
             info c' = Some (Response.info response)
             /\ _data c' = Some (Response.data response)
             /\ total_of env (Response.info response) (Response.data response) = Ok t
             /\ total c' = Some t).
Proof.
  unfold __call__, result_of, cursor_of, counts. run_cursor; cbn.
  all: split; [first [right; reflexivity | left; congruence] |].
  all: intros c' H; try discriminate.
  injection H as <-. cbn in *. split; [reflexivity |]. split; [reflexivity |].
  repeat match goal with H : Some _ = Some _ |- _ => injection H as H; subst end.
  match goal with
  | H : total_of env (Response.info ?r) (Response.data ?r) = Ok ?t |- _ =>
      exists r, t; repeat split; exact H
  end.
Qed.

(** An activation that returns has stored its arguments. *)
Lemma call_query (fuel : nat) (args : list pyval) (kwargs : dict) (c : obj) (w : world)
  (c' : obj) :
  result_of (__call__ env conn fuel args kwargs c w) = Ok c' ->
  method c' = method c /\ _args c' = Some args /\ _kwargs c' = Some kwargs.
Proof.
  unfold __call__, result_of. run_cursor; cbn; intros H; try discriminate.
  injection H as <-. repeat split.
Qed.

Lemma filter_one_counts (kv : string * pyval) (c : obj) (w : world) :
  counts (cursor_of (filter_one conn kv c w)) = counts c.
Proof.
  unfold filter_one, _validate_filter, cursor_of, counts. run_cursor; reflexivity.
Qed.

Lemma filter_each_counts (kwargs : dict) (c : obj) (w : world) :
  counts (cursor_of (filter_each conn kwargs c w)) = counts c.
Proof.
  revert c w. induction kwargs as [| kv rest IH]; intros c w; [reflexivity |].
  cbn [filter_each]. unfold bindC.
  pose proof (filter_one_counts kv c w) as H1. unfold cursor_of in *.
  destruct (filter_one conn kv c w) as [[[[] | e |] c1] w1]; cbn [fst snd] in *;
    try exact H1.
  rewrite <- H1. apply IH.
Qed.

(** [filter] with no filter changes nothing; with some, it leaves the
    counters alone or sets the count to zero, and sets it to zero when it
    returns. *)
Lemma filter_counts (fuel : nat) (kwargs : dict) (c : obj) (w : world) :
  let r := filter env conn fuel kwargs c w in
  (counts (cursor_of r) = counts c \/ current (cursor_of r) = Some 0)
  /\ (forall c', result_of r = Ok c' ->
        c' = cursor_of r /\ (kwargs <> [] -> current c' = Some 0)).
Proof.
  assert (Hfail : forall (o : outcome obj) c1 w1,
             (forall c', o <> Ok c') -> counts c1 = counts c ->
             (counts (cursor_of (o, c1, w1)) = counts c
              \/ current (cursor_of (o, c1, w1)) = Some 0)
             /\ (forall c', result_of (o, c1, w1) = Ok c' ->
                   c' = cursor_of (o, c1, w1) /\ (kwargs <> [] -> current c' = Some 0))).
  { intros o c1 w1 Ho Hc. split; [now left |]. intros c' H. now destruct (Ho c'). }
  cbv zeta. remember (filter env conn fuel kwargs c w) as r eqn:Hr.
  unfold filter in Hr. destruct kwargs as [| kv rest].
  - cbn in Hr. subst r. cbn. split; [now left |].
    intros c' H. injection H as <-. split; [reflexivity |].
    intros H. now destruct H.
  - cbn [truthy] in Hr. unfold bindC at 1 2 in Hr.
    pose proof (filter_each_counts (kv :: rest) c w) as H1. unfold cursor_of in H1.
    destruct (filter_each conn (kv :: rest) c w) as [[[[] | e |] c1] w1];
      cbn [fst snd] in H1;
      try (subst r; apply Hfail; [discriminate | exact H1]).
    unfold bindC, attr in Hr.
    destruct (_args c1) as [args |];
      [| subst r; apply Hfail; [discriminate | exact H1]].
    destruct (_kwargs c1) as [kw |];
      [| subst r; apply Hfail; [discriminate | exact H1]].
    pose proof (call_counts fuel args kw c1 w1) as [H2 H3].
    unfold cursor_of, result_of in *.
    destruct (__call__ env conn fuel args kw c1 w1) as [[[c2 | e |] c3] w3];
      cbn [fst snd] in *; cbn in Hr; subst r; cbn.
    + destruct (H3 c2 eq_refl) as (-> & Hz & _).
      split; [now right |]. intros c' H. injection H as <-. auto.
    + split; [| discriminate]. destruct H2 as [H2 | H2]; [left; congruence | now right].
    + split; [| discriminate]. destruct H2 as [H2 | H2]; [left; congruence | now right].
Qed.

Lemma within_total_counts (c c' : obj) :
  counts c' = counts c -> within_total c -> within_total c'.
Proof.
  unfold counts, within_total. intros H. injection H as -> ->. auto.
Qed.

Lemma within_total_zero (c : obj) : current c = Some 0 -> within_total c.
Proof.
  unfold within_total. intros ->. destruct (total c); lia.
Qed.

Lemma next_within (fuel : nat) (c : obj) (w : world) :
  within_total c -> within_total (cursor_of (__next__ env conn fuel c w)).
Proof.
  intros H. pose proof (next_counts fuel c w) as Hn.
  destruct (result_of (__next__ env conn fuel c w)).
  - destruct Hn as (cur & tot & Hc & Hlt & Hc').
    unfold counts in Hc, Hc'. injection Hc as Hcur Htot. injection Hc' as Hcur' Htot'.
    unfold within_total in *. rewrite Hcur, Htot in H. rewrite Hcur', Htot'. lia.
  - now apply (within_total_counts c).
  - now apply (within_total_counts c).
Qed.

Lemma islice_next_within (fuel skip : nat) (c : obj) (w : world) :
  within_total c -> within_total (cursor_of (islice_next env conn fuel skip c w)).
Proof.
  revert c w. induction skip as [| k IH]; intros c w H; cbn [islice_next];
    pose proof (next_within fuel c w H) as Hn; unfold cursor_of in *;
    destruct (__next__ env conn fuel c w) as [[[d | [] |] c1] w1]; cbn [fst snd] in *;
    try exact Hn.
  now apply IH.
Qed.

Lemma run_operation_within (fuel : nat) (op : operation) (c : obj) (w : world) :
  within_total c -> within_total (fst (run_operation env conn fuel op c w)).
Proof.
  intros H. destruct op as [args kwargs | kwargs | | x]; cbn [run_operation after fst].
  - destruct (call_counts fuel args kwargs c w) as [[Hc | Hc] _].
    + now apply (within_total_counts c).
    + now apply within_total_zero.
  - destruct (filter_counts fuel kwargs c w) as [[Hc | Hc] _].
    + now apply (within_total_counts c).
    + now apply within_total_zero.
  - now apply next_within.
  - unfold __getitem__. destruct ((x <? 0) || (sys_maxsize <? x)); [exact H |].
    now apply islice_next_within.
Qed.

Lemma run_operations_within (fuel : nat) (ops : list operation) (c : obj) (w : world) :
  within_total c -> within_total (fst (run_operations env conn fuel ops c w)).
Proof.
  revert c w. induction ops as [| op rest IH]; intros c w H; [exact H |].
  cbn [run_operations].
  pose proof (run_operation_within fuel op c w H) as H1.
  destruct (run_operation env conn fuel op c w) as [c1 w1]. now apply IH.
Qed.

End Counters.

(** C2, as the code has it: whatever operations are applied to a cursor,
    activations, filters, steps and index accesses, returning or raising,
    the consumed count stays between zero and the total, a negative total
    counting as zero; so the count never exceeds a total that is not
    negative.  An activation that returns, and a [filter] with at least
    one filter that returns, leave the count at zero; a step that returns
    a record found the count below the total and adds one to it. *)
Theorem current_within_total
  (env : environment) (conn : Connection_obj) (fuel : nat) (m : string)
  (ops : list operation) (w : world) :
  within_total (fst (run_operations env conn fuel ops (IterableResult.__init__ m) w))
  /\ (forall c, within_total c ->
        forall t, IterableResult.total c = Some t -> 0 <= t -> current_le_total c)
  /\ (forall args kwargs c w0 c',
        result_of (IterableResult.__call__ env conn fuel args kwargs c w0) = Ok c' ->
        IterableResult.current c' = Some 0)
  /\ (forall kwargs c w0 c',
        kwargs <> [] ->
        result_of (IterableResult.filter env conn fuel kwargs c w0) = Ok c' ->
        IterableResult.current c' = Some 0)
  /\ (forall c w0 d,
        result_of (IterableResult.__next__ env conn fuel c w0) = Ok d ->
        exists cur tot,
          counts c = (Some cur, Some tot) /\ cur < tot
          /\ counts (cursor_of (IterableResult.__next__ env conn fuel c w0))
             = (Some (cur + 1), Some tot)).
Proof.
  split; [| split; [| split; [| split]]].
  - apply run_operations_within. exact I.
  - intros c H t Ht Hpos. unfold within_total, current_le_total in *.
    rewrite Ht in *. destruct (IterableResult.current c); [lia | exact I].
  - intros args kwargs c w0 c' H.
    destruct (call_counts env conn fuel args kwargs c w0) as [_ Hc].
    now destruct (Hc c' H) as (_ & Hz & _).
  - intros kwargs c w0 c' Hne H.
    destruct (filter_counts env conn fuel kwargs c w0) as [_ Hc].
    destruct (Hc c' H) as (_ & Hz). auto.
  - intros c w0 d H. pose proof (next_counts env conn fuel c w0) as Hn.
    now rewrite H in Hn.
Qed.

Lemma current_within_total_example :
  within_total
    (fst (run_operations (example_env paging_transport_example) connection_example 2
            [OpCall search_args_example search_kwargs_example; OpNext; OpNext; OpNext;
             OpNext; OpFilter [("size", PInt 10)]; OpGetitem 1]
            (IterableResult.__init__ "get") empty_world)).
Proof.
  apply (proj1 (current_within_total (example_env paging_transport_example)
                  connection_example 2 "get"
                  [OpCall search_args_example search_kwargs_example; OpNext; OpNext;
                   OpNext; OpNext; OpFilter [("size", PInt 10)]; OpGetitem 1]
                  empty_world)).
Defined.

(** A first page that announces a total of -1 activates the cursor with a
    count of zero, which exceeds that total. *)
Lemma current_exceeds_negative_total :
  ~ current_le_total
      (fst (run_operations (example_env negative_total_transport) connection_example 2
              [OpCall search_args_example search_kwargs_example]
              (IterableResult.__init__ "get") empty_world)).
Proof.
  intros H. vm_compute in H. now apply H.
Qed.

(** ** The cursor: iteration *)

Lemma dict_get_set_same (k : string) (v : pyval) (d : dict) :
  Dict.get k (Dict.set k v d) = Some v.
Proof.
  induction d as [| [k' v'] d IH]; cbn.
  - now rewrite String.eqb_refl.
  - destruct (String.eqb k k') eqn:E; cbn.
    + now rewrite String.eqb_refl.
    + now rewrite E.
Qed.

Lemma dict_set_set (k : string) (v1 v2 : pyval) (d : dict) :
  Dict.set k v2 (Dict.set k v1 d) = Dict.set k v2 d.
Proof.
  induction d as [| [k' v'] d IH]; cbn.
  - now rewrite String.eqb_refl.
  - destruct (String.eqb k k') eqn:E; cbn.
    + now rewrite String.eqb_refl.
    + now rewrite E, IH.
Qed.

Section Iteration.
Variable env : environment.
Variable conn : Connection_obj.
Variable fuel : nat.
Import IterableResult.

Lemma next_stop (c : obj) (w : world) (cur tot : Z) :
  current c = Some cur -> total c = Some tot -> tot <= cur ->
  __next__ env conn fuel c w = (Raise StopIteration, c, w).
Proof.
  intros Hc Ht Hle. unfold __next__, bindC, attr, raiseC. rewrite Hc, Ht.
  now rewrite (proj2 (Z.ltb_ge cur tot) Hle).
Qed.

Lemma next_buffered (c : obj) (w : world) (cur tot : Z) (x : pyval) (xs : list pyval) :
  current c = Some cur -> total c = Some tot -> cur < tot ->
  _data c = Some (PList (x :: xs)) ->
  __next__ env conn fuel c w
  = (Ok x, assign_current (cur + 1) (assign_data (PList xs) c), w).
Proof.
  intros Hc Ht Hlt Hd. unfold __next__, bindC, attr. rewrite Hc, Ht.
  rewrite (proj2 (Z.ltb_lt cur tot) Hlt). rewrite Hd. cbn [truthy negb retC].
  rewrite Hd. reflexivity.
Qed.







End Iteration.




(** ** The cursor: filters *)

Section Filters.
Variable env : environment.
Variable conn : Connection_obj.
Import IterableResult.

Lemma validate_filter_endpoint (k : string) (v : pyval) (c : obj) (w : world)
  (endpoint : string) (rest : list pyval) :
  _args c = Some (PStr endpoint :: rest) ->
  _validate_filter conn k v c w
  = (fst (Connection.validate_parameter conn endpoint k v "get" w), c, w).
Proof.
  intros Ha. unfold _validate_filter, bindC, attr, liftM. rewrite Ha.
  pose proof (validate_parameter_pure conn endpoint k v "get" w) as Hw.
  destruct (Connection.validate_parameter conn endpoint k v "get" w) as [o w'].
  cbn in Hw. now subst w'.
Qed.

Lemma filter_one_valid (kv : string * pyval) (c : obj) (w : world)
  (endpoint : string) (rest : list pyval) (kw p : dict) :
  _args c = Some (PStr endpoint :: rest) ->
  _kwargs c = Some kw -> Dict.get "params" kw = Some (PDict p) ->
  fst (Connection.validate_parameter conn endpoint (fst kv) (snd kv) "get" w) = Ok tt ->
  filter_one conn kv c w
  = (Ok tt, assign_kwargs (filtered_kwargs [kv] p kw) c, w).
Proof.
  intros Ha Hk Hp Hv. unfold filter_one. unfold bindC at 1.
  rewrite (validate_filter_endpoint _ _ c w endpoint rest Ha), Hv.
  unfold bindC, attr, liftO, getitem_str, setitem_str, set_kwargs.
  rewrite Hk. cbn [Dict.get]. rewrite Hp. reflexivity.
Qed.


Lemma filter_each_valid (filters : dict) :
  forall (c : obj) (w : world) (endpoint : string) (rest : list pyval) (kw p : dict),
    _args c = Some (PStr endpoint :: rest) ->
    _kwargs c = Some kw -> Dict.get "params" kw = Some (PDict p) ->
    (forall k v, In (k, v) filters ->
       fst (Connection.validate_parameter conn endpoint k v "get" w) = Ok tt) ->
    filter_each conn filters c w
    = (Ok tt,
       match filters with
       | [] => c
       | _ => assign_kwargs (filtered_kwargs filters p kw) c
       end, w).
Proof.
  induction filters as [| kv more IH]; intros c w endpoint rest kw p Ha Hk Hp Hv;
    [reflexivity |].
  cbn [filter_each]. unfold bindC.
  rewrite (filter_one_valid kv c w endpoint rest kw p Ha Hk Hp);
    [| destruct kv as [k v]; apply Hv; now left].
  rewrite (IH (assign_kwargs (filtered_kwargs [kv] p kw) c) w endpoint rest
              (filtered_kwargs [kv] p kw) (merge_filters [kv] p));
    [| exact Ha | reflexivity | apply dict_get_set_same
     | intros k v Hin; apply Hv; now right].
  destruct more as [| kv' more']; [reflexivity |].
  unfold filtered_kwargs. rewrite dict_set_set. reflexivity.
Qed.


End Filters.


(** ** The cursor: index access *)

Section IndexAccess.
Variable env : environment.
Variable conn : Connection_obj.
Variable fuel : nat.
Import IterableResult.

Lemma islice_next_item (skip : nat) :
  forall (n : nat) (c : obj) (w : world) (rs : list pyval) (c' : obj) (w' : world),
    iterate env conn n fuel c w = (Ok rs, c', w') ->
    result_of (islice_next env conn fuel skip c w) = Ok (item_or_None rs skip).
Proof.
  induction skip as [| k IH]; intros n c w rs c' w' Hit;
    (destruct n as [| n]; [discriminate |]); cbn [iterate islice_next] in *;
    destruct (__next__ env conn fuel c w) as [[[d | e |] c1] w1]; try discriminate.
  - destruct (iterate env conn n fuel c1 w1) as [[[l | e |] c2] w2]; try discriminate.
    injection Hit as <- _ _. reflexivity.
  - destruct e; try discriminate. injection Hit as <- _ _. reflexivity.
  - destruct (iterate env conn n fuel c1 w1) as [[[l | e |] c2] w2] eqn:Hrest;
      try discriminate.
    injection Hit as <- _ _. cbn [item_or_None nth_error].
    apply (IH n c1 w1 l c2 w2 Hrest).
  - destruct e; try discriminate. injection Hit as <- _ _. reflexivity.
Qed.

End IndexAccess.

(** C10, as the code has it: for an index [x] from zero to
    [sys.maxsize], on a cursor whose remaining iteration succeeds with the
    records [rs], [cursor[x]] is the record of index [x] among them when
    there is one and [None] otherwise, not an out-of-range error; a
    negative index raises [ValueError]. *)
Theorem getitem_remaining_or_None
  (env : environment) (conn : Connection_obj) (fuel : nat) (x : Z)
  (c : IterableResult.obj) (w : world) (n : nat) (rs : list pyval)
  (c' : IterableResult.obj) (w' : world) :
  0 <= x <= sys_maxsize ->
  IterableResult.iterate env conn n fuel c w = (Ok rs, c', w') ->
  result_of (IterableResult.__getitem__ env conn fuel x c w)
    = Ok (item_or_None rs (Z.to_nat x))
  /\ ((Z.to_nat x < List.length rs)%nat ->
      nth_error rs (Z.to_nat x)
      = Some (item_or_None rs (Z.to_nat x)))
  /\ ((List.length rs <= Z.to_nat x)%nat -> item_or_None rs (Z.to_nat x) = PNone)
  /\ (forall y c2 w2, y < 0 ->
        IterableResult.__getitem__ env conn fuel y c2 w2 = (Raise ValueError, c2, w2)).
Proof.
  intros Hx Hit. split; [| split; [| split]].
  - unfold IterableResult.__getitem__.
    replace ((x <? 0) || (sys_maxsize <? x)) with false
      by (symmetry; apply orb_false_iff; split; [apply Z.ltb_ge | apply Z.ltb_ge]; lia).
    now apply (islice_next_item env conn fuel (Z.to_nat x) n c w rs c' w').
  - intros Hlt. unfold item_or_None.
    destruct (nth_error rs (Z.to_nat x)) eqn:E; [reflexivity |].
    apply nth_error_None in E. lia.
  - intros Hge. unfold item_or_None.
    now rewrite (proj2 (nth_error_None rs (Z.to_nat x)) Hge).
  - intros y c2 w2 Hy. unfold IterableResult.__getitem__.
    now rewrite (proj2 (Z.ltb_lt y 0) Hy).
Qed.

Lemma getitem_example :
  result_of
    (IterableResult.__getitem__ (example_env paging_transport_example) connection_example
       2 2 (cursor_of activated_example) (snd activated_example))
  = Ok (PStr "r2")
  /\ result_of
       (IterableResult.__getitem__ (example_env paging_transport_example)
          connection_example 2 7 (cursor_of activated_example) (snd activated_example))
     = Ok PNone.
Proof.
  split.
  - refine (proj1 (getitem_remaining_or_None (example_env paging_transport_example)
                     connection_example 2 2 (cursor_of activated_example)
                     (snd activated_example) 4 [PStr "r0"; PStr "r1"; PStr "r2"]
                     _ _ _ _)).
    + vm_compute. split; discriminate.
    + vm_compute. reflexivity.
  - refine (proj1 (getitem_remaining_or_None (example_env paging_transport_example)
                     connection_example 2 7 (cursor_of activated_example)
                     (snd activated_example) 4 [PStr "r0"; PStr "r1"; PStr "r2"]
                     _ _ _ _)).
    + vm_compute. split; discriminate.
    + vm_compute. reflexivity.
Defined.

(** On the activated cursor of the search example, [cursor[-1]] raises
    [ValueError]: it returns neither a record nor [None]. *)
Lemma getitem_negative_raises :
  result_of
    (IterableResult.__getitem__ (example_env paging_transport_example) connection_example
       2 (-1) (cursor_of activated_example) (snd activated_example))
  = Raise ValueError
  /\ forall v,
       result_of
         (IterableResult.__getitem__ (example_env paging_transport_example)
            connection_example 2 (-1) (cursor_of activated_example)
            (snd activated_example))
       <> Ok v.
Proof.
  split; [reflexivity | intros v H; discriminate H].
Qed.

(** * Further properties *)

(** ** Dictionaries *)

Lemma dict_get_set_other (k k' : string) (v : pyval) (d : dict) :
  k <> k' -> Dict.get k' (Dict.set k v d) = Dict.get k' d.
Proof.
  intros Hne. induction d as [| [k0 v0] d IH]; cbn.
  - destruct (String.eqb k' k) eqn:E; [| reflexivity].
    apply String.eqb_eq in E. congruence.
  - destruct (String.eqb k k0) eqn:E; cbn.
    + apply String.eqb_eq in E. subst k0.
      destruct (String.eqb k' k) eqn:E'; [| reflexivity].
      apply String.eqb_eq in E'. congruence.
    + now rewrite IH.
Qed.

Lemma dict_get_del_other (k k' : string) (d : dict) :
  k <> k' -> Dict.get k' (Dict.del k d) = Dict.get k' d.
Proof.
  intros Hne. induction d as [| [k0 v0] d IH]; cbn; [reflexivity |].
  destruct (String.eqb k k0) eqn:E; cbn.
  - apply String.eqb_eq in E. subst k0.
    destruct (String.eqb k' k) eqn:E'; [| reflexivity].
    apply String.eqb_eq in E'. congruence.
  - now rewrite IH.
Qed.

Lemma dict_get_None (k : string) (d : dict) :
  ~ In k (Dict.keys d) -> Dict.get k d = None.
Proof.
  induction d as [| [k0 v0] d IH]; cbn; intros H; [reflexivity |].
  destruct (String.eqb k k0) eqn:E.
  - apply String.eqb_eq in E. destruct H. now left.
  - apply IH. intros Hin. apply H. now right.
Qed.

Lemma dict_get_In (k : string) (v : pyval) (d : dict) :
  Dict.get k d = Some v -> In (k, v) d.
Proof.
  induction d as [| [k0 v0] d IH]; cbn; intros H; [discriminate |].
  destruct (String.eqb k k0) eqn:E.
  - apply String.eqb_eq in E. injection H as <-. subst. now left.
  - right. now apply IH.
Qed.

Lemma dict_In_get (k : string) (v : pyval) (d : dict) :
  NoDup (Dict.keys d) -> In (k, v) d -> Dict.get k d = Some v.
Proof.
  induction d as [| [k0 v0] d IH]; cbn; intros Hnd Hin; [destruct Hin |].
  inversion Hnd as [| ? ? Hk Hd]; subst.
  destruct Hin as [E | Hin].
  - injection E as -> ->. now rewrite String.eqb_refl.
  - destruct (String.eqb k k0) eqn:E.
    + apply String.eqb_eq in E. subst k0. destruct Hk.
      change k with (fst (k, v)). now apply in_map.
    + now apply IH.
Qed.

Lemma dict_keys_del (k k' : string) (d : dict) :
  In k' (Dict.keys (Dict.del k d)) -> In k' (Dict.keys d).
Proof.
  induction d as [| [k0 v0] d IH]; cbn; [auto |].
  destruct (String.eqb k k0); cbn; intuition.
Qed.

Lemma dict_del_nodup (k : string) (d : dict) :
  NoDup (Dict.keys d) -> NoDup (Dict.keys (Dict.del k d)).
Proof.
  induction d as [| [k0 v0] d IH]; cbn; intros Hnd; [constructor |].
  inversion Hnd as [| ? ? Hk Hd]; subst.
  destruct (String.eqb k k0); [assumption |]. cbn.
  constructor; [| now apply IH].
  intros Hin. apply Hk. now apply dict_keys_del in Hin.
Qed.

Lemma dict_get_del_same (k : string) (d : dict) :
  NoDup (Dict.keys d) -> Dict.get k (Dict.del k d) = None.
Proof.
  induction d as [| [k0 v0] d IH]; cbn; intros Hnd; [reflexivity |].
  inversion Hnd as [| ? ? Hk Hd]; subst.
  destruct (String.eqb k k0) eqn:E; cbn.
  - apply String.eqb_eq in E. subst k0. now apply dict_get_None.
  - rewrite E. now apply IH.
Qed.

Lemma dict_keys_set (k k' : string) (v : pyval) (d : dict) :
  In k' (Dict.keys (Dict.set k v d)) -> k' = k \/ In k' (Dict.keys d).
Proof.
  induction d as [| [k0 v0] d IH]; cbn.
  - intros [H | []]; auto.
  - destruct (String.eqb k k0) eqn:E; cbn.
    + apply String.eqb_eq in E. subst k0. intuition.
    + intros [H | H]; [auto |]. destruct (IH H); auto.
Qed.

Lemma dict_set_nodup (k : string) (v : pyval) (d : dict) :
  NoDup (Dict.keys d) -> NoDup (Dict.keys (Dict.set k v d)).
Proof.
  induction d as [| [k0 v0] d IH]; cbn; intros Hnd; [repeat constructor; auto |].
  inversion Hnd as [| ? ? Hk Hd]; subst.
  destruct (String.eqb k k0) eqn:E; cbn.
  - apply String.eqb_eq in E. subst k0. now constructor.
  - constructor; [| now apply IH].
    intros Hin. apply dict_keys_set in Hin. destruct Hin as [-> | Hin]; [| auto].
    now rewrite String.eqb_refl in E.
Qed.

(** ** Response: the body *)

Lemma split_body_mapping (d : dict) :
  NoDup (Dict.keys d) ->
  exists i,
    Response.split_body (PDict d)
    = (match Dict.get "data" d with Some v => v | None => PList [] end, InfoTuple i)
    /\ NoDup (Dict.keys i)
    /\ Dict.get "data" i = None
    /\ Dict.get "from" i = None
    /\ Dict.get "from_" i
       = match Dict.get "from" d with Some v => Some v | None => Dict.get "from_" d end
    /\ forall k, k <> "data" -> k <> "from" -> k <> "from_" ->
         Dict.get k i = Dict.get k d.
Proof.
  intros Hnd. cbn [Response.split_body].
  set (d1 := match Dict.get "data" d with Some _ => Dict.del "data" d | None => d end).
  assert (H1 : NoDup (Dict.keys d1))
    by (unfold d1; destruct (Dict.get "data" d); [now apply dict_del_nodup | assumption]).
  assert (Hdata : Dict.get "data" d1 = None)
    by (unfold d1; destruct (Dict.get "data" d) eqn:E;
        [now apply dict_get_del_same | exact E]).
  assert (Hother : forall k, k <> "data" -> Dict.get k d1 = Dict.get k d).
  { intros k Hk. unfold d1. destruct (Dict.get "data" d); [| reflexivity].
    apply dict_get_del_other. congruence. }
  exists (match Dict.get "from" d1 with
          | Some v => Dict.del "from" (Dict.set "from_" v d1)
          | None => d1
          end).
  split.
  { unfold d1. destruct (Dict.get "data" d); reflexivity. }
  rewrite <- (Hother "from") by discriminate.
  rewrite <- (Hother "from_") by discriminate.
  destruct (Dict.get "from" d1) as [v |] eqn:Hfrom.
  - assert (H2 : NoDup (Dict.keys (Dict.set "from_" v d1))) by now apply dict_set_nodup.
    split; [now apply dict_del_nodup |].
    split; [rewrite dict_get_del_other, dict_get_set_other by discriminate; exact Hdata |].
    split; [now apply dict_get_del_same |].
    split; [rewrite dict_get_del_other by discriminate; apply dict_get_set_same |].
    intros k Hk1 Hk2 Hk3.
    rewrite dict_get_del_other, dict_get_set_other by congruence. now apply Hother.
  - split; [exact H1 |]. split; [exact Hdata |]. split; [exact Hfrom |].
    split; [reflexivity |]. intros k Hk _ _. now apply Hother.
Qed.

Section FieldNames.
Variable valid_name : string -> bool.
Import ResponseFields.

Lemma underscore_neq (k s : string) :
  starts_with_underscore k = false -> String.eqb k (String "_" s) = false.
Proof.
  intros Hk. apply String.eqb_neq. intros ->. discriminate Hk.
Qed.

Lemma rename_fields_get (l : dict) :
  forall (index : nat) (seen : list string),
    NoDup (Dict.keys l) ->
    (forall k, In k (Dict.keys l) -> ~ In k seen) ->
    forall k, starts_with_underscore k = false ->
      Dict.get k (rename_fields valid_name index seen l)
      = if valid_name k then Dict.get k l else None.
Proof.
  induction l as [| [name v] rest IH]; intros index seen Hnd Hseen k Hk.
  - cbn. now destruct (valid_name k).
  - cbn [Dict.keys map fst] in Hnd. inversion Hnd as [| x l Hnot Hnd']; subst.
    assert (Hns : existsb (String.eqb name) seen = false).
    { destruct (existsb (String.eqb name) seen) eqn:E; [| reflexivity].
      apply existsb_exists in E. destruct E as (x & Hx & Heq).
      apply String.eqb_eq in Heq. subst x.
      destruct (Hseen name); [now left | exact Hx]. }
    assert (Hrest : Dict.get k (rename_fields valid_name (S index) (name :: seen) rest)
                    = if valid_name k then Dict.get k rest else None).
    { apply IH; [exact Hnd' | | exact Hk].
      intros k' Hin [<- | Hin']; [now apply Hnot |].
      apply (Hseen k'); [now right | exact Hin']. }
    cbn [rename_fields Dict.get]. unfold field_name. rewrite Hns, orb_false_r.
    destruct (negb (valid_name name) || starts_with_underscore name) eqn:C.
    + rewrite (underscore_neq k _ Hk), Hrest.
      destruct (String.eqb k name) eqn:E; [| reflexivity].
      apply String.eqb_eq in E. subst name. rewrite Hk, orb_false_r in C.
      apply negb_true_iff in C. now rewrite C.
    + apply orb_false_iff in C. destruct C as [C _]. apply negb_false_iff in C.
      destruct (String.eqb k name) eqn:E; [| exact Hrest].
      apply String.eqb_eq in E. subst name. now rewrite C.
Qed.

Lemma rename_fields_in (l : dict) :
  forall (index : nat) (seen : list string) (k : string) (v : pyval),
    In (k, v) (rename_fields valid_name index seen l) ->
    starts_with_underscore k = true \/ In (k, v) l.
Proof.
  induction l as [| [name v0] rest IH]; intros index seen k v Hin; [destruct Hin |].
  cbn [rename_fields] in Hin. destruct Hin as [Heq | Hin].
  - injection Heq as <- <-. unfold field_name.
    destruct (negb (valid_name name) || starts_with_underscore name
              || existsb (String.eqb name) seen); [now left | right; now left].
  - destruct (IH _ _ _ _ Hin); [now left | right; now right].
Qed.

End FieldNames.

(** The body of a response that is a mapping is split into its [data]
    entry (the empty list when there is none) and the named tuple [info].
    The tuple is made of what is left of the body, with [from] moved to
    [from_], and with every key that is not accepted as a field name
    replaced by its position: it has no field [data] and no field [from],
    it has under [from_] what the body held under [from], under every
    other accepted name the entry of the body, no field under a name that
    is not accepted, and apart from the entries of the body only fields
    whose names start with an underscore.  A body that is not a mapping is
    the [data] as it is, with an empty [info]. *)
Theorem split_body_fields (valid_name : string -> bool) (d : dict) :
  NoDup (Dict.keys d) ->
  (exists i,
      Response.split_body (PDict d)
      = (match Dict.get "data" d with Some v => v | None => PList [] end, InfoTuple i)
      /\ Dict.get "data" (ResponseFields._dict_to_namedtuple valid_name i) = None
      /\ Dict.get "from" (ResponseFields._dict_to_namedtuple valid_name i) = None
      /\ (valid_name "from_" = true ->
          Dict.get "from_" (ResponseFields._dict_to_namedtuple valid_name i)
          = match Dict.get "from" d with Some v => Some v | None => Dict.get "from_" d end)
      /\ (forall k, k <> "data" -> k <> "from" -> k <> "from_" ->
            ResponseFields.starts_with_underscore k = false ->
            Dict.get k (ResponseFields._dict_to_namedtuple valid_name i)
            = if valid_name k then Dict.get k d else None)
      /\ (forall k v,
            In (k, v) (ResponseFields._dict_to_namedtuple valid_name i) ->
            ResponseFields.starts_with_underscore k = true
            \/ (k <> "data" /\ k <> "from"
                /\ (In (k, v) d \/ (k = "from_" /\ Dict.get "from" d = Some v)))))
  /\ (forall v, not_a_dict v -> Response.split_body v = (v, InfoEmpty)).
Proof.
  intros Hnd. split.
  - destruct (split_body_mapping d Hnd) as (i & Hs & Hndi & Hdata & Hfrom & Hfrom_ & Hother).
    assert (Hget : forall k, ResponseFields.starts_with_underscore k = false ->
                     Dict.get k (ResponseFields._dict_to_namedtuple valid_name i)
                     = if valid_name k then Dict.get k i else None).
    { intros k Hk. unfold ResponseFields._dict_to_namedtuple.
      apply rename_fields_get; [exact Hndi | intros k' _ [] | exact Hk]. }
    exists i. split; [exact Hs |]. split; [| split; [| split; [| split]]].
    + rewrite Hget, Hdata by reflexivity. now destruct (valid_name "data").
    + rewrite Hget, Hfrom by reflexivity. now destruct (valid_name "from").
    + intros Hv. rewrite Hget, Hv by reflexivity. exact Hfrom_.
    + intros k H1 H2 H3 Hk. rewrite Hget by exact Hk. now rewrite Hother.
    + intros k v Hin.
      destruct (rename_fields_in valid_name i 0 [] k v Hin) as [Hu | Hi]; [now left |].
      right. pose proof (dict_In_get k v i Hndi Hi) as Hgi.
      assert (Hkd : k <> "data") by (intros ->; congruence).
      assert (Hkf : k <> "from") by (intros ->; congruence).
      split; [exact Hkd |]. split; [exact Hkf |].
      destruct (String.eqb k "from_") eqn:E.
      * apply String.eqb_eq in E. subst k. rewrite Hfrom_ in Hgi.
        destruct (Dict.get "from" d) as [v' |] eqn:Ef.
        -- right. split; [reflexivity | exact Hgi].
        -- left. now apply dict_get_In.
      * apply String.eqb_neq in E. left. apply dict_get_In.
        now rewrite <- (Hother k Hkd Hkf E).
  - intros [] H; try reflexivity; destruct H.
Qed.

Lemma split_body_fields_example :
  exists i,
    Response.split_body (PDict hyphen_body_example)
    = (PList [PStr "r0"; PStr "r1"], InfoTuple i)
    /\ Dict.get "total" (ResponseFields._dict_to_namedtuple valid_name_example i)
       = Some (PInt 3)
    /\ Dict.get "from_" (ResponseFields._dict_to_namedtuple valid_name_example i)
       = Some (PInt 0)
    /\ Dict.get "took-ms" (ResponseFields._dict_to_namedtuple valid_name_example i) = None.
Proof.
  destruct (proj1 (split_body_fields valid_name_example hyphen_body_example
                     ltac:(cbn; repeat constructor; cbn; intuition discriminate)))
    as (i & Hs & _ & _ & Hfrom & Hother & _).
  exists i. split; [exact Hs |]. split; [| split].
  - now rewrite (Hother "total") by (discriminate || reflexivity).
  - now rewrite Hfrom by reflexivity.
  - now rewrite (Hother "took-ms") by (discriminate || reflexivity).
Defined.

(** ** Response: the length *)

Lemma init_ok_fields (env : environment) (r : raw_response) (body : pyval)
  (w w' : world) (resp : Response.obj) :
  resp_json r = Some body ->
  Response.__init__ env r "json" w = (Ok resp, w') ->
  Response.data resp = fst (Response.split_body body)
  /\ Response.info resp = snd (Response.split_body body).
Proof.
  intros Hj Hinit. rewrite (init_json env r body w Hj) in Hinit.
  destruct (Response._parse_usage_data env (resp_headers r) w) as [[u | e |] w1];
    try discriminate.
  injection Hinit as <- _. split; reflexivity.
Qed.

Lemma len_of_py_len (v : pyval) :
  match
    match py_len v with
    | Ok n => Ok (PInt n)
    | Raise e => Raise e
    | OutOfFuel => OutOfFuel
    end
  with
  | Ok x => len_of_result x
  | Raise e => Raise e
  | OutOfFuel => OutOfFuel
  end = py_len v.
Proof.
  destruct v; cbn; try reflexivity.
  all: replace (Z.of_nat _ <? 0) with false by (symmetry; apply Z.ltb_ge; lia);
    reflexivity.
Qed.

(** The length of a response built from a mapping is the [total] of the
    body when that is an integer from zero to [sys.maxsize], and the length of
    the [data] entry (zero without one) when the body has no [total]; a
    negative [total] makes [len] raise [ValueError].  The length of a
    response built from another body is the length of that body. *)
Theorem Response_len_total_or_data
  (env : environment) (r : raw_response) (body : pyval) (w w' : world)
  (resp : Response.obj) :
  resp_json r = Some body ->
  Response.__init__ env r "json" w = (Ok resp, w') ->
  (forall d z, body = PDict d -> NoDup (Dict.keys d) ->
     Dict.get "total" d = Some (PInt z) -> z <= sys_maxsize ->
     len_Response resp = if z <? 0 then Raise ValueError else Ok z)
  /\ (forall d, body = PDict d -> NoDup (Dict.keys d) ->
       Dict.get "total" d = None ->
       len_Response resp
       = py_len (match Dict.get "data" d with Some v => v | None => PList [] end))
  /\ (not_a_dict body -> len_Response resp = py_len body).
Proof.
  intros Hj Hinit.
  destruct (init_ok_fields env r body w w' resp Hj Hinit) as [Hd Hi].
  unfold len_Response, Response.__len__. rewrite Hd, Hi.
  split; [| split].
  - intros d z -> Hnd Ht _.
    destruct (split_body_mapping d Hnd) as (i & -> & _ & _ & _ & _ & Hk).
    cbn [fst snd info_total].
    rewrite (Hk "total") by discriminate. rewrite Ht. reflexivity.
  - intros d -> Hnd Ht.
    destruct (split_body_mapping d Hnd) as (i & -> & _ & _ & _ & _ & Hk).
    cbn [fst snd info_total].
    rewrite (Hk "total") by discriminate. rewrite Ht.
    apply len_of_py_len.
  - intros Hn. destruct body; try (now destruct Hn); cbn [Response.split_body fst snd info_total];
      apply len_of_py_len.
Qed.

Lemma Response_len_example :
  (forall d z, page_example = PDict d -> NoDup (Dict.keys d) ->
     Dict.get "total" d = Some (PInt z) -> z <= sys_maxsize ->
     len_Response
       {| Response.data := PList [PStr "r0"; PStr "r1"];
          Response.info := InfoTuple [("total", PInt 3); ("from_", PInt 0)];
          Response._headers := [];
          Response.usage := None |}
     = if z <? 0 then Raise ValueError else Ok z)
  /\ (forall d, page_example = PDict d -> NoDup (Dict.keys d) ->
       Dict.get "total" d = None ->
       len_Response
         {| Response.data := PList [PStr "r0"; PStr "r1"];
            Response.info := InfoTuple [("total", PInt 3); ("from_", PInt 0)];
            Response._headers := [];
            Response.usage := None |}
       = py_len (match Dict.get "data" d with Some v => v | None => PList [] end))
  /\ (not_a_dict page_example ->
      len_Response
        {| Response.data := PList [PStr "r0"; PStr "r1"];
           Response.info := InfoTuple [("total", PInt 3); ("from_", PInt 0)];
           Response._headers := [];
           Response.usage := None |}
      = py_len page_example).
Proof.
  apply (Response_len_total_or_data (example_env no_transport)
           (json_response 200 [] page_example) page_example empty_world empty_world).
  - reflexivity.
  - vm_compute. reflexivity.
Defined.

(** ** Response: incomplete usage headers *)

(** When [X-Usage-Limit-1h] is there but one of the three other usage
    headers is not, reading the usage raises ([KeyError] for the header
    that is missing, or [ValueError] for an earlier one that is not an
    integer) and no [Response] is built; nothing is logged. *)
Theorem usage_headers_incomplete
  (env : environment) (r : raw_response) (body : pyval) (w : world) (missing : string) :
  resp_json r = Some body ->
  header_mem (KStr "X-Usage-Limit-1h") (resp_headers r) = true ->
  In missing other_usage_headers ->
  header_get (KStr missing) (resp_headers r) = None ->
  exists e,
    Response._parse_usage_data env (resp_headers r) w = (Raise e, w)
    /\ Response.__init__ env r "json" w = (Raise e, w)
    /\ (e = ValueError \/ exists k, In k other_usage_headers /\ e = KeyError (lower k)).
Proof.
  intros Hj Hmem Hin Hget.
  assert (H : exists e,
             Response._parse_usage_data env (resp_headers r) w = (Raise e, w)
             /\ (e = ValueError \/ exists k, In k other_usage_headers /\ e = KeyError (lower k))).
  { unfold Response._parse_usage_data. rewrite Hmem.
    unfold header_mem in Hmem.
    unfold Response.usage_from, bind, lift, Response.header_int, header_item.
    destruct (header_get (KStr "X-Usage-Limit-1h") (resp_headers r)) as [s1 |];
      [| discriminate].
    destruct (int_of_str env s1); [| eexists; split; [reflexivity | now left]].
    destruct (header_get (KStr "X-Usage-Limit-10s") (resp_headers r)) as [s2 |] eqn:E2;
      [| eexists; split; [reflexivity | right; eexists; split; [| reflexivity]; cbn; auto]].
    destruct (int_of_str env s2); [| eexists; split; [reflexivity | now left]].
    destruct (header_get (KStr "X-Usage-Remaining-1h") (resp_headers r)) as [s3 |] eqn:E3;
      [| eexists; split; [reflexivity | right; eexists; split; [| reflexivity]; cbn; auto]].
    destruct (int_of_str env s3); [| eexists; split; [reflexivity | now left]].
    destruct (header_get (KStr "X-Usage-Remaining-10s") (resp_headers r)) as [s4 |] eqn:E4;
      [| eexists; split; [reflexivity | right; eexists; split; [| reflexivity]; cbn; auto]].
    destruct Hin as [<- | [<- | [<- | []]]]; congruence. }
  destruct H as (e & Hp & He). exists e. split; [exact Hp |]. split; [| exact He].
  now rewrite (init_json env r body w Hj), Hp.
Qed.

Lemma usage_headers_incomplete_example :
  Response.__init__ (example_env no_transport)
    (json_response 200 partial_usage_headers_example page_example) "json" empty_world
  = (Raise (KeyError "x-usage-limit-10s"), empty_world).
Proof.
  destruct (usage_headers_incomplete (example_env no_transport)
              (json_response 200 partial_usage_headers_example page_example) page_example
              empty_world "X-Usage-Remaining-1h"
              ltac:(reflexivity) ltac:(reflexivity) ltac:(cbn; auto) ltac:(reflexivity))
    as (e & Hp & Hi & _).
  vm_compute in Hp. injection Hp as <-. exact Hi.
Defined.

(** ** Response: the printed form *)

Lemma str_take_drop (n : nat) (s : string) : (str_take n s ++ str_drop n s)%string = s.
Proof.
  revert s. induction n as [| n IH]; intros [| c s]; cbn; try reflexivity.
  now rewrite IH.
Qed.

Lemma str_take_length (n : nat) (s : string) :
  String.length (str_take n s) = Nat.min n (String.length s).
Proof.
  revert s. induction n as [| n IH]; intros [| c s]; cbn; try reflexivity.
  now rewrite IH.
Qed.

Lemma str_drop_empty (n : nat) (s : string) :
  str_drop n s = EmptyString <-> (String.length s <= n)%nat.
Proof.
  revert s. induction n as [| n IH]; intros [| c s]; cbn.
  - split; [lia | reflexivity].
  - split; [discriminate | lia].
  - split; [lia | reflexivity].
  - rewrite IH. lia.
Qed.

Lemma str_append_length (a b : string) :
  String.length (a ++ b) = (String.length a + String.length b)%nat.
Proof. induction a as [| c a IH]; cbn; [reflexivity | now rewrite IH]. Qed.

Lemma str_append_empty (a : string) : (a ++ "")%string = a.
Proof. induction a as [| c a IH]; cbn; [reflexivity | now rewrite IH]. Qed.

(** The printed form of a response is the printed form of its data when
    that has at most 100 characters, and otherwise its first 100
    characters followed by three dots, 103 characters in all. *)
Theorem Response_str_preview (py_str : pyval -> string) (self : Response.obj) :
  ((String.length (py_str (Response.data self)) <= 100)%nat ->
   ResponseStr.__str__ py_str self = py_str (Response.data self))
  /\ ((100 < String.length (py_str (Response.data self)))%nat ->
      ResponseStr.__str__ py_str self
      = (str_take 100 (py_str (Response.data self)) ++ "...")%string
      /\ String.length (ResponseStr.__str__ py_str self) = 103%nat)
  /\ (String.length (ResponseStr.__str__ py_str self) <= 103)%nat.
Proof.
  unfold ResponseStr.__str__, py_and. cbv zeta.
  set (s := py_str (Response.data self)).
  assert (Hshort : (String.length s <= 100)%nat ->
                   (str_take 100 s
                    ++ match (if truthy (PStr (str_drop 100 s)) then PStr "..."
                              else PStr (str_drop 100 s)) with
                       | PStr x => x
                       | _ => ""
                       end)%string = s).
  { intros H. apply str_drop_empty in H as E. rewrite E. cbn [truthy String.eqb negb].
    rewrite <- (str_take_drop 100 s) at 2. now rewrite E. }
  assert (Hlong : (100 < String.length s)%nat ->
                  (str_take 100 s
                   ++ match (if truthy (PStr (str_drop 100 s)) then PStr "..."
                             else PStr (str_drop 100 s)) with
                      | PStr x => x
                      | _ => ""
                      end)%string = (str_take 100 s ++ "...")%string).
  { intros H. destruct (str_drop 100 s) as [| c rest] eqn:E.
    - apply str_drop_empty in E. lia.
    - reflexivity. }
  split; [exact Hshort |]. split.
  - intros H. rewrite (Hlong H). split; [reflexivity |].
    rewrite str_append_length, str_take_length. cbn [String.length]. lia.
  - destruct (Nat.le_gt_cases (String.length s) 100) as [H | H].
    + rewrite (Hshort H). lia.
    + rewrite (Hlong H), str_append_length, str_take_length. cbn [String.length]. lia.
Qed.

(** ** The request engine: one answered request *)

Section OneRequest.
Variable env : environment.
Variable self : Connection_obj.

Lemma make_request_S (fuel : nat) :
  Connection._make_request env self (S fuel)
  = Connection._make_request_ env self (Connection._make_request env self fuel) fuel.
Proof. reflexivity. Qed.

Lemma call_answered (method endpoint : string) (params dat : option pyval)
  (h : headers_arg) (w : world) (r : raw_response) :
  transport env (calls w) (request_sent self method endpoint params dat h w) = Some r ->
  Connection.call env method (Connection._build_url self endpoint) params dat h w
  = (Ok r, after_request (request_sent self method endpoint params dat h w) w).
Proof.
  intros H. unfold Connection.call. fold (request_sent self method endpoint params dat h w).
  now rewrite H.
Qed.

(** Once the head of [_make_request] is through, an answer that the loop
    lets pass ends the request after one call. *)
Lemma make_request_answered (fuel : nat) (endpoint : string) (params dat : option pyval)
  (method : string) (h : headers_arg) (rate_limit_fail : bool)
  (params' : option pyval) (h' : headers_arg) (w0 w : world) (r : raw_response) :
  Connection.prepare env self (S fuel) endpoint params h w0 = (Ok (params', h'), w) ->
  transport env (calls w) (request_sent self method endpoint params' dat h' w) = Some r ->
  passes_loop rate_limit_fail r ->
  Connection._make_request env self (S (S fuel)) endpoint params dat method h
    rate_limit_fail w0
  = (after_loop r, after_request (request_sent self method endpoint params' dat h' w) w).
Proof.
  intros Hprep Ht Hpass.
  pose proof (call_answered method endpoint params' dat h' w r Ht) as Hcall.
  destruct rate_limit_fail.
  - rewrite (single_attempt_when_rate_limit_fail env self (S fuel) endpoint params dat
               method h params' h' w0 w Hprep).
    now rewrite Hcall.
  - destruct Hpass as [Hp | [H1 H2]]; [discriminate |].
    rewrite make_request_S. unfold Connection._make_request_.
    unfold bind at 1. unfold Connection.prepare in Hprep. rewrite Hprep.
    cbn [negb fst snd]. unfold bind at 1.
    rewrite (retry_loop_exit env fuel _ _ w _ r Hcall H1 H2).
    unfold after_loop, bind, lift, ret.
    destruct (Connection.raise_for_status r); reflexivity.
Qed.

Lemma after_loop_status (r : raw_response) :
  (400 <= status_code r < 600 -> after_loop r = Raise (HTTPError (status_code r)))
  /\ (~ 400 <= status_code r < 600 -> after_loop r = Ok r).
Proof.
  unfold after_loop, Connection.raise_for_status. split; intros H.
  - replace ((400 <=? status_code r) && (status_code r <? 600)) with true; [reflexivity |].
    symmetry. apply andb_true_iff. split; [apply Z.leb_le | apply Z.ltb_lt]; lia.
  - replace ((400 <=? status_code r) && (status_code r <? 600)) with false; [reflexivity |].
    symmetry. apply andb_false_iff.
    destruct (Z.le_gt_cases 400 (status_code r)) as [H1 | H1].
    + right. apply Z.ltb_ge. lia.
    + left. apply Z.leb_gt. lia.
Qed.

Lemma prepare_without_credentials (f : request_fn) (endpoint : string)
  (params params' : option pyval) (h : headers_arg) (w : world) :
  Connection.use_auth self = false ->
  Connection.order_params env params = Ok params' ->
  Connection.prepare_ env self f endpoint params h w = (Ok (params', h), w).
Proof.
  intros Ha Hp. unfold Connection.prepare_, bind, lift, ret. now rewrite Hp, Ha.
Qed.

End OneRequest.

(** Without credentials, a request whose answer the loop lets pass (any
    answer in single-attempt mode, any status but 429 and 419 otherwise)
    sends exactly one request, with the parameters in order and the
    headers as they were given, and touches neither the token nor the
    shared headers; it raises [HTTPError] with the status for a status
    from 400 to 599 and returns the response for any other. *)
Theorem request_without_credentials
  (env : environment) (self : Connection_obj) (fuel : nat)
  (endpoint : string) (params params' dat : option pyval) (method : string)
  (h : headers_arg) (rate_limit_fail : bool) (w : world) (r : raw_response) :
  Connection.use_auth self = false ->
  Connection.order_params env params = Ok params' ->
  transport env (calls w) (request_sent self method endpoint params' dat h w) = Some r ->
  passes_loop rate_limit_fail r ->
  Connection._make_request env self (S (S fuel)) endpoint params dat method h
    rate_limit_fail w
  = (after_loop r, after_request (request_sent self method endpoint params' dat h w) w)
  /\ (400 <= status_code r < 600 -> after_loop r = Raise (HTTPError (status_code r)))
  /\ (~ 400 <= status_code r < 600 -> after_loop r = Ok r).
Proof.
  intros Ha Hp Ht Hpass. split; [| apply after_loop_status].
  apply (make_request_answered env self fuel endpoint params dat method h rate_limit_fail
           params' h w w r); try assumption.
  unfold Connection.prepare. now apply prepare_without_credentials.
Qed.

Lemma request_without_credentials_example :
  Connection._make_request (example_env not_found_transport) connection_example 2
    "/public/search" (Some (PDict params_example_1)) None "GET" DefaultHeaders false
    empty_world
  = (after_loop not_found,
     after_request
       (request_sent connection_example "GET" "/public/search"
          (Some (PList [PTuple [PStr "from"; PInt 0]; PTuple [PStr "q"; PStr "braf"];
                        PTuple [PStr "size"; PInt 10]]))
          None DefaultHeaders empty_world)
       empty_world).
Proof.
  refine (proj1 (request_without_credentials (example_env not_found_transport)
                   connection_example 0 "/public/search" (Some (PDict params_example_1))
                   _ None "GET" DefaultHeaders false empty_world not_found _ _ _ _)).
  - reflexivity.
  - vm_compute. reflexivity.
  - reflexivity.
  - right. split; discriminate.
Defined.

(** ** The request engine: the token in the headers *)

Section AuthHeaders.
Variable env : environment.
Variable self : Connection_obj.

Lemma prepare_authenticated_default (f : request_fn) (endpoint : string)
  (params params' : option pyval) (w : world) :
  Connection.use_auth self = true ->
  str_contains "request_token" endpoint = false ->
  is_None (token w) = false ->
  Connection.order_params env params = Ok params' ->
  Connection.prepare_ env self f endpoint params DefaultHeaders w
  = (Ok (params', DefaultHeaders),
     with_default_headers (Dict.set "Auth-Token" (token w) (default_headers w)) w).
Proof.
  intros Ha Hc Hn Hp.
  unfold Connection.prepare_, bind, lift, get_token_attr, ret.
  rewrite Hp, Ha, Hc. cbn [negb andb]. rewrite Hn. cbn [negb]. rewrite Hn. reflexivity.
Qed.

Lemma prepare_token_request (f : request_fn) (h : headers_arg) (w : world) :
  Connection.prepare_ env self f "/public/auth/request_token" None h w
  = (Ok (None, h), w).
Proof.
  unfold Connection.prepare_, bind, lift, ret. cbn [Connection.order_params].
  replace (str_contains "request_token" "/public/auth/request_token") with true
    by reflexivity.
  cbn [negb]. rewrite andb_false_r. reflexivity.
Qed.

(** The token request, once answered. *)
Lemma token_request_answered (fuel : nat) (expire : Z) (w : world) (r : raw_response) :
  transport env (calls w)
    (request_sent self "GET" "/public/auth/request_token" None
       (Some (token_request_data self expire)) DefaultHeaders w) = Some r ->
  passes_loop false r ->
  Connection._make_token_request env self (S (S fuel)) expire w
  = (after_loop r,
     after_request
       (request_sent self "GET" "/public/auth/request_token" None
          (Some (token_request_data self expire)) DefaultHeaders w) w).
Proof.
  intros Ht Hpass. unfold Connection._make_token_request, Connection._make_token_request_.
  apply (make_request_answered env self fuel "/public/auth/request_token" None
           (Some (token_request_data self expire)) "GET" DefaultHeaders false
           None DefaultHeaders w w r); try assumption.
  unfold Connection.prepare. apply prepare_token_request.
Qed.

End AuthHeaders.

(** With credentials and a cached token, a request made with the default
    headers carries the token as [Auth-Token], and the shared default
    dictionary keeps that entry afterwards: a later token request, for
    which the code attaches no token, is sent with it all the same. *)
Theorem auth_token_kept_in_default_headers
  (env : environment) (self : Connection_obj) (fuel : nat)
  (endpoint : string) (params params' dat : option pyval) (method : string)
  (rate_limit_fail : bool) (w : world) (r : raw_response) :
  Connection.use_auth self = true ->
  str_contains "request_token" endpoint = false ->
  is_None (token w) = false ->
  Connection.order_params env params = Ok params' ->
  transport env (calls w)
    (request_sent self method endpoint params' dat DefaultHeaders
       (with_default_headers (Dict.set "Auth-Token" (token w) (default_headers w)) w))
    = Some r ->
  passes_loop rate_limit_fail r ->
  Connection._make_request env self (S (S fuel)) endpoint params dat method DefaultHeaders
    rate_limit_fail w
  = (after_loop r,
     after_request
       (request_sent self method endpoint params' dat DefaultHeaders
          (with_default_headers (Dict.set "Auth-Token" (token w) (default_headers w)) w))
       (with_default_headers (Dict.set "Auth-Token" (token w) (default_headers w)) w))
  /\ Dict.get "Auth-Token"
       (req_headers
          (request_sent self method endpoint params' dat DefaultHeaders
             (with_default_headers (Dict.set "Auth-Token" (token w) (default_headers w)) w)))
     = Some (token w)
  /\ (forall fuel2 expire w2 r2,
        default_headers w2 = Dict.set "Auth-Token" (token w) (default_headers w) ->
        transport env (calls w2)
          (request_sent self "GET" "/public/auth/request_token" None
             (Some (token_request_data self expire)) DefaultHeaders w2) = Some r2 ->
        passes_loop false r2 ->
        Connection._make_token_request env self (S (S fuel2)) expire w2
        = (after_loop r2,
           after_request
             (request_sent self "GET" "/public/auth/request_token" None
                (Some (token_request_data self expire)) DefaultHeaders w2) w2)
        /\ Dict.get "Auth-Token"
             (req_headers
                (request_sent self "GET" "/public/auth/request_token" None
                   (Some (token_request_data self expire)) DefaultHeaders w2))
           = Some (token w)).
Proof.
  intros Ha Hc Hn Hp Ht Hpass. split; [| split].
  - apply (make_request_answered env self fuel endpoint params dat method DefaultHeaders
             rate_limit_fail params' DefaultHeaders w _ r); try assumption.
    unfold Connection.prepare. now apply prepare_authenticated_default.
  - cbn. apply dict_get_set_same.
  - intros fuel2 expire w2 r2 Hd Ht2 Hpass2. split.
    + now apply token_request_answered.
    + cbn. rewrite Hd. apply dict_get_set_same.
Qed.

Lemma auth_token_kept_example :
  Connection._make_request (example_env paging_transport_example) auth_connection_example 2
    "/public/search" (Some (PDict [("q", PStr "braf")])) None "GET" DefaultHeaders false
    world_with_token
  = (after_loop (json_response 200 [] page_example),
     after_request
       (request_sent auth_connection_example "GET" "/public/search"
          (Some (PList [PTuple [PStr "q"; PStr "braf"]])) None DefaultHeaders
          (with_default_headers [("Auth-Token", PStr "t0")] world_with_token))
       (with_default_headers [("Auth-Token", PStr "t0")] world_with_token)).
Proof.
  refine (proj1 (auth_token_kept_in_default_headers (example_env paging_transport_example)
                   auth_connection_example 0 "/public/search"
                   (Some (PDict [("q", PStr "braf")])) _ None "GET" false
                   world_with_token (json_response 200 [] page_example) _ _ _ _ _ _)).
  - reflexivity.
  - reflexivity.
  - reflexivity.
  - vm_compute. reflexivity.
  - reflexivity.
  - right. split; discriminate.
Defined.

(** ** Renewal of the token *)

Section TokenRenewal.
Variable env : environment.
Variable self : Connection_obj.

Lemma reissue_answered (fuel : nat) (w : world) (r : raw_response) :
  transport env (calls w) (token_request self w) = Some r ->
  status_code r <> 429 -> status_code r <> 419 ->
  (t' <- Connection.get_token env self (S (S fuel)) (10 * 60) ;; set_token t') w
  = token_stored self r w.
Proof.
  intros Ht H1 H2.
  unfold bind, Connection.get_token, Connection.get_token_.
  change (Connection._make_token_request_ self (Connection._make_request env self (S (S fuel))))
    with (Connection._make_token_request env self (S (S fuel))).
  unfold bind.
  rewrite (token_request_answered env self fuel (10 * 60) w r Ht) by (right; split; assumption).
  unfold token_stored, lift. fold (token_request self w).
  destruct (after_loop r) as [r' | e |] eqn:Hal; try reflexivity.
  assert (r' = r) as ->.
  { unfold after_loop in Hal. destruct (Connection.raise_for_status r); congruence. }
  destruct (resp_json r) as [body |]; [| reflexivity].
  cbn iota beta.
  destruct (getitem_str "token" body) as [t | e |]; reflexivity.
Qed.

Lemma prepare_validation (f : request_fn) (w : world) :
  truthy (token w) = true ->
  Connection.prepare_ env self f "/public/auth/validate_token" None
    (GivenHeaders [("Auth-Token", token w)]) w
  = (Ok (None, GivenHeaders [("Auth-Token", token w)]), w).
Proof.
  intros Ht.
  assert (Hn : is_None (token w) = false) by (destruct (token w); try reflexivity; discriminate).
  unfold Connection.prepare_, bind, lift, ret, get_token_attr. cbn [Connection.order_params].
  replace (str_contains "request_token" "/public/auth/validate_token") with false
    by reflexivity.
  cbn [negb]. rewrite andb_true_r.
  destruct (Connection.use_auth self); [| reflexivity].
  rewrite Hn. cbn [negb]. rewrite Hn. reflexivity.
Qed.

Lemma validation_answered (fuel : nat) (w : world) (r : raw_response) :
  truthy (token w) = true ->
  transport env (calls w) (validation_request self (token w) w) = Some r ->
  status_code r <> 429 -> status_code r <> 419 ->
  Connection._make_request env self (S (S fuel)) "/public/auth/validate_token" None None
    "GET" (GivenHeaders [("Auth-Token", token w)]) false w
  = (after_loop r, after_request (validation_request self (token w) w) w).
Proof.
  intros Htok Ht H1 H2.
  apply (make_request_answered env self fuel "/public/auth/validate_token" None None "GET"
           (GivenHeaders [("Auth-Token", token w)]) false None
           (GivenHeaders [("Auth-Token", token w)]) w w r).
  - unfold Connection.prepare. now apply prepare_validation.
  - exact Ht.
  - right. split; assumption.
Qed.

End TokenRenewal.

(** Without a token (None, or any other false value), [_update_token]
    sends exactly the token request (a GET to request_token with the
    application name, the secret and an expiry of 600 as data) and, when
    the answer passes the retry loop: raises HTTPError on a status between
    400 and 599 and leaves the token as it was; otherwise stores the
    [token] entry of the body as the new token, and raises KeyError when
    the body is a mapping without that entry. *)
Theorem update_token_requests_token
  (env : environment) (self : Connection_obj) (fuel : nat) (w : world) (r : raw_response) :
  truthy (token w) = false ->
  transport env (calls w) (token_request self w) = Some r ->
  status_code r <> 429 -> status_code r <> 419 ->
  (400 <= status_code r < 600 ->
   Connection._update_token env self (S (S fuel)) w
   = (Raise (HTTPError (status_code r)), after_request (token_request self w) w))
  /\ (forall d t,
        ~ 400 <= status_code r < 600 ->
        resp_json r = Some (PDict d) -> Dict.get "token" d = Some t ->
        Connection._update_token env self (S (S fuel)) w
        = (Ok tt, with_token t (after_request (token_request self w) w)))
  /\ (forall d,
        ~ 400 <= status_code r < 600 ->
        resp_json r = Some (PDict d) -> Dict.get "token" d = None ->
        Connection._update_token env self (S (S fuel)) w
        = (Raise (KeyError "token"), after_request (token_request self w) w)).
Proof.
  intros Htok Ht H1 H2.
  assert (Hu : Connection._update_token env self (S (S fuel)) w = token_stored self r w).
  { unfold Connection._update_token, Connection._update_token_.
    unfold bind at 1. unfold get_token_attr at 1.
    rewrite Htok. unfold bind at 1. unfold ret at 1.
    apply (reissue_answered env self fuel w r Ht H1 H2). }
  rewrite Hu. unfold token_stored.
  destruct (after_loop_status r) as [He Hok].
  split; [| split].
  - intros Hs. rewrite (He Hs). reflexivity.
  - intros d t Hs Hj Hg. rewrite (Hok Hs), Hj. cbn [getitem_str]. rewrite Hg. reflexivity.
  - intros d Hs Hj Hg. rewrite (Hok Hs), Hj. cbn [getitem_str]. rewrite Hg. reflexivity.
Qed.

Lemma update_token_requests_token_example :
  Connection._update_token (example_env token_transport_example) auth_connection_example 2
    empty_world
  = (Ok tt,
     with_token (PStr "t1")
       (after_request (token_request auth_connection_example empty_world) empty_world)).
Proof.
  refine (proj1 (proj2 (update_token_requests_token (example_env token_transport_example)
                          auth_connection_example 0 empty_world token_issued _ _ _ _))
            [("token", PStr "t1")] (PStr "t1") _ _ _).
  - reflexivity.
  - reflexivity.
  - discriminate.
  - discriminate.
  - cbn. lia.
  - reflexivity.
  - reflexivity.
Defined.

(** With a token, [_update_token] first sends the validation request, a
    GET to validate_token carrying the token as its only header.  When the
    answer is 200 nothing else is sent and the token stays; an answer
    between 400 and 599 (other than 419 and 429) raises HTTPError and the
    token stays; any other answer is taken as an expired token, and the
    token request follows as if there were no token. *)
Theorem update_token_validates_first
  (env : environment) (self : Connection_obj) (fuel : nat) (w : world) (r : raw_response) :
  truthy (token w) = true ->
  transport env (calls w) (validation_request self (token w) w) = Some r ->
  status_code r <> 429 -> status_code r <> 419 ->
  (status_code r = 200 ->
   Connection._update_token env self (S (S fuel)) w
   = (Ok tt, after_request (validation_request self (token w) w) w))
  /\ (400 <= status_code r < 600 ->
      Connection._update_token env self (S (S fuel)) w
      = (Raise (HTTPError (status_code r)),
         after_request (validation_request self (token w) w) w))
  /\ (forall r2,
        status_code r <> 200 -> ~ 400 <= status_code r < 600 ->
        transport env (S (calls w))
          (token_request self (after_request (validation_request self (token w) w) w))
          = Some r2 ->
        status_code r2 <> 429 -> status_code r2 <> 419 ->
        Connection._update_token env self (S (S fuel)) w
        = token_stored self r2 (after_request (validation_request self (token w) w) w)).
Proof.
  intros Htok Ht H1 H2.
  pose proof (validation_answered env self fuel w r Htok Ht H1 H2) as Hv.
  destruct (after_loop_status r) as [He Hok].
  assert (Hu : Connection._update_token env self (S (S fuel)) w
             = match after_loop r with
               | Ok _ =>
                   if status_code r =? 200
                   then (Ok tt, after_request (validation_request self (token w) w) w)
                   else (t' <- Connection.get_token env self (S (S fuel)) (10 * 60) ;;
                         set_token t')
                          (after_request (validation_request self (token w) w) w)
               | Raise e => (Raise e, after_request (validation_request self (token w) w) w)
               | OutOfFuel => (OutOfFuel, after_request (validation_request self (token w) w) w)
               end).
  { unfold Connection._update_token, Connection._update_token_.
    unfold bind at 1. unfold get_token_attr at 1. rewrite Htok.
    unfold bind at 1. unfold bind at 1. rewrite Hv.
    destruct (after_loop r) as [r' | e |] eqn:Hal; try reflexivity.
    assert (r' = r) as ->.
    { unfold after_loop in Hal. destruct (Connection.raise_for_status r); congruence. }
    destruct (status_code r =? 200) eqn:H200; [reflexivity |].
    replace (status_code r =? 419) with false by (symmetry; apply Z.eqb_neq; exact H2).
    unfold bind at 1. unfold bind at 1. unfold lift at 1.
    unfold after_loop in Hal.
    destruct (Connection.raise_for_status r) as [[] | e |]; try discriminate.
    reflexivity. }
  split; [| split].
  - intros Hs. rewrite Hu, (Hok ltac:(lia)), Hs. reflexivity.
  - intros Hs. rewrite Hu, (He Hs). reflexivity.
  - intros r2 Hn Hs Ht2 H21 H22.
    rewrite Hu, (Hok Hs).
    replace (status_code r =? 200) with false by (symmetry; apply Z.eqb_neq; exact Hn).
    apply (reissue_answered env self fuel _ r2); assumption.
Qed.

Lemma update_token_validates_first_example :
  Connection._update_token (example_env paging_transport_example) auth_connection_example 2
    world_with_token
  = (Ok tt,
     after_request (validation_request auth_connection_example (PStr "t0") world_with_token)
       world_with_token).
Proof.
  refine (proj1 (update_token_validates_first (example_env paging_transport_example)
                   auth_connection_example 0 world_with_token
                   (json_response 200 [] page_example) _ _ _ _) _).
  - reflexivity.
  - reflexivity.
  - discriminate.
  - discriminate.
  - reflexivity.
Defined.

(** ** The shared default headers across a request *)

Lemma keeps_bind {A B : Type} (m : M A) (k : A -> M B) :
  keeps_headers m -> (forall a, keeps_headers (k a)) -> keeps_headers (bind m k).
Proof.
  intros Hm Hk w. unfold bind. specialize (Hm w).
  destruct (m w) as [[a | e |] w']; cbn [snd] in *; try assumption.
  rewrite Hk. exact Hm.
Qed.

Lemma keeps_ret {A : Type} (a : A) : keeps_headers (ret a).
Proof. intros w. reflexivity. Qed.

Lemma keeps_lift {A : Type} (o : outcome A) : keeps_headers (lift o).
Proof. intros w. reflexivity. Qed.

Lemma keeps_log (e : event) : keeps_headers (log e).
Proof. intros w. reflexivity. Qed.

Lemma keeps_set_token (t : pyval) : keeps_headers (set_token t).
Proof. intros w. reflexivity. Qed.

Lemma keeps_get_token_attr : keeps_headers get_token_attr.
Proof. intros w. reflexivity. Qed.

Section KeepsHeaders.
Variable env : environment.
Variable self : Connection_obj.

Lemma keeps_call (method url : string) (params dat : option pyval) (h : headers_arg) :
  keeps_headers (Connection.call env method url params dat h).
Proof.
  intros w. unfold Connection.call. destruct (transport env _ _); reflexivity.
Qed.

Lemma keeps_time_sleep (s : pyval) : keeps_headers (Connection.time_sleep env s).
Proof.
  intros w. unfold Connection.time_sleep. destruct (time_sleep_ok env s); reflexivity.
Qed.

Lemma keeps_retry_loop (do_call : M raw_response) (update_token : M unit) :
  keeps_headers do_call -> keeps_headers update_token ->
  forall n, keeps_headers (Connection.retry_loop env n do_call update_token).
Proof.
  intros Hc Hu. induction n as [| n IH]; [intros w; reflexivity |].
  cbn [Connection.retry_loop]. apply keeps_bind; [exact Hc |]. intros r.
  destruct (status_code r =? 429); [| destruct (status_code r =? 419)].
  - apply keeps_bind; [apply keeps_lift |]. intros ra.
    apply keeps_bind; [apply keeps_log |]. intros _.
    apply keeps_bind; [apply keeps_time_sleep |]. intros _. exact IH.
  - apply keeps_bind; [exact Hu |]. intros _. exact IH.
  - apply keeps_ret.
Qed.

Section OverRequests.
Variable f : request_fn.
Hypothesis f_keeps :
  forall endpoint params dat method h rate_limit_fail,
    own_headers self endpoint h ->
    keeps_headers (f endpoint params dat method h rate_limit_fail).

Lemma keeps_update_token_ : keeps_headers (Connection._update_token_ self f).
Proof.
  unfold Connection._update_token_.
  apply keeps_bind; [apply keeps_get_token_attr |]. intros t.
  apply keeps_bind.
  - destruct (truthy t); [| apply keeps_ret].
    apply keeps_bind.
    + apply f_keeps. left. eexists. reflexivity.
    + intros r. destruct (status_code r =? 200); [apply keeps_ret |].
      destruct (status_code r =? 419); [apply keeps_ret |].
      apply keeps_bind; [apply keeps_lift |]. intros _. apply keeps_ret.
  - intros [|]; [| apply keeps_ret].
    apply keeps_bind; [| intros t'; apply keeps_set_token].
    unfold Connection.get_token_.
    apply keeps_bind.
    + unfold Connection._make_token_request_. apply f_keeps. right.
      replace (str_contains "request_token" "/public/auth/request_token") with true
        by reflexivity.
      apply andb_false_r.
    + intros r. apply keeps_bind; [apply keeps_lift |]. intros body. apply keeps_lift.
Qed.

Lemma keeps_prepare_ (endpoint : string) (params : option pyval) (h : headers_arg) :
  own_headers self endpoint h ->
  keeps_headers (Connection.prepare_ env self f endpoint params h).
Proof.
  intros Hown. unfold Connection.prepare_.
  apply keeps_bind; [apply keeps_lift |]. intros params'.
  apply keeps_bind; [| intros h'; apply keeps_ret].
  destruct (Connection.use_auth self && negb (str_contains "request_token" endpoint))
    eqn:Hauth; [| apply keeps_ret].
  destruct Hown as [[d ->] | Hoff]; [| congruence].
  apply keeps_bind; [apply keeps_get_token_attr |]. intros t.
  apply keeps_bind.
  { destruct (is_None t); [apply keeps_update_token_ | apply keeps_ret]. }
  intros _. apply keeps_bind; [apply keeps_get_token_attr |]. intros t'.
  destruct (negb (is_None t')); [| apply keeps_ret].
  cbn [Connection.attach_token]. apply keeps_ret.
Qed.

Lemma keeps_make_request_ (n : nat) (endpoint : string) (params dat : option pyval)
  (method : string) (h : headers_arg) (rate_limit_fail : bool) :
  own_headers self endpoint h ->
  keeps_headers
    (Connection._make_request_ env self f n endpoint params dat method h rate_limit_fail).
Proof.
  intros Hown. unfold Connection._make_request_.
  apply keeps_bind; [now apply keeps_prepare_ |]. intros ph. cbv zeta.
  apply keeps_bind.
  - destruct (negb rate_limit_fail); [| apply keeps_call].
    apply keeps_retry_loop; [apply keeps_call | apply keeps_update_token_].
  - intros r. apply keeps_bind; [apply keeps_lift |]. intros _. apply keeps_ret.
Qed.

End OverRequests.

Lemma keeps_make_request (fuel : nat) :
  forall endpoint params dat method h rate_limit_fail,
    own_headers self endpoint h ->
    keeps_headers
      (Connection._make_request env self fuel endpoint params dat method h rate_limit_fail).
Proof.
  induction fuel as [| fuel IH]; intros endpoint params dat method h rlf Hown.
  - intros w. reflexivity.
  - cbn [Connection._make_request]. now apply keeps_make_request_.
Qed.

Lemma keeps_update_token (fuel : nat) :
  keeps_headers (Connection._update_token env self fuel).
Proof.
  unfold Connection._update_token. apply keeps_update_token_. apply keeps_make_request.
Qed.

Lemma retry_turn_keeps (do_call : M raw_response) (update_token : M unit) (w w' : world) :
  keeps_headers do_call -> keeps_headers update_token ->
  retry_turn env do_call update_token w w' ->
  default_headers w' = default_headers w.
Proof.
  intros Hc Hu [w0 w1 r ra Hcall _ _ _ | w0 w1 w2 r Hcall _ Hupd].
  - cbn. specialize (Hc w0). rewrite Hcall in Hc. exact Hc.
  - specialize (Hc w0). rewrite Hcall in Hc. specialize (Hu w1). rewrite Hupd in Hu.
    cbn [snd] in *. congruence.
Qed.

Lemma retry_turns_keep (do_call : M raw_response) (update_token : M unit) (k : nat)
  (w w' : world) :
  keeps_headers do_call -> keeps_headers update_token ->
  retry_turns env do_call update_token k w w' ->
  default_headers w' = default_headers w.
Proof.
  intros Hc Hu. induction 1 as [w | k w w1 w2 Hturn _ IH]; [reflexivity |].
  rewrite IH. now apply (retry_turn_keeps do_call update_token).
Qed.

End KeepsHeaders.

(** However many turns the retry loop takes, after a 429 or after a 419
    and a renewal of the token, the request it sends again is the one it
    sent first: neither [_update_token] nor the pause touches the headers
    of the request, so a token renewed in between is cached but the
    request still carries the [Auth-Token] it was given before the loop. *)
Theorem retried_request_unchanged
  (env : environment) (self : Connection_obj) (fuel : nat)
  (method endpoint : string) (params dat : option pyval) (h : headers_arg)
  (k : nat) (w w' : world) :
  retry_turns env
    (Connection.call env method (Connection._build_url self endpoint) params dat h)
    (Connection._update_token env self fuel) k w w' ->
  default_headers w' = default_headers w
  /\ request_sent self method endpoint params dat h w'
     = request_sent self method endpoint params dat h w.
Proof.
  intros Hturns.
  assert (Hd : default_headers w' = default_headers w).
  { apply (retry_turns_keep env _ _ k w w' (keeps_call env _ _ _ _ _)
             (keeps_update_token env self fuel) Hturns). }
  split; [exact Hd |].
  unfold request_sent. destruct h; [rewrite Hd |]; reflexivity.
Qed.

Lemma retried_request_unchanged_example :
  exists w',
    retry_turns (example_env renewal_transport_example)
      (Connection.call (example_env renewal_transport_example) "GET"
         (Connection._build_url auth_connection_example "/public/search") None None
         DefaultHeaders)
      (Connection._update_token (example_env renewal_transport_example)
         auth_connection_example 3)
      1 world_with_token_sent w'
    /\ token w' = PStr "t1"
    /\ Dict.get "Auth-Token"
         (req_headers
            (request_sent auth_connection_example "GET" "/public/search" None None
               DefaultHeaders w'))
       = Some (PStr "t0").
Proof.
  assert (Hturns :
    retry_turns (example_env renewal_transport_example)
      (Connection.call (example_env renewal_transport_example) "GET"
         (Connection._build_url auth_connection_example "/public/search") None None
         DefaultHeaders)
      (Connection._update_token (example_env renewal_transport_example)
         auth_connection_example 3)
      1 world_with_token_sent
      (snd (Connection._update_token (example_env renewal_transport_example)
              auth_connection_example 3
              (snd (Connection.call (example_env renewal_transport_example) "GET"
                      (Connection._build_url auth_connection_example "/public/search")
                      None None DefaultHeaders world_with_token_sent))))).
  { eapply turns_S; [| apply turns_O].
    eapply turn_419.
    - vm_compute. reflexivity.
    - reflexivity.
    - vm_compute. reflexivity. }
  eexists. split; [exact Hturns |]. split; [vm_compute; reflexivity |].
  rewrite (proj2 (retried_request_unchanged _ _ _ _ _ _ _ _ _ _ _ Hturns)).
  reflexivity.
Defined.

(** ** Reading from a cursor *)

Lemma dict_set_key (k : string) (v : pyval) (d : dict) :
  In k (Dict.keys (Dict.set k v d)).
Proof.
  induction d as [| [k' v'] d IH]; cbn.
  - now left.
  - destruct (String.eqb k k') eqn:E; cbn; auto.
Qed.

Section CursorUse.
Variable env : environment.
Variable conn : Connection_obj.
Variable fuel : nat.
Import IterableResult.

Lemma islice_next_consumes (skip : nat) :
  forall (n : nat) (c : obj) (w : world) (rs : list pyval) (c' : obj) (w' : world),
    iterate env conn n fuel c w = (Ok rs, c', w') ->
    (skip < List.length rs)%nat ->
    exists c1 w1,
      islice_next env conn fuel skip c w = (Ok (nth skip rs PNone), c1, w1)
      /\ iterate env conn (n - S skip) fuel c1 w1 = (Ok (skipn (S skip) rs), c', w').
Proof.
  induction skip as [| k IH]; intros n c w rs c' w' Hit Hlen;
    (destruct n as [| n]; [discriminate |]); cbn [iterate] in Hit;
    destruct (__next__ env conn fuel c w) as [[[d | e |] c1] w1] eqn:Hn;
    try discriminate;
    try (destruct e; try discriminate; inversion Hit; subst rs; cbn in Hlen; lia).
  - destruct (iterate env conn n fuel c1 w1) as [[[l | e |] c2] w2] eqn:Hi;
      try discriminate.
    inversion Hit; subst. exists c1, w1. cbn [islice_next]. rewrite Hn.
    split; [reflexivity |]. cbn [Nat.sub skipn]. rewrite Nat.sub_0_r. exact Hi.
  - destruct (iterate env conn n fuel c1 w1) as [[[l | e |] c2] w2] eqn:Hi;
      try discriminate.
    inversion Hit; subst. cbn [List.length] in Hlen.
    destruct (IH n c1 w1 l c' w' Hi ltac:(lia)) as (c3 & w3 & Hs & Hrest).
    exists c3, w3. cbn [islice_next]. rewrite Hn. split; [exact Hs |]. exact Hrest.
Qed.

Lemma iterate_buffered (k : nat) :
  forall (buf : list pyval) (c : obj) (w : world) (cur tot : Z),
    current c = Some cur -> total c = Some tot -> _data c = Some (PList buf) ->
    Z.to_nat (tot - cur) = k -> (k <= List.length buf)%nat ->
    forall n, (k < n)%nat ->
      exists c',
        iterate env conn n fuel c w = (Ok (firstn k buf), c', w)
        /\ current c' = Some (Z.max cur tot)
        /\ total c' = Some tot
        /\ _data c' = Some (PList (skipn k buf)).
Proof.
  induction k as [| k IH]; intros buf c w cur tot Hc Ht Hd Hk Hlen n Hn;
    (destruct n as [| n]; [lia |]); cbn [iterate].
  - rewrite (next_stop env conn fuel c w cur tot Hc Ht) by lia.
    exists c. repeat split; try assumption.
    rewrite Hc. f_equal. lia.
  - destruct buf as [| x xs]; [cbn in Hlen; lia |].
    rewrite (next_buffered env conn fuel c w cur tot x xs Hc Ht ltac:(lia) Hd).
    destruct (IH xs (assign_current (cur + 1) (assign_data (PList xs) c)) w (cur + 1) tot
                eq_refl Ht eq_refl ltac:(lia) ltac:(cbn in Hlen; lia) n ltac:(lia))
      as (c' & Hit & Hc' & Ht' & Hd').
    exists c'. rewrite Hit. repeat split; try assumption.
    rewrite Hc'. f_equal. lia.
Qed.

Lemma next_total (c : obj) (w : world) :
  total (cursor_of (__next__ env conn fuel c w)) = total c.
Proof.
  pose proof (next_counts env conn fuel c w) as H.
  destruct (result_of (__next__ env conn fuel c w)).
  - destruct H as (cur & tot & H0 & _ & H1). unfold counts in *. congruence.
  - unfold counts in H. congruence.
  - unfold counts in H. congruence.
Qed.

Lemma islice_next_total (skip : nat) :
  forall (c : obj) (w : world),
    total (cursor_of (islice_next env conn fuel skip c w)) = total c.
Proof.
  induction skip as [| k IH]; intros c w; cbn [islice_next];
    pose proof (next_total c w) as H; unfold cursor_of in *;
    destruct (__next__ env conn fuel c w) as [[[d | e |] c1] w1]; cbn [fst snd] in *;
    try assumption; try (destruct e; assumption).
  rewrite IH. exact H.
Qed.

Lemma reading_total (op : operation) (c : obj) (w : world) :
  reading op -> total (fst (run_operation env conn fuel op c w)) = total c.
Proof.
  destruct op as [args kwargs | kwargs | | x]; cbn [reading]; try contradiction; intros _.
  - apply next_total.
  - cbn [run_operation after fst]. unfold __getitem__.
    destruct ((x <? 0) || (sys_maxsize <? x)); [reflexivity |].
    apply islice_next_total.
Qed.

End CursorUse.

(** Index access consumes: when [cursor[x]] finds a record, it is the
    record that iteration would have produced at position [x], and the
    cursor is left after it, so that iterating from there gives only the
    records that follow position [x]. *)
Theorem getitem_consumes_up_to_index
  (env : environment) (conn : Connection_obj) (fuel : nat) (x : Z)
  (c : IterableResult.obj) (w : world) (n : nat) (rs : list pyval)
  (c' : IterableResult.obj) (w' : world) :
  0 <= x <= sys_maxsize ->
  IterableResult.iterate env conn n fuel c w = (Ok rs, c', w') ->
  (Z.to_nat x < List.length rs)%nat ->
  exists c1 w1,
    IterableResult.__getitem__ env conn fuel x c w
    = (Ok (nth (Z.to_nat x) rs PNone), c1, w1)
    /\ IterableResult.iterate env conn (n - S (Z.to_nat x)) fuel c1 w1
       = (Ok (skipn (S (Z.to_nat x)) rs), c', w').
Proof.
  intros Hx Hit Hlen. unfold IterableResult.__getitem__.
  replace ((x <? 0) || (sys_maxsize <? x)) with false.
  - now apply (islice_next_consumes env conn fuel (Z.to_nat x) n c w rs c' w').
  - symmetry. apply orb_false_iff. split; apply Z.ltb_ge; lia.
Qed.

Lemma getitem_consumes_example :
  exists c1 w1,
    IterableResult.__getitem__ (example_env paging_transport_example) connection_example
      2 1 (cursor_of activated_example) (snd activated_example)
    = (Ok (PStr "r1"), c1, w1)
    /\ result_of
         (IterableResult.iterate (example_env paging_transport_example) connection_example
            2 2 c1 w1)
       = Ok [PStr "r2"].
Proof.
  destruct (getitem_consumes_up_to_index (example_env paging_transport_example)
              connection_example 2 1 (cursor_of activated_example) (snd activated_example)
              4 [PStr "r0"; PStr "r1"; PStr "r2"] _ _
              ltac:(vm_compute; split; discriminate)
              ltac:(vm_compute; reflexivity)
              ltac:(vm_compute; lia))
    as (c1 & w1 & Hg & Hrest).
  exists c1, w1. split; [exact Hg |].
  change (4 - S (Z.to_nat 1))%nat with 2%nat in Hrest. rewrite Hrest. reflexivity.
Defined.

(** When the buffer holds at least the records that remain up to the
    total, iteration yields exactly those, in order, without sending any
    request; what the buffer holds beyond the total is never yielded. *)
Theorem buffered_records_need_no_request
  (env : environment) (conn : Connection_obj) (fuel : nat)
  (c : IterableResult.obj) (w : world) (cur tot : Z) (buf : list pyval) (n : nat) :
  IterableResult.current c = Some cur ->
  IterableResult.total c = Some tot ->
  IterableResult._data c = Some (PList buf) ->
  tot - cur <= Z.of_nat (List.length buf) ->
  (Z.to_nat (tot - cur) < n)%nat ->
  exists c',
    IterableResult.iterate env conn n fuel c w
    = (Ok (firstn (Z.to_nat (tot - cur)) buf), c', w)
    /\ IterableResult.current c' = Some (Z.max cur tot)
    /\ IterableResult.total c' = Some tot
    /\ IterableResult._data c' = Some (PList (skipn (Z.to_nat (tot - cur)) buf))
    /\ IterableResult.__next__ env conn fuel c' w = (Raise StopIteration, c', w).
Proof.
  intros Hc Ht Hd Hlen Hn.
  destruct (iterate_buffered env conn fuel (Z.to_nat (tot - cur)) buf c w cur tot
              Hc Ht Hd eq_refl ltac:(lia) n Hn) as (c' & Hit & Hc' & Ht' & Hd').
  exists c'. repeat split; try assumption.
  apply (next_stop env conn fuel c' w (Z.max cur tot) tot Hc' Ht'). lia.
Qed.

Lemma buffered_records_example :
  exists c',
    IterableResult.iterate (example_env single_page_transport_example) connection_example
      3 2 (cursor_of activated_single_page_example) (snd activated_single_page_example)
    = (Ok [PStr "r0"; PStr "r1"], c', snd activated_single_page_example)
    /\ IterableResult._data c' = Some (PList [PStr "r2"]).
Proof.
  destruct (buffered_records_need_no_request (example_env single_page_transport_example)
              connection_example 2 (cursor_of activated_single_page_example)
              (snd activated_single_page_example) 0 2
              [PStr "r0"; PStr "r1"; PStr "r2"] 3
              ltac:(reflexivity) ltac:(reflexivity) ltac:(reflexivity)
              ltac:(cbn; lia) ltac:(cbn; lia))
    as (c' & Hit & _ & _ & Hd & _).
  exists c'. split; [exact Hit | exact Hd].
Defined.

(** Reading never changes the length: after any sequence of [next] steps
    and integer index accesses, whether they return or raise, the total,
    and with it [len(cursor)] and [bool(cursor)], is what it was. *)
Theorem len_unchanged_by_reading
  (env : environment) (conn : Connection_obj) (fuel : nat) (ops : list operation) :
  Forall reading ops ->
  forall (c : IterableResult.obj) (w : world),
    IterableResult.total (fst (run_operations env conn fuel ops c w))
    = IterableResult.total c
    /\ result_of (IterableResult.__len__
                    (fst (run_operations env conn fuel ops c w))
                    (snd (run_operations env conn fuel ops c w)))
       = result_of (IterableResult.__len__ c w)
    /\ result_of (IterableResult.__bool__
                    (fst (run_operations env conn fuel ops c w))
                    (snd (run_operations env conn fuel ops c w)))
       = result_of (IterableResult.__bool__ c w).
Proof.
  intros Hops c w.
  assert (Ht : IterableResult.total (fst (run_operations env conn fuel ops c w))
               = IterableResult.total c).
  { revert c w. induction Hops as [| op ops Hop _ IH]; intros c w; [reflexivity |].
    cbn [run_operations].
    pose proof (reading_total env conn fuel op c w Hop) as H1.
    destruct (run_operation env conn fuel op c w) as [c1 w1]. cbn [fst] in H1.
    rewrite IH. exact H1. }
  split; [exact Ht |].
  unfold IterableResult.__bool__, IterableResult.bindC, IterableResult.__len__,
    IterableResult.retC, result_of. cbn [fst snd]. rewrite Ht. split; reflexivity.
Qed.

Lemma len_unchanged_example :
  IterableResult.total
    (fst (run_operations (example_env paging_transport_example) connection_example 2
            [OpNext; OpGetitem 0; OpNext; OpNext]
            (cursor_of activated_example) (snd activated_example)))
  = Some 3.
Proof.
  refine (eq_trans
            (proj1 (len_unchanged_by_reading (example_env paging_transport_example)
                      connection_example 2 [OpNext; OpGetitem 0; OpNext; OpNext] _
                      (cursor_of activated_example) (snd activated_example))) _).
  - repeat constructor.
  - reflexivity.
Defined.

(** Only a GET cursor can fetch a further page.  On a cursor with another
    method whose buffer is empty below the total, [next] raises (never
    [StopIteration]) before anything is sent: for POST the follow-up call
    needs a [params] entry in the stored keyword arguments, which
    [Connection.post] does not accept. *)
Theorem refill_only_for_get
  (env : environment) (conn : Connection_obj) (fuel : nat)
  (c : IterableResult.obj) (w : world) (cur tot : Z) (d0 : pyval) :
  IterableResult.method c <> "get" ->
  IterableResult.current c = Some cur ->
  IterableResult.total c = Some tot ->
  cur < tot ->
  IterableResult._data c = Some d0 ->
  truthy d0 = false ->
  exists e c',
    IterableResult.__next__ env conn fuel c w = (Raise e, c', w)
    /\ e <> StopIteration
    /\ IterableResult.current c' = Some cur
    /\ IterableResult._data c' = Some d0.
Proof.
  intros Hm Hc Ht Hlt Hd Hempty.
  assert (Hget : String.eqb (IterableResult.method c) "get" = false)
    by (apply String.eqb_neq; exact Hm).
  unfold IterableResult.__next__.
  unfold IterableResult.bindC at 1. unfold IterableResult.attr at 1. rewrite Hc.
  unfold IterableResult.bindC at 1. unfold IterableResult.attr at 1. rewrite Ht.
  replace (cur <? tot) with true by (symmetry; apply Z.ltb_lt; exact Hlt).
  unfold IterableResult.bindC at 1. unfold IterableResult.attr at 1. rewrite Hd.
  rewrite Hempty. cbn [negb].
  unfold IterableResult.bindC at 1. unfold IterableResult.bindC at 1.
  unfold IterableResult.attr at 1.
  destruct (IterableResult._kwargs c) as [kw |] eqn:Hkw;
    [| exists (AttributeError (NoAttribute "_kwargs")), c;
       repeat split; try assumption; discriminate].
  unfold IterableResult.bindC at 1. unfold IterableResult.liftO at 1.
  cbn [getitem_str].
  destruct (Dict.get "params" kw) as [params |] eqn:Hp;
    [| exists (KeyError "params"), c; repeat split; try assumption; discriminate].
  unfold IterableResult.bindC at 1. unfold IterableResult.liftO at 1.
  destruct params as [| b | z | f | s | l | l | p];
    try (exists TypeError, c; repeat split; try assumption; discriminate).
  cbn [setitem_str].
  unfold IterableResult.bindC at 1. unfold IterableResult.set_kwargs at 1.
  unfold IterableResult.bindC at 1.
  set (kw' := Dict.set "params" (PDict (Dict.set "from" (PInt cur) p)) kw).
  assert (Hcall : exists e,
             IterableResult._make_call env conn fuel (IterableResult.assign_kwargs kw' c) w
             = (Raise e, IterableResult.assign_kwargs kw' c, w)
             /\ e <> StopIteration).
  { unfold IterableResult._make_call.
    change (IterableResult.method (IterableResult.assign_kwargs kw' c))
      with (IterableResult.method c).
    rewrite Hget.
    destruct (String.eqb (IterableResult.method c) "post");
      [| eexists; split; [reflexivity | discriminate]].
    unfold IterableResult.bindC at 1. unfold IterableResult.attr at 1.
    change (IterableResult._args (IterableResult.assign_kwargs kw' c))
      with (IterableResult._args c).
    destruct (IterableResult._args c) as [args |];
      [| eexists; split; [reflexivity | discriminate]].
    unfold IterableResult.bindC at 1. unfold IterableResult.attr at 1.
    change (IterableResult._kwargs (IterableResult.assign_kwargs kw' c)) with (Some kw').
    unfold IterableResult.bindC at 1. unfold IterableResult.liftO at 1.
    unfold bind_arguments.
    replace (existsb (fun k => negb (String.eqb k "endpoint" || String.eqb k "data"))
               (Dict.keys kw')) with true.
    - eexists; split; [reflexivity | discriminate].
    - symmetry. apply existsb_exists. exists "params". split.
      + apply dict_set_key.
      + reflexivity. }
  destruct Hcall as (e & -> & He).
  exists e, (IterableResult.assign_kwargs kw' c). repeat split; assumption.
Qed.

Lemma refill_only_for_get_example :
  exists e c',
    IterableResult.__next__ (example_env paging_transport_example) connection_example 2
      post_cursor_example empty_world
    = (Raise e, c', empty_world)
    /\ e <> StopIteration
    /\ IterableResult.current c' = Some 2
    /\ IterableResult._data c' = Some (PList []).
Proof.
  apply (refill_only_for_get (example_env paging_transport_example) connection_example 2
           post_cursor_example empty_world 2 3 (PList [])).
  - discriminate.
  - reflexivity.
  - reflexivity.
  - lia.
  - reflexivity.
  - reflexivity.
Defined.

(** ** A filter after paging *)

Lemma merge_filters_nodup (filters : dict) :
  forall p, NoDup (Dict.keys p) -> NoDup (Dict.keys (merge_filters filters p)).
Proof.
  unfold merge_filters. induction filters as [| kv more IH]; intros p Hp; [exact Hp |].
  cbn [fold_left]. apply IH. now apply dict_set_nodup.
Qed.

Lemma merge_filters_get_other (k : string) (filters : dict) :
  ~ In k (Dict.keys filters) ->
  forall p, Dict.get k (merge_filters filters p) = Dict.get k p.
Proof.
  unfold merge_filters. induction filters as [| [k0 v0] more IH]; intros Hk p;
    [reflexivity |].
  cbn [fold_left fst snd]. cbn in Hk. rewrite IH by tauto.
  apply dict_get_set_other. intros ->. apply Hk. now left.
Qed.

Lemma sorted_params_exist (env : environment) (d : dict) :
  NoDup (Dict.keys d) ->
  exists l,
    Connection.order_params env (Some (PDict d))
    = Ok (Some (PList (map Connection.item_tuple l)))
    /\ Permutation l d.
Proof.
  intros Hnd. cbn [Connection.order_params]. rewrite (sorted_items_by_key env d Hnd).
  destruct (sorted_ok key_lt (fun kv => In kv d) (key_lt_order d Hnd) d) as (l & Hs & Hp & _).
  { apply Forall_forall. auto. }
  exists l. rewrite Hs. split; [reflexivity | exact Hp].
Qed.

Lemma init_trace_incl (env : environment) (r : raw_response) (ct : string) (w : world)
  (ev : event) :
  In ev (trace w) -> In ev (trace (snd (Response.__init__ env r ct w))).
Proof.
  intros Hin. unfold Response.__init__.
  destruct (String.eqb ct "json"); [| exact Hin].
  unfold bind at 1. unfold lift at 1.
  destruct (resp_json r) as [body |]; [| exact Hin].
  destruct (Response.split_body body) as [dat inf].
  unfold bind at 1. unfold Response._parse_usage_data.
  assert (Hu : forall K,
             In ev (trace (snd (Response.usage_from env K (resp_headers r) w)))).
  { intros K. unfold Response.usage_from, bind, lift.
    destruct (Response.header_int env (K "X-Usage-Limit-1h") _); try exact Hin.
    destruct (Response.header_int env (K "X-Usage-Limit-10s") _); try exact Hin.
    destruct (Response.header_int env (K "X-Usage-Remaining-1h") _); try exact Hin.
    destruct (Response.header_int env (K "X-Usage-Remaining-10s") _); try exact Hin.
    cbn [exceeded]. destruct (Z.min _ _ <? 0); cbn; auto. }
  destruct (header_mem (KStr "X-Usage-Limit-1h") (resp_headers r)).
  - specialize (Hu KStr).
    destruct (Response.usage_from env KStr (resp_headers r) w) as [[u | e |] w1];
      exact Hu.
  - destruct (header_mem (KBytes "X-Usage-Limit-1h") (resp_headers r)).
    + specialize (Hu KBytes).
      destruct (Response.usage_from env KBytes (resp_headers r) w) as [[u | e |] w1];
        exact Hu.
    + exact Hin.
Qed.

Section FilterAfterPaging.
Variable env : environment.
Variable conn : Connection_obj.
Import IterableResult.

Lemma filter_as_call (fuel : nat) (filters : dict) (c : obj) (w : world)
  (endpoint : string) (rest : list pyval) (kw p : dict) :
  _args c = Some (PStr endpoint :: rest) ->
  _kwargs c = Some kw ->
  Dict.get "params" kw = Some (PDict p) ->
  filters <> [] ->
  (forall k v, In (k, v) filters ->
     fst (Connection.validate_parameter conn endpoint k v "get" w) = Ok tt) ->
  filter env conn fuel filters c w
  = returning_self
      (__call__ env conn fuel (PStr endpoint :: rest) (filtered_kwargs filters p kw)
         (assign_kwargs (filtered_kwargs filters p kw) c) w).
Proof.
  intros Ha Hk Hp Hne Hv.
  unfold filter. destruct filters as [| kv more]; [now destruct Hne |].
  cbn [truthy]. unfold bindC at 1 2.
  rewrite (filter_each_valid conn (kv :: more) c w endpoint rest kw p Ha Hk Hp Hv).
  unfold bindC, attr.
  cbn [_args _kwargs assign_kwargs].
  rewrite Ha.
  cbn [_args _kwargs assign_kwargs].
  destruct (__call__ env conn fuel (PStr endpoint :: rest) _ _ w)
    as [[[c1 | e |] c2] w2]; reflexivity.
Qed.

Lemma call_get_world (fuel : nat) (endpoint : string) (m : dict) (c : obj) (w : world) :
  method c = "get" ->
  snd (__call__ env conn fuel [PStr endpoint] [("params", PDict m)] c w)
  = snd (Connection.get env conn fuel endpoint (Some (PDict m)) w).
Proof.
  intros Hm.
  unfold __call__, bindC, set_args, set_kwargs, _make_call, attr, liftO, liftM,
    set_info, set_data, set_current, set_total, return_self.
  cbn [method _args _kwargs info _data assign_args assign_kwargs assign_info assign_data
       assign_current fst snd].
  rewrite Hm.
  change (bind_arguments "endpoint" "params" [PStr endpoint] [("params", PDict m)])
    with (Ok (endpoint, Some (PDict m)) : outcome (string * option pyval)).
  cbn.
  destruct (Connection.get env conn fuel endpoint (Some (PDict m)) w) as [[resp | e |] w1];
    try reflexivity.
  cbn.
  destruct (total_of env (Response.info resp) (Response.data resp)); reflexivity.
Qed.

Lemma get_answered (fuel : nat) (endpoint : string) (params params' : option pyval)
  (w : world) (r : raw_response) :
  Connection.use_auth conn = false ->
  Connection.order_params env params = Ok params' ->
  transport env (calls w) (request_sent conn "GET" endpoint params' None DefaultHeaders w)
    = Some r ->
  passes_loop false r ->
  In (EvRequest (request_sent conn "GET" endpoint params' None DefaultHeaders w))
    (trace (snd (Connection.get env conn (S (S fuel)) endpoint params w))).
Proof.
  intros Ha Hp Ht Hpass. unfold Connection.get, bind.
  rewrite (make_request_answered env conn fuel endpoint params None "GET" DefaultHeaders
             false params' DefaultHeaders w w r); try assumption.
  - destruct (after_loop r) as [r' | e |]; cbn [snd]; try (now left).
    apply init_trace_incl. now left.
  - unfold Connection.prepare. now apply prepare_without_credentials.
Qed.

End FilterAfterPaging.

(** A filter applied after the cursor has paged keeps the offset of the
    last page fetched: the stored parameters still hold [from], the
    filtered query is sent with it (and with the filters, in key order),
    while the count of consumed records starts again at 0. *)
Theorem filter_keeps_paging_offset
  (env : environment) (conn : Connection_obj) (fuel : nat) (filters : dict)
  (c : IterableResult.obj) (w : world) (endpoint : string) (p : dict) (v : pyval)
  (r : raw_response) :
  Connection.use_auth conn = false ->
  IterableResult.method c = "get" ->
  IterableResult._args c = Some [PStr endpoint] ->
  IterableResult._kwargs c = Some [("params", PDict p)] ->
  NoDup (Dict.keys p) ->
  Dict.get "from" p = Some v ->
  ~ In "from" (Dict.keys filters) ->
  filters <> [] ->
  (forall k x, In (k, x) filters ->
     fst (Connection.validate_parameter conn endpoint k x "get" w) = Ok tt) ->
  (forall params',
     transport env (calls w)
       (request_sent conn "GET" endpoint params' None DefaultHeaders w) = Some r) ->
  status_code r <> 429 -> status_code r <> 419 ->
  exists l,
    Connection.order_params env (Some (PDict (merge_filters filters p)))
    = Ok (Some (PList (map Connection.item_tuple l)))
    /\ In ("from", v) l
    /\ (forall k x, In (k, x) l -> Dict.get k (merge_filters filters p) = Some x)
    /\ In (EvRequest
             (request_sent conn "GET" endpoint
                (Some (PList (map Connection.item_tuple l))) None DefaultHeaders w))
         (trace (snd (IterableResult.filter env conn (S (S fuel)) filters c w)))
    /\ (forall c',
          result_of (IterableResult.filter env conn (S (S fuel)) filters c w) = Ok c' ->
          IterableResult.current c' = Some 0
          /\ IterableResult._kwargs c'
             = Some [("params", PDict (merge_filters filters p))]).
Proof.
  intros Hauth Hm Ha Hk Hnd Hfrom Hnot Hne Hvalid Ht H429 H419.
  pose proof (merge_filters_nodup filters p Hnd) as Hnd'.
  destruct (sorted_params_exist env (merge_filters filters p) Hnd') as (l & Hord & Hperm).
  exists l. split; [exact Hord |].
  assert (Heq := filter_as_call env conn (S (S fuel)) filters c w endpoint [] _ p
                   Ha Hk eq_refl Hne Hvalid).
  change (filtered_kwargs filters p [("params", PDict p)])
    with [("params", PDict (merge_filters filters p))] in Heq.
  split; [| split; [| split]].
  - apply (Permutation_in _ (Permutation_sym Hperm)). apply dict_get_In.
    rewrite (merge_filters_get_other "from" filters Hnot). exact Hfrom.
  - intros k x Hin. apply (dict_In_get k x _ Hnd').
    apply (Permutation_in _ Hperm). exact Hin.
  - rewrite Heq.
    assert (Hw : forall x, snd (returning_self x) = snd x)
      by (intros [[[? | ? |] ?] ?]; reflexivity).
    rewrite Hw, call_get_world by exact Hm.
    apply (get_answered env conn fuel endpoint _ _ w r Hauth Hord (Ht _)).
    right. split; assumption.
  - intros c' Hres.
    pose proof (filter_counts env conn (S (S fuel)) filters c w) as [_ Hc].
    cbv zeta in Hc. destruct (Hc c' Hres) as [Hcur Hzero].
    split; [now apply Hzero |].
    rewrite Heq in Hres.
    pose proof (call_query env conn (S (S fuel)) [PStr endpoint]
                  [("params", PDict (merge_filters filters p))]
                  (IterableResult.assign_kwargs
                     [("params", PDict (merge_filters filters p))] c) w) as Hq.
    pose proof (call_counts env conn (S (S fuel)) [PStr endpoint]
                  [("params", PDict (merge_filters filters p))]
                  (IterableResult.assign_kwargs
                     [("params", PDict (merge_filters filters p))] c) w) as [_ Hcc].
    cbv zeta in Hcc. unfold result_of, cursor_of in *.
    destruct (IterableResult.__call__ env conn (S (S fuel)) [PStr endpoint] _ _ w)
      as [[[c1 | e |] c2] w2]; cbn in Hres; try discriminate.
    injection Hres as <-. cbn [fst snd] in *.
    destruct (Hcc c1 eq_refl) as (-> & _).
    destruct (Hq c2 eq_refl) as (_ & _ & Hkw). exact Hkw.
Qed.

Lemma filter_keeps_paging_offset_example :
  In (EvRequest
        (request_sent connection_example "GET" "/public/search"
           (Some (PList [PTuple [PStr "from"; PInt 2]; PTuple [PStr "q"; PStr "braf"];
                         PTuple [PStr "size"; PInt 5]]))
           None DefaultHeaders empty_world))
    (trace (snd (IterableResult.filter (example_env paging_transport_example)
                   connection_example 2 [("size", PInt 5)] paged_cursor_example
                   empty_world))).
Proof.
  destruct (filter_keeps_paging_offset (example_env paging_transport_example)
              connection_example 0 [("size", PInt 5)] paged_cursor_example empty_world
              "/public/search" [("q", PStr "braf"); ("from", PInt 2)] (PInt 2)
              (json_response 200 [] page_example))
    as (l & Hord & _ & _ & Hin & _).
  - reflexivity.
  - reflexivity.
  - reflexivity.
  - reflexivity.
  - constructor; [intros [H | []]; discriminate |].
    constructor; [intros [] | constructor].
  - reflexivity.
  - intros [H | []]; discriminate.
  - discriminate.
  - intros k x [H | []]. injection H as <- <-. reflexivity.
  - intros params'. reflexivity.
  - discriminate.
  - discriminate.
  - vm_compute in Hord. injection Hord as Hl. rewrite Hl. exact Hin.
Defined.

(** ** The schema index built from the API description *)

Lemma assoc_set_same {A : Type} (k : string) (v : A) (l : list (string * A)) :
  assoc k (assoc_set k v l) = Some v.
Proof.
  induction l as [| [k' v'] l IH]; cbn.
  - now rewrite String.eqb_refl.
  - destruct (String.eqb k k') eqn:E; cbn.
    + now rewrite String.eqb_refl.
    + now rewrite E.
Qed.

Lemma assoc_set_other {A : Type} (k k' : string) (v : A) (l : list (string * A)) :
  k <> k' -> assoc k' (assoc_set k v l) = assoc k' l.
Proof.
  intros Hne. induction l as [| [k0 v0] l IH]; cbn.
  - destruct (String.eqb k' k) eqn:E; [| reflexivity].
    apply String.eqb_eq in E. congruence.
  - destruct (String.eqb k k0) eqn:E; cbn.
    + apply String.eqb_eq in E. subst k0.
      destruct (String.eqb k' k) eqn:E'; [| reflexivity].
      apply String.eqb_eq in E'. congruence.
    + destruct (String.eqb k' k0); [reflexivity | exact IH].
Qed.

Section IndexFacts.
Import RemoteSpecs.

Lemma before_brace_no_brace (p : string) :
  ~ In "{"%char (list_ascii_of_string (before_brace p)).
Proof.
  induction p as [| c p IH]; cbn; [tauto |].
  destruct (Ascii.eqb c "{") eqn:E; cbn; [tauto |].
  intros [H | H]; [| tauto]. subst c. discriminate.
Qed.

Lemma drop_last_incl (c : ascii) (p : string) :
  In c (list_ascii_of_string (drop_last p)) -> In c (list_ascii_of_string p).
Proof.
  induction p as [| c0 p IH]; cbn; [tauto |].
  destruct p as [| c1 p]; cbn in *; [tauto |].
  intros [H | H]; [now left | right; now apply IH].
Qed.

Lemma normalise_path_no_brace (p k : string) :
  normalise_path p = Ok k -> ~ In "{"%char (list_ascii_of_string k).
Proof.
  unfold normalise_path. destruct (last_char (before_brace p)) as [c |]; [| discriminate].
  destruct (Ascii.eqb c "/"); intros H; injection H as <-.
  - intros Hin. apply (before_brace_no_brace p). now apply drop_last_incl.
  - apply before_brace_no_brace.
Qed.

Lemma parameter_types_lookup (pars : list parameter) :
  forall (params0 params : list (string * string)),
    parameter_types pars params0 = Ok params ->
    NoDup (map par_name pars) ->
    (forall par n, In par pars -> par_name par = Some n ->
       assoc n params = Some (par_type_or_string par))
    /\ (forall n, ~ In (Some n) (map par_name pars) -> assoc n params = assoc n params0).
Proof.
  induction pars as [| par0 rest IH]; intros params0 params Hp Hnd.
  - injection Hp as <-. split; [intros par n [] | reflexivity].
  - cbn [parameter_types] in Hp. destruct (par_name par0) as [n0 |] eqn:Hn0; [| discriminate].
    cbn [map] in Hnd. inversion Hnd as [| x l Hnot Hnd' ]; subst.
    destruct (IH _ _ Hp Hnd') as [Hin Hout]. split.
    + intros par n [<- | Hin'] Hn.
      * assert (n = n0) by congruence. subst n.
        rewrite Hout by (rewrite <- Hn0; exact Hnot). apply assoc_set_same.
      * now apply Hin.
    + intros n Hn. rewrite Hout by (intros H; apply Hn; right; exact H).
      apply assoc_set_other. intros ->. apply Hn. left. exact Hn0.
Qed.

Lemma index_methods_other (data : list (string * method_data)) :
  forall (p : string) (idx idx' : index) (e0 : list (string * list (string * string))),
    assoc p idx = Some e0 ->
    index_methods p data idx = Ok idx' ->
    (exists e, assoc p idx' = Some e)
    /\ (forall q, q <> p -> assoc q idx' = assoc q idx).
Proof.
  induction data as [| [m md] rest IH]; intros p idx idx' e0 He0 Hrun.
  - injection Hrun as <-. split; [now exists e0 | reflexivity].
  - cbn [index_methods] in Hrun. destruct (parameters md) as [pars |].
    + destruct (parameter_types pars []) as [params | e |]; try discriminate.
      rewrite He0 in Hrun.
      destruct (IH p _ idx' _ (assoc_set_same p _ idx) Hrun) as [He Hq].
      split; [exact He |]. intros q Hne. rewrite (Hq q Hne).
      apply assoc_set_other. congruence.
    + exact (IH p idx idx' e0 He0 Hrun).
Qed.

Lemma index_methods_entry (data : list (string * method_data)) :
  forall (p : string) (idx idx' : index) (e0 : list (string * list (string * string))),
    assoc p idx = Some e0 ->
    NoDup (map fst data) ->
    index_methods p data idx = Ok idx' ->
    exists entry,
      assoc p idx' = Some entry
      /\ (forall method pars,
            In (method, {| parameters := Some pars |}) data ->
            exists params,
              parameter_types pars [] = Ok params /\ assoc method entry = Some params)
      /\ (forall method, ~ declares_parameters data method ->
            assoc method entry = assoc method e0).
Proof.
  induction data as [| [m md] rest IH]; intros p idx idx' e0 He0 Hnd Hrun.
  - injection Hrun as <-. exists e0. split; [exact He0 |]. split.
    + intros method pars [].
    + reflexivity.
  - cbn [map fst] in Hnd. inversion Hnd as [| x l Hnot Hnd']; subst.
    cbn [index_methods] in Hrun. destruct md as [[pars |]]; cbn [parameters] in Hrun.
    + destruct (parameter_types pars []) as [params | e |] eqn:Hpt; try discriminate.
      rewrite He0 in Hrun.
      destruct (IH p _ idx' _ (assoc_set_same p _ idx) Hnd' Hrun)
        as (entry & He & Hdecl & Hrest).
      exists entry. split; [exact He |]. split.
      * intros method pars' [Heq | Hin].
        -- injection Heq as <- <-. exists params. split; [exact Hpt |].
           rewrite Hrest.
           ++ apply assoc_set_same.
           ++ intros [pars' Hin]. apply Hnot.
              change m with (fst (m, {| parameters := Some pars' |})). now apply in_map.
        -- now apply Hdecl.
      * intros method Hno. rewrite Hrest.
        -- apply assoc_set_other. intros ->. apply Hno. exists pars. now left.
        -- intros [pars' Hin]. apply Hno. exists pars'. now right.
    + destruct (IH p idx idx' e0 He0 Hnd' Hrun) as (entry & He & Hdecl & Hrest).
      exists entry. split; [exact He |]. split.
      * intros method pars' [Heq | Hin]; [discriminate | now apply Hdecl].
      * intros method Hno. apply Hrest. intros [pars' Hin]. apply Hno.
        exists pars'. now right.
Qed.

Lemma index_paths_other (paths : list (string * list (string * method_data))) :
  forall (idx idx' : index) (k : string),
    index_paths paths idx = Ok idx' ->
    (forall q d, In (q, d) paths -> normalise_path q <> Ok k) ->
    assoc k idx' = assoc k idx.
Proof.
  induction paths as [| [p data] rest IH]; intros idx idx' k Hrun Hfree.
  - now injection Hrun as <-.
  - cbn [index_paths] in Hrun.
    destruct (normalise_path p) as [p' | e |] eqn:Hp; try discriminate.
    destruct (index_methods p' data (assoc_set p' [] idx)) as [idx1 | e |] eqn:Hm;
      try discriminate.
    assert (Hne : p' <> k).
    { intros ->. apply (Hfree p data); [now left | exact Hp]. }
    rewrite (IH idx1 idx' k Hrun) by (intros q d Hin; apply (Hfree q d); now right).
    destruct (index_methods_other data p' _ idx1 [] (assoc_set_same p' [] idx) Hm)
      as [_ Hq].
    rewrite (Hq k) by congruence. now apply assoc_set_other.
Qed.

Lemma index_paths_app (a b : list (string * list (string * method_data))) :
  forall idx,
    index_paths (a ++ b) idx
    = match index_paths a idx with
      | Ok idx1 => index_paths b idx1
      | Raise e => Raise e
      | OutOfFuel => OutOfFuel
      end.
Proof.
  induction a as [| [p data] a IH]; intros idx; [reflexivity |].
  cbn [app index_paths]. destruct (normalise_path p) as [p' | e |]; try reflexivity.
  destruct (index_methods p' data (assoc_set p' [] idx)) as [idx1 | e |]; try reflexivity.
  apply IH.
Qed.

Lemma index_entry (before after : list (string * list (string * method_data)))
  (p : string) (data : list (string * method_data)) (idx : index) (k : string) :
  _get_remote_api_specs (before ++ (p, data) :: after) = Ok idx ->
  normalise_path p = Ok k ->
  (forall q d, In (q, d) after -> normalise_path q <> Ok k) ->
  NoDup (map fst data) ->
  exists entry,
    assoc k idx = Some entry
    /\ (forall method pars,
          In (method, {| parameters := Some pars |}) data ->
          exists params,
            parameter_types pars [] = Ok params /\ assoc method entry = Some params)
    /\ (forall method, ~ declares_parameters data method -> assoc method entry = None).
Proof.
  intros Hrun Hk Hfree Hnd. unfold _get_remote_api_specs in Hrun.
  rewrite index_paths_app in Hrun.
  destruct (index_paths before []) as [idx0 | e |]; try discriminate.
  cbn [index_paths] in Hrun. rewrite Hk in Hrun.
  destruct (index_methods k data (assoc_set k [] idx0)) as [idx1 | e |] eqn:Hm;
    try discriminate.
  destruct (index_methods_entry data k _ idx1 [] (assoc_set_same k [] idx0) Hnd Hm)
    as (entry & He & Hdecl & Hrest).
  exists entry. split; [| split].
  - rewrite (index_paths_other after idx1 idx k Hrun Hfree). exact He.
  - exact Hdecl.
  - intros method Hno. now rewrite Hrest.
Qed.

End IndexFacts.

(** The index entry of an endpoint comes from the last path of the
    description that is indexed under it.  Paths are indexed under the
    text before their first brace, less one trailing slash, so a plain
    path and its templated variants share one key; the entry holds, for
    each method of that last path that lists parameters, the types of
    those parameters, and nothing else: a method without parameters has no
    entry, and what earlier paths had put under the key is gone. *)
Theorem index_entry_from_last_path
  (before after : list (string * list (string * RemoteSpecs.method_data)))
  (p : string) (data : list (string * RemoteSpecs.method_data))
  (idx : RemoteSpecs.index) (k : string) :
  RemoteSpecs._get_remote_api_specs (before ++ (p, data) :: after) = Ok idx ->
  RemoteSpecs.normalise_path p = Ok k ->
  (forall q d, In (q, d) after -> RemoteSpecs.normalise_path q <> Ok k) ->
  NoDup (map fst data) ->
  ~ In "{"%char (list_ascii_of_string k)
  /\ exists entry,
       assoc k idx = Some entry
       /\ (forall method pars,
             In (method, {| RemoteSpecs.parameters := Some pars |}) data ->
             exists params,
               RemoteSpecs.parameter_types pars [] = Ok params
               /\ assoc method entry = Some params)
       /\ (forall method, ~ declares_parameters data method ->
             assoc method entry = None).
Proof.
  intros Hrun Hk Hfree Hnd. split.
  - exact (normalise_path_no_brace p k Hk).
  - exact (index_entry before after p data idx k Hrun Hk Hfree Hnd).
Qed.

Lemma index_entry_example :
  exists entry,
    assoc "/public/evidence" index_example = Some entry
    /\ (forall method pars,
          In (method, {| RemoteSpecs.parameters := Some pars |})
            (snd (nth 1 paths_example ("", []))) ->
          exists params,
            RemoteSpecs.parameter_types pars [] = Ok params
            /\ assoc method entry = Some params)
    /\ (forall method,
          ~ declares_parameters (snd (nth 1 paths_example ("", []))) method ->
          assoc method entry = None).
Proof.
  refine (proj2 (index_entry_from_last_path [nth 0 paths_example ("", [])] []
                   "/public/evidence/{id}/" (snd (nth 1 paths_example ("", [])))
                   index_example "/public/evidence" _ _ _ _)).
  - reflexivity.
  - reflexivity.
  - intros q d [].
  - cbn. constructor; [intros [H | []]; discriminate |].
    constructor; [intros [] | constructor].
Defined.

(** From the description to the validation of a filter.  For a method
    whose parameters the index took from the description, a filter named
    after one of them is accepted exactly when its value matches the
    declared type, read as "string" when the description gives none; a
    declared type other than string, boolean and number (such as
    integer) is matched by no value; a filter that is not among the
    parameters is rejected; and for a method that lists no parameters
    [validate_parameter] raises [KeyError]. *)
Theorem described_parameter_validation
  (conn : Connection_obj)
  (before after : list (string * list (string * RemoteSpecs.method_data)))
  (p : string) (data : list (string * RemoteSpecs.method_data))
  (idx : RemoteSpecs.index) (k method : string) (pars : list RemoteSpecs.parameter) :
  RemoteSpecs._get_remote_api_specs (before ++ (p, data) :: after) = Ok idx ->
  RemoteSpecs.normalise_path p = Ok k ->
  (forall q d, In (q, d) after -> RemoteSpecs.normalise_path q <> Ok k) ->
  NoDup (map fst data) ->
  In (method, {| RemoteSpecs.parameters := Some pars |}) data ->
  NoDup (map RemoteSpecs.par_name pars) ->
  (forall par n value w,
     In par pars -> RemoteSpecs.par_name par = Some n ->
     Connection.validate_parameter (with_index conn idx) k n value method w
     = (if type_matches (RemoteSpecs.par_type_or_string par) value
        then Ok tt
        else Raise (AttributeError (NotValidParameter n value k)), w))
  /\ (forall par n value w,
        In par pars -> RemoteSpecs.par_name par = Some n ->
        RemoteSpecs.par_type_or_string par <> "string" ->
        RemoteSpecs.par_type_or_string par <> "boolean" ->
        RemoteSpecs.par_type_or_string par <> "number" ->
        Connection.validate_parameter (with_index conn idx) k n value method w
        = (Raise (AttributeError (NotValidParameter n value k)), w))
  /\ (forall n value w,
        ~ In (Some n) (map RemoteSpecs.par_name pars) ->
        Connection.validate_parameter (with_index conn idx) k n value method w
        = (Raise (AttributeError (NotValidParameter n value k)), w))
  /\ (forall m n value w,
        ~ declares_parameters data m ->
        Connection.validate_parameter (with_index conn idx) k n value m w
        = (Raise (KeyError m), w)).
Proof.
  intros Hrun Hk Hfree Hnd Hin Hndp.
  destruct (index_entry before after p data idx k Hrun Hk Hfree Hnd)
    as (entry & He & Hdecl & Hnone).
  destruct (Hdecl method pars Hin) as (params & Hpt & Hm).
  destruct (parameter_types_lookup pars [] params Hpt Hndp) as [Hlook Hmiss].
  split; [| split; [| split]].
  - intros par n value w Hpar Hn.
    unfold Connection.validate_parameter, bind, lift, ret, raise.
    cbn [endpoint_validation_data with_index]. rewrite He, Hm, (Hlook par n Hpar Hn).
    unfold type_matches.
    destruct (String.eqb (RemoteSpecs.par_type_or_string par) "string" && isinstance_str value);
      [reflexivity |].
    destruct (String.eqb (RemoteSpecs.par_type_or_string par) "boolean"
              && isinstance_bool value); [reflexivity |].
    destruct (String.eqb (RemoteSpecs.par_type_or_string par) "number"
              && (isinstance_int value || isinstance_float value)); reflexivity.
  - intros par n value w Hpar Hn H1 H2 H3.
    unfold Connection.validate_parameter, bind, lift, ret, raise.
    cbn [endpoint_validation_data with_index]. rewrite He, Hm, (Hlook par n Hpar Hn).
    apply String.eqb_neq in H1, H2, H3. now rewrite H1, H2, H3.
  - intros n value w Hn.
    unfold Connection.validate_parameter, bind, lift, ret, raise.
    cbn [endpoint_validation_data with_index]. rewrite He, Hm, (Hmiss n Hn). reflexivity.
  - intros m n value w Hno.
    unfold Connection.validate_parameter, bind, lift, ret, raise.
    cbn [endpoint_validation_data with_index]. rewrite He, (Hnone m Hno). reflexivity.
Qed.

Lemma described_parameter_validation_example :
  Connection.validate_parameter (with_index connection_example index_example)
    "/public/evidence" "size" (PInt 10) "post" empty_world
  = (Raise (AttributeError (NotValidParameter "size" (PInt 10) "/public/evidence")),
     empty_world).
Proof.
  refine (proj1 (proj2 (described_parameter_validation connection_example
                   [nth 0 paths_example ("", [])] []
                   "/public/evidence/{id}/" (snd (nth 1 paths_example ("", [])))
                   index_example "/public/evidence" "post"
                   [{| RemoteSpecs.par_name := Some "size";
                       RemoteSpecs.par_type := Some "integer" |};
                    {| RemoteSpecs.par_name := Some "target";
                       RemoteSpecs.par_type := None |}]
                   _ _ _ _ _ _))
            {| RemoteSpecs.par_name := Some "size"; RemoteSpecs.par_type := Some "integer" |}
            "size" (PInt 10) empty_world _ _ _ _ _).
  - reflexivity.
  - reflexivity.
  - intros q d [].
  - cbn. constructor; [intros [H | []]; discriminate |].
    constructor; [intros [] | constructor].
  - left. reflexivity.
  - cbn. constructor; [intros [H | []]; discriminate |].
    constructor; [intros [] | constructor].
  - left. reflexivity.
  - reflexivity.
  - discriminate.
  - discriminate.
  - discriminate.
Defined.

(** ** A pause that cannot be taken *)

(** When a 429 comes with a [Retry-After] that [float] does not read (a
    date, for instance), the request raises [ValueError] after its first
    attempt: nothing is logged, there is no pause and nothing is sent
    again. *)
Theorem retry_after_rejected
  (env : environment) (self : Connection_obj) (fuel : nat)
  (endpoint : string) (params params' dat : option pyval) (method : string)
  (h : headers_arg) (w : world) (r : raw_response) (s : string) :
  Connection.use_auth self = false ->
  Connection.order_params env params = Ok params' ->
  transport env (calls w) (request_sent self method endpoint params' dat h w) = Some r ->
  status_code r = 429 ->
  header_get (KStr "Retry-After") (resp_headers r) = Some s ->
  float_of_str env s = None ->
  Connection._make_request env self (S (S fuel)) endpoint params dat method h false w
  = (Raise ValueError,
     after_request (request_sent self method endpoint params' dat h w) w).
Proof.
  intros Ha Hp Ht Hs Hh Hf.
  pose proof (call_answered env self method endpoint params' dat h w r Ht) as Hcall.
  rewrite make_request_S. unfold Connection._make_request_.
  unfold bind at 1.
  rewrite (prepare_without_credentials env self _ endpoint params params' h w Ha Hp).
  cbn [negb fst snd Connection.retry_loop]. unfold bind at 1. unfold bind at 1.
  rewrite Hcall, Hs. cbn [Z.eqb Pos.eqb].
  unfold bind at 1. unfold lift at 1.
  unfold Connection.retry_after_of, header_mem, header_item. rewrite Hh, Hf.
  reflexivity.
Qed.

Lemma retry_after_rejected_example :
  Connection._make_request (example_env retry_date_transport_example) connection_example 2
    "/public/search" None None "GET" DefaultHeaders false empty_world
  = (Raise ValueError,
     after_request
       (request_sent connection_example "GET" "/public/search" None None DefaultHeaders
          empty_world)
       empty_world).
Proof.
  apply (retry_after_rejected (example_env retry_date_transport_example)
           connection_example 0 "/public/search" None None None "GET"
           DefaultHeaders empty_world retry_date "Wed, 21 Oct 2015 07:28:00 GMT").
  - reflexivity.
  - reflexivity.
  - reflexivity.
  - reflexivity.
  - reflexivity.
  - reflexivity.
Defined.

(** ** What [get] and [post] return *)

(** On a connection without credentials, when the answer is not an error
    and carries a JSON body and no usage headers, [get] sends one GET
    request with the params in order and no data, [post] sends one POST
    request with the data as given and no params, and each returns the
    [Response] made of that body. *)
Theorem get_and_post_return_parsed_body
  (env : environment) (self : Connection_obj) (fuel : nat) (endpoint : string)
  (params params' dat : option pyval) (w : world) (r : raw_response) (body : pyval) :
  Connection.use_auth self = false ->
  ~ 400 <= status_code r < 600 ->
  resp_json r = Some body ->
  header_mem (KStr "X-Usage-Limit-1h") (resp_headers r) = false ->
  header_mem (KBytes "X-Usage-Limit-1h") (resp_headers r) = false ->
  (Connection.order_params env params = Ok params' ->
   transport env (calls w)
     (request_sent self "GET" endpoint params' None DefaultHeaders w) = Some r ->
   Connection.get env self (S (S fuel)) endpoint params w
   = (Ok (parsed r body),
      after_request (request_sent self "GET" endpoint params' None DefaultHeaders w) w))
  /\ (transport env (calls w)
        (request_sent self "POST" endpoint None dat DefaultHeaders w) = Some r ->
      Connection.post env self (S (S fuel)) endpoint dat w
      = (Ok (parsed r body),
         after_request (request_sent self "POST" endpoint None dat DefaultHeaders w) w)).
Proof.
  intros Ha Hs Hj Hu1 Hu2.
  assert (Hpass : passes_loop false r) by (right; split; lia).
  destruct (after_loop_status r) as [_ Hok]. specialize (Hok Hs).
  assert (Hinit : forall w', Response.__init__ env r "json" w' = (Ok (parsed r body), w')).
  { intros w'. rewrite (init_json env r body w' Hj).
    now rewrite (parse_usage_absent env (resp_headers r) w' Hu1 Hu2). }
  split.
  - intros Hp Ht. unfold Connection.get, bind.
    rewrite (make_request_answered env self fuel endpoint params None "GET" DefaultHeaders
               false params' DefaultHeaders w w r); try assumption.
    + rewrite Hok. apply Hinit.
    + unfold Connection.prepare. now apply prepare_without_credentials.
  - intros Ht. unfold Connection.post, bind.
    rewrite (make_request_answered env self fuel endpoint None dat "POST" DefaultHeaders
               false None DefaultHeaders w w r); try assumption.
    + rewrite Hok. apply Hinit.
    + unfold Connection.prepare. now apply prepare_without_credentials.
Qed.

Lemma get_and_post_example :
  Connection.post (example_env paging_transport_example) connection_example 2
    "/public/search" (Some (PDict [("q", PStr "braf")])) empty_world
  = (Ok (parsed (json_response 200 [] page_example) page_example),
     after_request
       (request_sent connection_example "POST" "/public/search" None
          (Some (PDict [("q", PStr "braf")])) DefaultHeaders empty_world)
       empty_world).
Proof.
  refine (proj2 (get_and_post_return_parsed_body (example_env paging_transport_example)
                   connection_example 0 "/public/search" None None
                   (Some (PDict [("q", PStr "braf")])) empty_world
                   (json_response 200 [] page_example) page_example _ _ _ _ _) _).
  - reflexivity.
  - cbn. lia.
  - reflexivity.
  - reflexivity.
  - reflexivity.
  - reflexivity.
Defined.

(** ** The call that [filter] makes again *)



Section CallAgain.
Variable env : environment.
Variable conn : Connection_obj.
Import IterableResult.



End CallAgain.



